(** * Pytheas: the row classifier and the table extractor

    A shallow embedding of the scoring and scanning code of
    [pytheas/pytheas.py] together with the properties its specification
    states about it.

    Conventions of the embedding.
    - Row indices, column indices and counters are [Z].
    - Weights and confidences are exact rationals ([Qc], canonical
      fractions, so that Python's [==] on numbers is Leibniz equality);
      the rounding of IEEE doubles is not modelled.  Learned weights are
      quotients of counts (see [train_rules]), hence rationals.
    - A Python [dict] keyed by rule names is a [gmap string _]; a [dict]
      keyed by row indices is a [gmap Z _]; a [KeyError] is [None] in the
      [option] monad.
    - [None] as a rule weight (JSON [null]) is [None : option Qc]. *)

From Stdlib Require Import QArith Qcanon ZArith Lia Lqa Ascii String.
From stdpp Require Import gmap strings list sorting.

Open Scope Z_scope.

(** ** Rational helpers *)

Definition Qcleb (x y : Qc) : bool := Qle_bool x y.
Definition Qcltb (x y : Qc) : bool := negb (Qle_bool y x).
Definition Qceqb (x y : Qc) : bool := Qeq_bool x y.

(** ** The rule catalogue

    One entry of [fuzzy_rules[unit][class]]: the learned scalars of a rule.
    [weight] and [confidence] are [None] for an untrained rule. *)

Record fuzzy_rule := FuzzyRule {
  weight : option Qc;
  confidence : option Qc;
  coverage : Qc;
  theme : string
}.

Abbreviation catalogue := (gmap string fuzzy_rule).

(** ** [max_score]  (pytheas.py, [def max_score]) *)

(** The loop that fills [event_score]: a pair is appended for every event
    whose weight is not [None] and is [>= weight_lower_bound].  The
    subscription [unit_class_fuzzy_rules[event]] raises [KeyError] for an
    unknown event. *)
Fixpoint event_scores (events : list string) (R : catalogue) (lb : Qc)
  : option (list (string * Qc)) :=
  match events with
  | [] => Some []
  | event :: rest =>
      match R !! event with
      | None => None
      | Some r =>
          match event_scores rest R lb with
          | None => None
          | Some tl =>
              match weight r with
              | Some w => if Qcleb lb w then Some ((event, w) :: tl) else Some tl
              | None => Some tl
              end
          end
      end
  end.

(** [list.sort(key=lambda x: x[1], reverse=True)]: a stable sort in
    descending order of the weight.  Elements with equal weights keep their
    relative order. *)
Fixpoint insert_desc (x : string * Qc) (l : list (string * Qc))
  : list (string * Qc) :=
  match l with
  | [] => [x]
  | y :: l' => if Qcleb (snd y) (snd x) then x :: y :: l'
               else y :: insert_desc x l'
  end.

Definition sort_desc (l : list (string * Qc)) : list (string * Qc) :=
  foldr insert_desc [] l.

Definition max_score (events : list string) (R : catalogue) (lb : Qc)
  : option Qc :=
  match events with
  | [] => Some 0%Qc
  | _ =>
      match event_scores events R lb with
      | None => None
      | Some event_score =>
          match sort_desc event_score with
          | [] => Some 0%Qc
          | top :: _ => Some (snd top)
          end
      end
  end.

(** [qualifies R lb e w]: rule [e] is in the catalogue with a weight [w]
    that is not null and at least the lower bound. *)
Definition qualifies (R : catalogue) (lb : Qc) (e : string) (w : Qc) : Prop :=
  exists r, R !! e = Some r /\ weight r = Some w /\ (lb <= w)%Qc.

(** The head of a list dominates every element. *)
Definition head_dominates (l : list (string * Qc)) : Prop :=
  match l with
  | [] => True
  | top :: _ => forall y, y ∈ l -> (snd y <= snd top)%Qc
  end.

(** Sample catalogue used to exercise the statements on concrete input. *)
Definition sample_rule (w : option Qc) : fuzzy_rule :=
  FuzzyRule w w 1%Qc "sample".

Definition sample_catalogue : catalogue :=
  <["FW_D1" := sample_rule (Some (Q2Qc (1 # 2)))]>
  (<["D4" := sample_rule (Some (Q2Qc (3 # 10)))]>
  (<["LENGTH_4PLUS" := sample_rule None]> ∅)).

(** ** [probabilistic_sum]  (pytheas.py, [def probabilistic_sum]) *)

(** [line_scores.count(x)] *)
Fixpoint count_score (x : Qc) (l : list Qc) : nat :=
  match l with
  | [] => O
  | y :: l' => if Qceqb y x then S (count_score x l') else count_score x l'
  end.

(** Assignment [d[k] = v] on an insertion-ordered dict: an existing key
    keeps its position and gets the new value, a new key goes last. *)
Fixpoint dict_set (k : Qc) (v : nat) (d : list (Qc * nat)) : list (Qc * nat) :=
  match d with
  | [] => [(k, v)]
  | (k', v') :: d' =>
      if Qceqb k' k then (k', v) :: d' else (k', v') :: dict_set k v d'
  end.

(** [{x: line_scores.count(x) for x in line_scores}] *)
Definition score_counts (line_scores : list Qc) : list (Qc * nat) :=
  fold_left (fun d x => dict_set x (count_score x line_scores) d)
            line_scores [].

(** [np.prod] *)
Definition np_prod (l : list Qc) : Qc := fold_left Qcmult l 1%Qc.

Definition probabilistic_sum (line_scores : list Qc) : Qc :=
  match line_scores with
  | [] => 0%Qc
  | _ =>
      let prod_list :=
        map (fun sc : Qc * nat => ((1 - fst sc) ^ snd sc)%Qc)
            (score_counts line_scores) in
      (1 - np_prod prod_list)%Qc
  end.

(** The closed form of the specification: [1 - prod (1 - s)]. *)
Definition complement_product (l : list Qc) : Qc :=
  foldr (fun s acc => ((1 - s) * acc)%Qc) 1%Qc l.

Definition probabilistic_or (l : list Qc) : Qc :=
  (1 - complement_product l)%Qc.

(** The keys of [score_counts], in order of first occurrence. *)
Fixpoint add_key (x : Qc) (ks : list Qc) : list Qc :=
  match ks with
  | [] => [x]
  | k :: ks' => if Qceqb k x then k :: ks' else k :: add_key x ks'
  end.

Definition first_occurrences (l ks : list Qc) : list Qc :=
  fold_left (fun ks x => add_key x ks) l ks.

Definition tabulate (c : Qc -> nat) (ks : list Qc) : list (Qc * nat) :=
  map (fun k => (k, c k)) ks.

(** The product of [(1 - k) ^ count k l] over a key list [ks]. *)
Definition power_product (l ks : list Qc) : Qc :=
  foldr Qcmult 1%Qc (map (fun k => ((1 - k) ^ count_score k l)%Qc) ks).

(** ** Row scoring  (pytheas.py, [def get_class_confidences]) *)

(** [data_rules_fired[row][column]] *)
Record data_cell := DataCell {
  agreements : list string;
  null_equivalent : bool;
  aggregate : bool;
  summary_strength : nat
}.

(** [not_data_rules_fired[row][column]] *)
Record not_data_cell := NotDataCell {
  disagreements : list string;
  disagreement_summary_strength : nat
}.

(** [data_rules_fired[row]]: the entries keyed by column and the ["line"]
    entry. *)
Record data_row_rules := DataRowRules {
  data_cells : gmap Z data_cell;
  data_line : list string
}.

Record not_data_row_rules := NotDataRowRules {
  not_data_cells : gmap Z not_data_cell;
  not_data_line : list string
}.

(** [model.fuzzy_rules]: the four catalogues. *)
Record fuzzy_rules := FuzzyRules {
  cell_data : catalogue;
  cell_not_data : catalogue;
  line_data : catalogue;
  line_not_data : catalogue
}.

(** The options of [model.parameters] read by the scorer. *)
Record parameters := Parameters {
  impute_nulls : bool;
  summary_population_factor : bool;
  weight_input : string;
  weight_lower_bound : Qc;
  not_data_weight_lower_bound : Qc;
  p : Qc;
  max_attributes : option nat;
  ignore_left : option nat
}.

(** [row in data_line_confidences.keys() and
     data_line_confidences[row] > not_data_line_confidences[row]] *)
Definition classified_data (dlc ndlc : gmap Z Qc) (row : Z) : option bool :=
  match dlc !! row with
  | None => Some false
  | Some dc =>
      match ndlc !! row with
      | None => None
      | Some ndc => Some (Qcltb ndc dc)
      end
  end.

(** The tail of both imputation guards for a row [row] above the candidate:
    [row in data_rules_fired.keys() and column in data_rules_fired[row].keys()
     and row in data_line_confidences.keys() and data_conf[row] > not_data_conf[row]];
    the cell of that row when the guard holds. *)
Definition imputation_source (drf : gmap Z data_row_rules)
    (dlc ndlc : gmap Z Qc) (row column_index : Z) : option (option data_cell) :=
  match drf !! row with
  | None => Some None
  | Some r =>
      match data_cells r !! column_index with
      | None => Some None
      | Some c =>
          match classified_data dlc ndlc row with
          | None => None
          | Some true => Some (Some c)
          | Some false => Some None
          end
      end
  end.

(** The two [if] statements that choose [value_agreements] and
    [summary_strength] of a cell (lines 4284-4329). *)
Definition imputed_agreements (params : parameters)
    (drf : gmap Z data_row_rules) (dlc ndlc : gmap Z Qc)
    (row_index column_index : Z) : option (list string * nat) :=
  match drf !! row_index with
  | None => None
  | Some r =>
      match data_cells r !! column_index with
      | None => None
      | Some c =>
          let own := (agreements c, summary_strength c) in
          let first :=
            if (null_equivalent c || Nat.eqb (summary_strength c) 1)
               && impute_nulls params
            then imputation_source drf dlc ndlc (row_index - 1) column_index
            else Some None in
          let second :=
            if Nat.eqb (summary_strength c) 0 && aggregate c
            then imputation_source drf dlc ndlc (row_index - 2) column_index
            else Some None in
          match first with
          | None => None
          | Some src1 =>
              match second with
              | None => None
              | Some (Some c2) => Some (agreements c2, summary_strength c2)
              | Some None =>
                  match src1 with
                  | Some c1 => Some (agreements c1, summary_strength c1)
                  | None => Some own
                  end
              end
          end
      end
  end.

(** [POPULATION_WEIGHT = 1 - (1 - p) ** (2 * strength)] *)
Definition population_weight (params : parameters) (strength : nat) : Qc :=
  (1 - (1 - p params) ^ (2 * strength))%Qc.

Definition cell_score (params : parameters) (score : Qc) (strength : nat) : Qc :=
  if summary_population_factor params
  then (score * population_weight params strength)%Qc
  else score.

(** The loop over [column_indexes] of one row: it fills
    [candidate_row_agreements] and [candidate_row_disagreements]. *)
Fixpoint cell_evidence (params : parameters) (rules : fuzzy_rules)
    (drf : gmap Z data_row_rules) (ndrf : gmap Z not_data_row_rules)
    (dlc ndlc : gmap Z Qc) (row_index : Z) (column_indexes : list Z)
    (agr dis : list Qc) : option (list Qc * list Qc) :=
  match column_indexes with
  | [] => Some (agr, dis)
  | column_index :: rest =>
      '(value_agreements, strength) ←
          imputed_agreements params drf dlc ndlc row_index column_index;
      data_score ←
          max_score value_agreements (cell_data rules) (weight_lower_bound params);
      nd_row ← ndrf !! row_index;
      nd_cell ← not_data_cells nd_row !! column_index;
      not_data_score ←
          max_score (disagreements nd_cell) (cell_not_data rules)
                    (not_data_weight_lower_bound params);
      cell_evidence params rules drf ndrf dlc ndlc row_index rest
        (agr ++ [cell_score params data_score strength])
        (dis ++ [cell_score params not_data_score
                   (disagreement_summary_strength nd_cell)])
  end.

(** A [for] loop over rule names whose body may raise. *)
Fixpoint for_events {A : Type} (body : A -> string -> option A)
    (events : list string) (acc : A) : option A :=
  match events with
  | [] => Some acc
  | event :: rest =>
      match body acc event with
      | None => None
      | Some acc' => for_events body rest acc'
      end
  end.

(** [event[:-1] + str(int(steps) + 1)] when the last character [steps] is a
    digit in [range(2, 6)], the event itself otherwise. *)
Definition next_step (c : ascii) : ascii :=
  match c with
  | "2"%char => "3"%char
  | "3"%char => "4"%char
  | "4"%char => "5"%char
  | "5"%char => "6"%char
  | _ => c
  end.

Fixpoint next_arithmetic_event (event : string) : string :=
  match event with
  | EmptyString => EmptyString
  | String c EmptyString => String (next_step c) EmptyString
  | String c rest => String c (next_arithmetic_event rest)
  end.

(** The rule a fired line/not_data event is scored with: an
    [ADJACENT_ARITHMETIC_SEQUENCE_k] whose weight is null is replaced by its
    successor.  The subscription raises for an unknown event. *)
Definition scored_event (R : catalogue) (event : string) : option string :=
  if String.prefix "ADJACENT_ARITHMETIC_SEQUENCE" event then
    match R !! event with
    | None => None
    | Some r =>
        match weight r with
        | None => Some (next_arithmetic_event event)
        | Some _ => Some event
        end
    end
  else Some event.

(** Body of the loop over [not_data_line_rules_fired] (lines 4383-4404). *)
Definition not_data_line_step (R : catalogue) (lb : Qc) (before_data : bool)
    (evidence : list Qc) (event : string) : option (list Qc) :=
  if String.eqb event "UP_TO_FIRST_COLUMN_COMPLETE_CONSISTENTLY"
     && negb before_data
  then Some evidence
  else
    match scored_event R event with
    | None => None
    | Some event' =>
        match R !! event' with
        | None => Some evidence
        | Some r =>
            match weight r with
            | None => Some evidence
            | Some w =>
                if Qcltb lb w then Some (evidence ++ [w]) else Some evidence
            end
        end
    end.

(** Body of the loop over [line_is_data_events] (lines 4410-4418). *)
Definition data_line_step (R : catalogue) (lb : Qc)
    (evidence : list Qc) (rule : string) : option (list Qc) :=
  match R !! rule with
  | None => None
  | Some r =>
      match weight r with
      | None => Some evidence
      | Some w => if Qcltb lb w then Some (evidence ++ [w]) else Some evidence
      end
  end.

(** [line_not_data_evidence] of a row (lines 4373-4404); [n_columns] is
    [file_dataframe_trimmed.shape[1]]. *)
Definition line_not_data_evidence (params : parameters) (rules : fuzzy_rules)
    (n_columns : nat) (before_data : bool)
    (candidate_row_disagreements : list Qc) (fired : list string)
  : option (list Qc) :=
  if String.eqb (weight_input params) "values_and_lines" then
    if (1 <? n_columns)%nat then
      for_events
        (not_data_line_step (line_not_data rules)
           (not_data_weight_lower_bound params) before_data)
        fired candidate_row_disagreements
    else Some candidate_row_disagreements
  else Some candidate_row_disagreements.

(** [line_is_data_evidence] of a row (lines 4407-4418). *)
Definition line_is_data_evidence (params : parameters) (rules : fuzzy_rules)
    (candidate_row_agreements : list Qc) (fired : list string)
  : option (list Qc) :=
  if String.eqb (weight_input params) "values_and_lines" then
    for_events (data_line_step (line_data rules) (weight_lower_bound params))
      fired candidate_row_agreements
  else Some candidate_row_agreements.

(** The state carried from row to row. *)
Record confidences := Confidences {
  data_line_confidences : gmap Z Qc;
  not_data_line_confidences : gmap Z Qc;
  before_data : bool
}.

(** One iteration of [for row_index in file_dataframe_trimmed.index]. *)
Definition score_row (params : parameters) (rules : fuzzy_rules)
    (drf : gmap Z data_row_rules) (ndrf : gmap Z not_data_row_rules)
    (column_indexes : list Z) (st : confidences) (row_index : Z)
  : option confidences :=
  let dlc := data_line_confidences st in
  let ndlc := not_data_line_confidences st in
  '(agr, dis) ← cell_evidence params rules drf ndrf dlc ndlc row_index
                  column_indexes [] [];
  before ←
    (if String.eqb (weight_input params) "values_and_lines" then
       prior ← classified_data dlc ndlc (row_index - 1);
       Some (if prior : bool then false else before_data st)
     else Some (before_data st));
  nd_fired ←
    (if String.eqb (weight_input params) "values_and_lines"
        && (1 <? length column_indexes)%nat
     then not_data_line <$> ndrf !! row_index else Some []);
  nd_evidence ← line_not_data_evidence params rules (length column_indexes)
                   before dis nd_fired;
  d_fired ←
    (if String.eqb (weight_input params) "values_and_lines"
     then data_line <$> drf !! row_index else Some []);
  d_evidence ← line_is_data_evidence params rules agr d_fired;
  Some (Confidences
          (<[row_index := probabilistic_sum d_evidence]> dlc)
          (<[row_index := probabilistic_sum nd_evidence]> ndlc)
          before).

Fixpoint score_rows (params : parameters) (rules : fuzzy_rules)
    (drf : gmap Z data_row_rules) (ndrf : gmap Z not_data_row_rules)
    (column_indexes : list Z) (index : list Z) (st : confidences)
  : option confidences :=
  match index with
  | [] => Some st
  | row_index :: rest =>
      match score_row params rules drf ndrf column_indexes st row_index with
      | None => None
      | Some st' => score_rows params rules drf ndrf column_indexes rest st'
      end
  end.

(** [get_class_confidences]: the two confidence maps over the rows [index]
    and columns [column_indexes] of the frame.  [index[0]] raises on an
    empty frame. *)
Definition get_class_confidences (index column_indexes : list Z)
    (drf : gmap Z data_row_rules) (ndrf : gmap Z not_data_row_rules)
    (rules : fuzzy_rules) (params : parameters)
  : option (gmap Z Qc * gmap Z Qc) :=
  match index with
  | [] => None
  | _ =>
      st ← score_rows params rules drf ndrf column_indexes index
             (Confidences ∅ ∅ true);
      Some (data_line_confidences st, not_data_line_confidences st)
  end.

(** *** Reference statements for row scoring *)

(** Row [row] was classified data: it has been scored in this scan and its
    data confidence exceeds its not-data confidence. *)
Definition classified_as_data (dlc ndlc : gmap Z Qc) (row : Z) : Prop :=
  exists dc ndc, dlc !! row = Some dc /\ ndlc !! row = Some ndc /\ (ndc < dc)%Qc.

(** [c'] is the cell of column [column_index] in row [row], and that row was
    classified data. *)
Definition usable_source (drf : gmap Z data_row_rules) (dlc ndlc : gmap Z Qc)
    (row column_index : Z) (c' : data_cell) : Prop :=
  (exists r', drf !! row = Some r' /\ data_cells r' !! column_index = Some c')
  /\ classified_as_data dlc ndlc row.

(** A cell as [collect_dataframe_rules] emits it.  The window whose
    non-empty patterns [summary_strength] counts starts at the row of the
    cell itself (lines 4656-4695 and 3753-3755), so a strength of [0] means
    that the pattern of the cell is empty: its value is empty, which is
    null-equivalent, and has no token that could be an aggregation token
    (lines 4619-4626). *)
Definition emitted_cell (c : data_cell) : Prop :=
  summary_strength c = 0%nat ->
  null_equivalent c = true /\ aggregate c = false.

(** The row is an aggregation row: one of its cells carries the aggregate
    flag. *)
Definition aggregation_row (r : data_row_rules) : Prop :=
  exists column_index c,
    data_cells r !! column_index = Some c /\ aggregate c = true.

(** The weight a fired line rule [e] adds to the evidence: its weight when
    that is not null and strictly above the bound. *)
Definition appended_weight (R : catalogue) (lb : Qc) (e : string) : option Qc :=
  match R !! e with
  | Some r =>
      match weight r with
      | Some w => if Qcltb lb w then Some w else None
      | None => None
      end
  | None => None
  end.

(** The same for a fired line/not_data event: nothing for
    [UP_TO_FIRST_COLUMN_COMPLETE_CONSISTENTLY] once a data row was seen, and
    an arithmetic-sequence event with a null weight counts as its successor. *)
Definition not_data_appended_weight (R : catalogue) (lb : Qc)
    (before_data : bool) (e : string) : option Qc :=
  if String.eqb e "UP_TO_FIRST_COLUMN_COMPLETE_CONSISTENTLY" && negb before_data
  then None
  else match scored_event R e with
       | Some e' => appended_weight R lb e'
       | None => None
       end.

(** The range of the learned weights: [train_rules] computes a weight as
    the difference of two fractions of one total, so it is at most [1]. *)
Definition weights_at_most_one (R : catalogue) : Prop :=
  forall e r w, R !! e = Some r -> weight r = Some w -> (w <= 1)%Qc.

Definition at_most_one (l : list Qc) : Prop := Forall (fun x => (x <= 1)%Qc) l.

(** Sample inputs. *)
Definition sample_parameters : parameters :=
  Parameters true true "values_and_lines" (Q2Qc (2 # 5)) (Q2Qc (3 # 5))
             (Q2Qc (3 # 10)) (Some 20%nat) (Some 4%nat).

Definition sample_line_catalogue : catalogue :=
  <["CONSISTENTLY_UPPER_CASE" := sample_rule (Some (Q2Qc (3 # 5)))]>
  (<["ADJACENT_ARITHMETIC_SEQUENCE_2" := sample_rule None]>
  (<["ADJACENT_ARITHMETIC_SEQUENCE_3" := sample_rule (Some (Q2Qc (9 # 10)))]>
  (<["ONE_NULL_EQUIVALENT_ON_LINE" := sample_rule (Some (Q2Qc (2 # 5)))]> ∅))).

Definition sample_rules : fuzzy_rules :=
  FuzzyRules sample_catalogue sample_catalogue
             sample_line_catalogue sample_line_catalogue.

Definition sample_cell (agr : list string) (strength : nat) : data_cell :=
  DataCell agr false false strength.

(** Two scored rows of one column: row 4 has three non-empty patterns below
    it, row 5 is the last non-empty cell of the column. *)
Definition sample_data_rules (strength5 : nat) : gmap Z data_row_rules :=
  <[4 := DataRowRules (<[0 := sample_cell ["FW_D1"] 3]> ∅) []]>
  (<[5 := DataRowRules (<[0 := sample_cell [] strength5]> ∅) []]> ∅).

(** The last three rows of a grid of three columns, as the rule collector
    emits them: rows 3 and 4 hold data, row 5 is the last row, a total whose
    first cell holds the aggregation token, whose second cell is empty and
    whose third cell holds a number.  Rows 3 and 4 have been scored as
    data. *)
Definition sample_total_rules : gmap Z data_row_rules :=
  <[3 := DataRowRules (<[0 := DataCell ["FW_D1"] false false 3]>
                       (<[1 := DataCell ["FW_D1"] false false 2]>
                       (<[2 := DataCell ["D3"] false false 3]> ∅))) []]>
  (<[4 := DataRowRules (<[0 := DataCell ["FW_D1"] false false 2]>
                        (<[1 := DataCell ["D4"] false false 1]>
                        (<[2 := DataCell ["D3"] false false 2]> ∅))) []]>
  (<[5 := DataRowRules (<[0 := DataCell [] false true 1]>
                        (<[1 := DataCell [] true false 0]>
                        (<[2 := DataCell [] false false 1]> ∅))) []]> ∅)).

Definition sample_total_row : data_row_rules :=
  DataRowRules (<[0 := DataCell [] false true 1]>
                (<[1 := DataCell [] true false 0]>
                (<[2 := DataCell [] false false 1]> ∅))) [].

Definition sample_total_dlc : gmap Z Qc :=
  <[3 := Q2Qc (1 # 2)]> (<[4 := Q2Qc (1 # 2)]> ∅).

Definition sample_total_ndlc : gmap Z Qc := <[3 := 0%Qc]> (<[4 := 0%Qc]> ∅).

(** ** The grid *)

(** A cell of the data frame: a string, or pandas' missing value. *)
Inductive cell := Str (s : string) | NaN.

(** [str(elem)] *)
Definition str (c : cell) : string :=
  match c with
  | Str s => s
  | NaN => "nan"
  end.

(** [elem.isnull()] *)
Definition isnull (c : cell) : bool :=
  match c with
  | Str _ => false
  | NaN => true
  end.

(** [str.lower()], on the ASCII letters. *)
Definition lower_char (c : ascii) : ascii :=
  let n := nat_of_ascii c in
  if ((65 <=? n) && (n <=? 90))%nat then ascii_of_nat (n + 32) else c.

Fixpoint lower (s : string) : string :=
  match s with
  | EmptyString => EmptyString
  | String c rest => String (lower_char c) (lower rest)
  end.

(** [s.endswith(c)] for a one-character suffix and [s[:-1]]. *)
Fixpoint ends_with_char (c : ascii) (s : string) : bool :=
  match s with
  | EmptyString => false
  | String d EmptyString => Ascii.eqb c d
  | String _ rest => ends_with_char c rest
  end.

Fixpoint drop_last (s : string) : string :=
  match s with
  | EmptyString => EmptyString
  | String _ EmptyString => EmptyString
  | String c rest => String c (drop_last rest)
  end.

(** [s[i]] for an index known to be in range. *)
Definition char_at (s : string) (i : nat) : ascii :=
  match String.get i s with
  | Some c => c
  | None => Ascii.zero
  end.

(** [c in s] for a character [c]. *)
Fixpoint contains_char (c : ascii) (s : string) : bool :=
  match s with
  | EmptyString => false
  | String d rest => Ascii.eqb c d || contains_char c rest
  end.

(** [c.isdigit()], on the ASCII digits. *)
Definition is_digit (c : ascii) : bool :=
  let n := nat_of_ascii c in ((48 <=? n) && (n <=? 57))%nat.

Definition string_in (s : string) (l : list string) : bool :=
  existsb (String.eqb s) l.

(** [",".join(line.apply(str).tolist())] *)
Definition join_row (line : list cell) : string :=
  String.concat "," (map str line).

(** [non_empty_values(df_row)]: the number of cells up to the last valid
    one, the whole row when no cell is valid. *)
Fixpoint last_valid_position (line : list cell) (pos : nat) (found : option nat)
  : option nat :=
  match line with
  | [] => found
  | c :: rest =>
      last_valid_position rest (S pos) (if isnull c then found else Some pos)
  end.

Definition non_empty_values (line : list cell) : nat :=
  match last_valid_position line 0 None with
  | Some pos => S pos
  | None => length line
  end.

(** [max(certain_data_widths)] of a non-empty list. *)
Definition max_width (widths : list nat) : nat := foldr Nat.max 0%nat widths.

(** A data frame with its column labels and its rows, each with its index
    label.  The index of a frame read from a file is increasing. *)
Record data_frame := DataFrame {
  columns : list Z;
  rows : list (Z * list cell)
}.

(** [df.loc[label:]] on an increasing index. *)
Definition loc_from (label : Z) (df : data_frame) : data_frame :=
  DataFrame (columns df) (filter (fun row => label <= row.1) (rows df)).

(** [df.iloc[:, :n]] *)
Definition iloc_columns (n : nat) (df : data_frame) : data_frame :=
  DataFrame (take n (columns df)) (map (fun row => (row.1, take n row.2)) (rows df)).

(** ** The top-down walk  (pytheas.py, [def predict_last_data_line_top_down]) *)

(** The values of the walk that do not change from row to row. *)
Record walk_context := WalkContext {
  ctx_parameters : parameters;
  ctx_rules : fuzzy_rules;
  predicted_fdl : Z;
  data_confidence : gmap Z Qc;
  not_data_confidence : gmap Z Qc;
  predicted_pat_sub_headers : list Z;
  aggregation_rows : list Z;
  blank_lines : list Z;
  headers_discovered : list string;
  dataframe : data_frame;
  downwards_data_rules_fired : gmap Z data_row_rules;
  downwards_not_data_rules_fired : gmap Z not_data_row_rules
}.

(** [first_value]: the first cell in lower case without surrounding double
    quotes. *)
Definition double_quote : ascii := ascii_of_nat 34.

Definition strip_quotes (s : string) : string :=
  if String.prefix (String double_quote EmptyString) s
     && ends_with_char double_quote s
  then drop_last (match s with
                  | EmptyString => EmptyString
                  | String _ rest => rest
                  end)
  else s.

Definition null_text (s : string) : bool :=
  string_in (lower s) [""; "none"; "nan"].

(** [len(first_value) > 5 and (first_value[0] == "1" or first_value[0] == "a")
     and first_value[1] in [" ", ".", "/", ")", "]", ":"]] *)
Definition enumerated_marker (first_value : string) : bool :=
  (5 <? String.length first_value)%nat
  && (Ascii.eqb (char_at first_value 0) "1" || Ascii.eqb (char_at first_value 0) "a")
  && existsb (Ascii.eqb (char_at first_value 1))
       [" "; "."; "/"; ")"; "]"; ":"]%char.

(** [len(first_value) > 5 and first_value[0] == "(" and ... and
     first_value[2] == ")"]; the middle test differs between the two uses. *)
Definition bracketed_marker (middle : ascii -> bool) (first_value : string) : bool :=
  (5 <? String.length first_value)%nat
  && Ascii.eqb (char_at first_value 0) "("
  && middle (char_at first_value 1)
  && Ascii.eqb (char_at first_value 2) ")".

(** The payload test of lines 3448-3475: the first cell holds text and the
    cells from the second, or from the third, on are all empty. *)
Definition only_leading_text (row_values : list string) : bool :=
  match row_values with
  | [] => false
  | v0 :: rest =>
      negb (null_text v0)
      && (((0 <? length rest)%nat && forallb null_text rest)
          || ((1 <? length rest)%nat && forallb null_text (tl rest)))
  end.

(** [candidate_data]: the rows from the first data line on, cut to the
    first [min(max_attributes + ignore_left, n_columns) + 1] columns. *)
Definition candidate_data (ctx : walk_context) : data_frame :=
  let from_fdl := loc_from (predicted_fdl ctx) (dataframe ctx) in
  match max_attributes (ctx_parameters ctx) with
  | None => from_fdl
  | Some attributes =>
      let limit :=
        match ignore_left (ctx_parameters ctx) with
        | None => attributes
        | Some ignored => (attributes + ignored)%nat
        end in
      iloc_columns (S (Nat.min limit (length (columns from_fdl)))) from_fdl
  end.

Definition candidate_columns (ctx : walk_context) : list Z :=
  columns (candidate_data ctx).

Section LastDataLine.

(** [pat_util.footnote_keywords], a table of the absent module. *)
Variable footnote_keywords : list string.

(** [predict_line_label] of [table_classifier_utilities] and the
    ["label"] entry of its result. *)
Variable prediction : Type.
Variable predict_line_label : Qc -> Qc -> prediction.
Variable label : prediction -> string.

(** The [Patterns] object and [collect_line_rules]: from the first data
    line, the candidate row and the number of rows accepted so far, the
    cell rules fired on the candidate row, by column. *)
Variable patterns : Type.
Variable collect_line_rules :
  patterns -> Z -> Z -> nat ->
  option (gmap Z data_cell * gmap Z not_data_cell * patterns).

Variable ctx : walk_context.

Definition footnote_keyword_found (first_value : string) : bool :=
  existsb (fun footnote_keyword => String.prefix footnote_keyword first_value)
          footnote_keywords.

(** Footnote test on a predicted subheader (lines 3422-3440). *)
Definition subheader_footnote (first_value : string) : bool :=
  footnote_keyword_found first_value
  || enumerated_marker first_value
  || bracketed_marker (fun c => is_digit c || Ascii.eqb c "a") first_value.

(** Footnote tests on a row with text in its leading cells only
    (lines 3479-3506). *)
Definition payload_footnote (first_value : string) (row_values : list string)
  : bool :=
  footnote_keyword_found first_value
  || contains_char "=" first_value
  || enumerated_marker first_value
  || bracketed_marker (fun c => Ascii.eqb c "1" || Ascii.eqb c "a") first_value
  || (String.prefix "(" first_value
      && (1 <? length row_values)%nat
      && forallb (String.eqb "nan") (tl row_values)).

Record walk_state := WalkState {
  line_counter : nat;
  data_index : list Z;
  certain_data_widths : list nat;
  predicted_ldl : Z;
  probation : list Z;
  walk_patterns : patterns;
  data_predictions : gmap Z prediction
}.

Inductive control := Continue (st : walk_state) | Break (st : walk_state).

Definition record_prediction (st : walk_state) (line_label : Z)
    (data_conf not_data_conf : Qc) : walk_state :=
  WalkState (line_counter st) (data_index st) (certain_data_widths st)
    (predicted_ldl st) (probation st) (walk_patterns st)
    (<[line_label := predict_line_label data_conf not_data_conf]>
       (data_predictions st)).

(** The row joins the data: [data], [certain_data_widths] and
    [predicted_ldl] are updated. *)
Definition accept_row (st : walk_state) (line_label : Z) (line : list cell)
  : walk_state :=
  WalkState (line_counter st) (line_label :: data_index st)
    (certain_data_widths st ++ [non_empty_values line])
    line_label (probation st) (walk_patterns st) (data_predictions st).

(** The loop over the columns of the candidate row (lines 3558-3604). *)
Fixpoint walk_cell_evidence (agreements_of : gmap Z data_cell)
    (disagreements_of : gmap Z not_data_cell) (columns : list Z)
    (agr dis : list Qc) : option (list Qc * list Qc) :=
  match columns with
  | [] => Some (agr, dis)
  | column :: rest =>
      d_cell ← agreements_of !! column;
      data_score ←
        max_score (agreements d_cell) (cell_data (ctx_rules ctx))
                  (weight_lower_bound (ctx_parameters ctx));
      nd_cell ← disagreements_of !! column;
      not_data_score ←
        max_score (disagreements nd_cell) (cell_not_data (ctx_rules ctx))
                  (not_data_weight_lower_bound (ctx_parameters ctx));
      walk_cell_evidence agreements_of disagreements_of rest
        (agr ++ [cell_score (ctx_parameters ctx) data_score
                   (summary_strength d_cell)])
        (dis ++ [cell_score (ctx_parameters ctx) not_data_score
                   (disagreement_summary_strength nd_cell)])
  end.

(** [data_conf] and [not_data_conf] of a scored row (lines 3541-3657),
    with the new [Patterns] object. *)
Definition walk_confidences (st : walk_state) (line_label : Z)
  : option (Qc * Qc * patterns) :=
  '(agreements_of, disagreements_of, patterns') ←
      collect_line_rules (walk_patterns st) (predicted_fdl ctx) line_label
                         (length (data_index st));
  '(agr, dis) ← walk_cell_evidence agreements_of disagreements_of
                   (candidate_columns ctx) [] [];
  nd_fired ←
    (if String.eqb (weight_input (ctx_parameters ctx)) "values_and_lines"
        && (1 <? length (candidate_columns ctx))%nat
     then not_data_line <$> downwards_not_data_rules_fired ctx !! line_label
     else Some []);
  nd_evidence ←
    line_not_data_evidence (ctx_parameters ctx) (ctx_rules ctx)
      (length (candidate_columns ctx)) false dis nd_fired;
  d_fired ←
    (if String.eqb (weight_input (ctx_parameters ctx)) "values_and_lines"
     then data_line <$> downwards_data_rules_fired ctx !! line_label
     else Some []);
  d_evidence ←
    line_is_data_evidence (ctx_parameters ctx) (ctx_rules ctx) agr d_fired;
  Some (probabilistic_sum d_evidence, probabilistic_sum nd_evidence, patterns').

(** The label given to a scored row (lines 3660-3686). *)
Inductive verdict := IsData | OnProbation | NotData.

Definition classify_scored_row (st : walk_state) (line_label : Z)
    (line : list cell) (data_conf not_data_conf : Qc) : option verdict :=
  if Qcltb 0 data_conf && Qcleb not_data_conf data_conf then Some IsData
  else if (0 <? length (certain_data_widths st))%nat
          && Nat.eqb (non_empty_values line) (max_width (certain_data_widths st))
          && bool_decide (line_label - 1 ∈ data_index st)
  then Some IsData
  else
    fdl_data_conf ← data_confidence ctx !! line_label;
    fdl_not_data_conf ← not_data_confidence ctx !! line_label;
    let prediction := predict_line_label fdl_data_conf fdl_not_data_conf in
    if negb (bool_decide (line_label - 1 ∈ probation st))
       && negb (bool_decide (line_label - 1 ∈ blank_lines ctx))
       && Qcltb data_conf not_data_conf
       && negb (String.eqb (label prediction) "DATA")
    then Some OnProbation
    else if (Qcltb 0 data_conf && Qcleb not_data_conf data_conf)
            || (negb (bool_decide (line_label - 1 ∈ probation st))
                && String.eqb (label prediction) "DATA")
    then Some IsData
    else Some NotData.

Definition set_patterns (st : walk_state) (patterns' : patterns) : walk_state :=
  WalkState (line_counter st) (data_index st) (certain_data_widths st)
    (predicted_ldl st) (probation st) patterns' (data_predictions st).

Definition put_on_probation (st : walk_state) (line_label : Z) : walk_state :=
  WalkState (line_counter st) (data_index st) (certain_data_widths st)
    (predicted_ldl st) (probation st ++ [line_label]) (walk_patterns st)
    (data_predictions st).

Definition count_line (st : walk_state) : walk_state :=
  WalkState (S (line_counter st)) (data_index st) (certain_data_widths st)
    (predicted_ldl st) (probation st) (walk_patterns st) (data_predictions st).

(** The end of the loop body (lines 3691-3708) for a row whose verdict is
    known: a row on probation is skipped, a data row is accepted, any other
    row ends the walk. *)
Definition conclude_row (st : walk_state) (line_label : Z) (line : list cell)
    (is_data : bool) (data_conf not_data_conf : Qc) : control :=
  if bool_decide (line_label ∈ probation st)
  then Continue (record_prediction st line_label data_conf not_data_conf)
  else if is_data
  then Continue (record_prediction (accept_row st line_label line)
                   line_label data_conf not_data_conf)
  else Break st.

(** One iteration of [for line_label, line in candidate_data.iterrows()].
    [certain_data] stays empty during the walk, so the test of line 3417
    never holds and is left out. *)
Definition walk_step (st0 : walk_state) (row : Z * list cell) : option control :=
  let line_label := row.1 in
  let line := row.2 in
  let st := count_line st0 in
  let row_values := map str line in
  match row_values with
  | [] => None
  | v0 :: _ =>
      let first_value := strip_quotes (lower v0) in
      if bool_decide (line_label ∈ blank_lines ctx) then Some (Break st)
      else
        let is_subheader :=
          bool_decide (line_label ∈ predicted_pat_sub_headers ctx) in
        let footnote_found := is_subheader && subheader_footnote first_value in
        let not_data_conf := if footnote_found then 1%Qc else 0%Qc in
        if is_subheader && negb footnote_found
        then Some (Continue (record_prediction st line_label 0 1))
        else if only_leading_text row_values
                && (footnote_found || payload_footnote first_value row_values)
        then Some (Break (record_prediction st line_label 0 1))
        else if (line_counter st <=? 3)%nat
                || bool_decide (line_label ∈ aggregation_rows ctx)
        then Some (Continue (record_prediction (accept_row st line_label line)
                               line_label 1 not_data_conf))
        else if forallb isnull line
        then Some (Continue (record_prediction st line_label 0 not_data_conf))
        else if string_in (join_row line) (headers_discovered ctx)
        then Some (conclude_row st line_label line false 0 not_data_conf)
        else
          '(data_conf, not_data_conf, patterns') ← walk_confidences st line_label;
          let st := set_patterns st patterns' in
          verdict ← classify_scored_row st line_label line data_conf not_data_conf;
          match verdict with
          | IsData =>
              Some (conclude_row st line_label line true data_conf not_data_conf)
          | OnProbation =>
              Some (conclude_row (put_on_probation st line_label) line_label
                      line false data_conf not_data_conf)
          | NotData =>
              Some (conclude_row st line_label line false data_conf not_data_conf)
          end
  end.

Fixpoint walk (candidate_rows : list (Z * list cell)) (st : walk_state)
  : option walk_state :=
  match candidate_rows with
  | [] => Some st
  | row :: rest =>
      match walk_step st row with
      | None => None
      | Some (Break st') => Some st'
      | Some (Continue st') => walk rest st'
      end
  end.

(** *** Reference statements for the walk *)

(** The step accepted row [line_label] as data: the walk goes on with the
    row as the new last data line and as the newest row of [data]. *)
Definition accepted (st : walk_state) (line_label : Z) (c : control) : Prop :=
  exists st', c = Continue st'
              /\ predicted_ldl st' = line_label
              /\ data_index st' = line_label :: data_index st.

(** The three ways a scored row becomes data: its scores, its width next
    to an accepted row just above, or its label from the first-data-line
    search. *)
Definition acceptance_condition (st : walk_state) (line_label : Z)
    (line : list cell) (data_conf not_data_conf : Qc) : Prop :=
  ((0 < data_conf)%Qc /\ (not_data_conf <= data_conf)%Qc)
  \/ (certain_data_widths st <> []
      /\ non_empty_values line = max_width (certain_data_widths st)
      /\ (line_label - 1 ∈ data_index st))
  \/ ((line_label - 1 ∉ probation st)
      /\ exists fdl_data_conf fdl_not_data_conf,
           data_confidence ctx !! line_label = Some fdl_data_conf
           /\ not_data_confidence ctx !! line_label = Some fdl_not_data_conf
           /\ label (predict_line_label fdl_data_conf fdl_not_data_conf)
              = "DATA").

(** The state a step leaves behind. *)
Definition state_of (c : control) : walk_state :=
  match c with
  | Continue st => st
  | Break st => st
  end.

(** What a step may do to the last data line and to [data]: nothing, or
    take the row of the step, which then is not a blank line. *)
Definition keeps_or_takes (st st' : walk_state) (line_label : Z) : Prop :=
  (predicted_ldl st' = predicted_ldl st /\ data_index st' = data_index st)
  \/ (predicted_ldl st' = line_label
      /\ data_index st' = line_label :: data_index st
      /\ line_label ∉ blank_lines ctx).

(** [first_value] of a row. *)
Definition first_value_of (line : list cell) : string :=
  match line with
  | [] => EmptyString
  | c :: _ => strip_quotes (lower (str c))
  end.

(** The row ends the walk as a footnote (lines 3448-3515). *)
Definition footnote_row (line_label : Z) (line : list cell) : bool :=
  only_leading_text (map str line)
  && ((bool_decide (line_label ∈ predicted_pat_sub_headers ctx)
       && subheader_footnote (first_value_of line))
      || payload_footnote (first_value_of line) (map str line)).

(** The row is passed over as a promoted subheader (lines 3422-3446). *)
Definition subheader_row (line_label : Z) (line : list cell) : bool :=
  bool_decide (line_label ∈ predicted_pat_sub_headers ctx)
  && negb (subheader_footnote (first_value_of line)).

(** [Patterns()] and [last_data_line_confidence] of the absent module. *)
Variable new_patterns : patterns.
Variable boundary_confidence : Type.
Variable last_data_line_confidence : gmap Z prediction -> Z -> boundary_confidence.

Definition initial_walk_state : walk_state :=
  WalkState 0 [] [] (predicted_fdl ctx) [] new_patterns ∅.

Definition predict_last_data_line_top_down : option (Z * boundary_confidence) :=
  st ← walk (rows (candidate_data ctx)) initial_walk_state;
  Some (predicted_ldl st,
        last_data_line_confidence (data_predictions st) (predicted_ldl st)).

End LastDataLine.

Arguments WalkState {prediction patterns}.
Arguments line_counter {prediction patterns}.
Arguments data_index {prediction patterns}.
Arguments certain_data_widths {prediction patterns}.
Arguments predicted_ldl {prediction patterns}.
Arguments probation {prediction patterns}.
Arguments walk_patterns {prediction patterns}.
Arguments data_predictions {prediction patterns}.
Arguments Continue {prediction patterns}.
Arguments Break {prediction patterns}.
Arguments record_prediction {prediction} predict_line_label {patterns}.
Arguments accept_row {prediction patterns}.
Arguments set_patterns {prediction patterns}.
Arguments put_on_probation {prediction patterns}.
Arguments count_line {prediction patterns}.
Arguments conclude_row {prediction} predict_line_label {patterns}.
Arguments classify_scored_row {prediction} predict_line_label label {patterns}.
Arguments walk_confidences {prediction patterns}.
Arguments walk_step footnote_keywords {prediction} predict_line_label label
  {patterns} collect_line_rules ctx st0 row.
Arguments walk footnote_keywords {prediction} predict_line_label label
  {patterns} collect_line_rules ctx candidate_rows st.
Arguments initial_walk_state {prediction patterns}.
Arguments predict_last_data_line_top_down footnote_keywords {prediction}
  predict_line_label label {patterns} collect_line_rules ctx new_patterns
  {boundary_confidence} last_data_line_confidence.
Arguments accepted {prediction patterns}.
Arguments state_of {prediction patterns}.
Arguments keeps_or_takes {prediction patterns}.
Arguments acceptance_condition {prediction} predict_line_label label {patterns}.

(** *** Sample inputs for the walk

    A two-column grid of four data rows, a blank row and one more row; the
    absent helpers are replaced by simple stand-ins. *)
Definition sample_footnote_keywords : list string := ["note"; "source"].

Definition sample_predict_line_label (data_conf not_data_conf : Qc) : string :=
  if Qcltb not_data_conf data_conf then "DATA" else "NOT_DATA".

Definition sample_collect_line_rules (_ : unit) (_ _ : Z) (_ : nat)
  : option (gmap Z data_cell * gmap Z not_data_cell * unit) :=
  Some (<[0 := sample_cell ["FW_D1"] 3]> (<[1 := sample_cell ["FW_D1"] 3]> ∅),
        <[0 := NotDataCell [] 3]> (<[1 := NotDataCell [] 3]> ∅),
        tt).

Definition sample_frame : data_frame :=
  DataFrame [0; 1]
    [ (0, [Str "alice"; Str "30"]);
      (1, [Str "bob"; Str "40"]);
      (2, [Str "carol"; Str "25"]);
      (3, [Str "dave"; Str "52"]);
      (4, [NaN; NaN]);
      (5, [Str "erin"; Str "35"]) ].

Definition sample_walk_context (fdl : Z) : walk_context :=
  WalkContext sample_parameters sample_rules fdl
    (list_to_map (map (fun l => (l, Q2Qc (9 # 10))) [0; 1; 2; 3; 5]))
    (list_to_map (map (fun l => (l, Q2Qc (1 # 10))) [0; 1; 2; 3; 5]))
    [] [] [4] ["name,age"] sample_frame
    (list_to_map (map (fun l => (l, DataRowRules ∅ [])) [0; 1; 2; 3; 4; 5]))
    (list_to_map (map (fun l => (l, NotDataRowRules ∅ [])) [0; 1; 2; 3; 4; 5])).

(** The state of the walk after the first three rows of [sample_frame]. *)
Definition sample_walk_state : walk_state string unit :=
  WalkState 3 [2; 1; 0] [2; 2; 2]%nat 2 [] tt ∅.

(** The scores of row 3 of [sample_frame]: both cells agree with the data
    pattern (rule [FW_D1]) and no not-data rule fires. *)
Definition sample_data_conf : Qc :=
  probabilistic_sum [cell_score sample_parameters (Q2Qc (1 # 2)) 3;
                     cell_score sample_parameters (Q2Qc (1 # 2)) 3].

Definition sample_not_data_conf : Qc :=
  probabilistic_sum [cell_score sample_parameters 0 3;
                     cell_score sample_parameters 0 3].

(** ** Incremental context summaries  (pytheas.py, [class Patterns]) *)

(** The signatures of one cell in one column of a [TableSignatures] slice.
    A train is a sequence of (character class, run length) pairs. *)
Record cell_signatures := CellSignatures {
  all_normalized_values : string;
  train_normalized_numbers : list (string * nat);
  all_column_bw_train : list (string * nat);
  all_column_symbols : list string;
  symbolset_normalized_numbers : list string;
  all_column_cases : string;
  all_column_character_lengths : nat;
  all_column_isnumber : bool
}.

Module Patterns.
Section Summaries.

(** The summaries computed by the absent module [pat_utilities], batch
    and incremental. *)
Variables pattern_summary symbol_summary case_summary length_summary : Type.
Variable generate_pattern_summary : list (list (string * nat)) -> pattern_summary.
Variable generate_symbol_summary : list (list string) -> symbol_summary.
Variable generate_case_summary : list string -> case_summary.
Variable generate_length_summary : list nat -> length_summary.
Variable train_incremental_pattern :
  pattern_summary -> list (string * nat) -> pattern_summary.
Variable symbolset_incremental_pattern :
  symbol_summary -> list string -> symbol_summary.
Variable case_incremental_pattern : case_summary -> string -> case_summary.
Variable charlength_incremental_pattern : length_summary -> nat -> length_summary.

(** [self.not_data[column_index]]; the value counters [candidate_count]
    and [neighbor_count] are left out. *)
Record not_data_summary := NotDataSummary {
  train : pattern_summary;
  bw_train : pattern_summary;
  symbolset : symbol_summary;
  case : case_summary;
  character_length : length_summary;
  all_numbers : bool;
  disagreement_summary_strength : nat
}.

(** [sum(1 for x in column_trains if len(x) > 0)] *)
Definition count_non_empty (column_trains : list (list (string * nat))) : nat :=
  length (filter (fun x => (0 < length x)%nat) column_trains).

(** [not_data_initialize]: the batch summary of a window. *)
Definition not_data_initialize
    (column_trains column_bw_trains : list (list (string * nat)))
    (column_symbols : list (list string)) (column_cases : list string)
    (column_char_lengths : list nat) (column_isnumber : list bool)
  : not_data_summary :=
  NotDataSummary
    (generate_pattern_summary column_trains)
    (generate_pattern_summary column_bw_trains)
    (generate_symbol_summary column_symbols)
    (generate_case_summary column_cases)
    (generate_length_summary column_char_lengths)
    (forallb id column_isnumber)
    (count_non_empty column_trains).

(** The window [collect_line_rules] summarises for the not-data rules of a
    candidate row (lines 4125-4161): the rows of the reverse slice after
    the candidate itself. *)
Definition not_data_window_summary (signatures_slice : list cell_signatures)
  : not_data_summary :=
  let window := tl signatures_slice in
  not_data_initialize
    (map train_normalized_numbers window)
    (map all_column_bw_train window)
    (map symbolset_normalized_numbers window)
    (map all_column_cases window)
    (map all_column_character_lengths window)
    (map all_column_isnumber window).

(** [not_data_increment]: the summary extended by row [1] of the slice, the
    row that entered the window.  Line 3941 evaluates
    [disagreement_summary_strength + 1] and drops the result, so the counter
    keeps its value. *)
Definition not_data_increment (summary : not_data_summary)
    (signatures_slice : list cell_signatures) : option not_data_summary :=
  match signatures_slice with
  | _ :: last :: _ =>
      let last_train := train_normalized_numbers last in
      let last_symbol_sig := all_column_symbols last in
      let dropped :=
        if (0 <? length last_train)%nat
        then Some (disagreement_summary_strength summary + 1)%nat
        else None in
      Some (NotDataSummary
              (train_incremental_pattern (train summary) last_train)
              (train_incremental_pattern (bw_train summary)
                 (all_column_bw_train last))
              (symbolset_incremental_pattern (symbolset summary) last_symbol_sig)
              (case_incremental_pattern (case summary) (all_column_cases last))
              (charlength_incremental_pattern (character_length summary)
                 (all_column_character_lengths last))
              (if (0 <? length last_symbol_sig)%nat
               then all_numbers summary && all_column_isnumber last
               else all_numbers summary)
              (disagreement_summary_strength summary))
  | _ => None
  end.

End Summaries.
End Patterns.

(** A cell holding a three-digit number. *)
Definition sample_signatures (value : string) : cell_signatures :=
  CellSignatures value [("D", 3%nat)] [("D", 3%nat)] ["D"] ["D"] "" 3 true.

Arguments Patterns.NotDataSummary {pattern_summary symbol_summary case_summary
  length_summary}.
Arguments Patterns.train {pattern_summary symbol_summary case_summary
  length_summary}.
Arguments Patterns.all_numbers {pattern_summary symbol_summary case_summary
  length_summary}.
Arguments Patterns.disagreement_summary_strength {pattern_summary
  symbol_summary case_summary length_summary}.
Arguments Patterns.not_data_initialize {pattern_summary symbol_summary
  case_summary length_summary}.
Arguments Patterns.not_data_window_summary {pattern_summary symbol_summary
  case_summary length_summary}.
Arguments Patterns.not_data_increment {pattern_summary symbol_summary
  case_summary length_summary}.

(** ** Table records and their merging
       (pytheas.py, [extract_tables], [merge_tables], [predict_subheaders]) *)

(** [list(range(a, b))] *)
Definition range (a b : Z) : list Z := seqZ a (b - a).

(** A value of [subheader_scope]: the list of covered rows written by
    [predict_subheaders], or the empty [dict()] written by [merge_tables]. *)
Inductive scope := ScopeRows (covered : list Z) | EmptyDict.

Definition scope_rows (s : scope) : list Z :=
  match s with
  | ScopeRows covered => covered
  | EmptyDict => []
  end.

(** A value of [aggregation_scope]. *)
Record aggregation := Aggregation {
  aggregation_value : string;
  aggregation_function : string;
  aggregation_phrase : string;
  aggregation_label : string
}.

(** The table record, without its [columns] and [fdl_confidence] entries,
    which the code below never reads or writes. *)
Record table := Table {
  top_boundary : Z;
  bottom_boundary : Z;
  data_start : Z;
  data_end : Z;
  data_end_confidence : Qc;
  header : list Z;
  footnotes : list Z;
  subheader_scope : gmap Z scope;
  aggregation_scope : gmap Z aggregation
}.

(** [list(set(range(top_boundary, data_start)) - set(header))] *)
Definition rows_above_data (t : table) : list Z :=
  filter (fun r => r ∉ header t) (range (top_boundary t) (data_start t)).

(** [merge_tables]: [{**a, **b}] lets [b] win on a shared key. *)
Definition merge_tables (table_head table_tail : table) : table :=
  Table (top_boundary table_head) (bottom_boundary table_head)
    (data_start table_head) (data_end table_tail)
    (data_end_confidence table_head) (header table_head)
    (footnotes table_head)
    (foldr (fun subheader m => <[subheader := EmptyDict]> m)
       (subheader_scope table_tail ∪ subheader_scope table_head)
       (rows_above_data table_tail))
    (aggregation_scope table_tail ∪ aggregation_scope table_head).

(** The test of lines 1423-1441 on the table stored last and the table just
    discovered. *)
Definition merge_condition (blank_lines : list Z) (previous discovered : table)
  : bool :=
  forallb (fun r => bool_decide (r ∈ blank_lines ++ rows_above_data discovered))
          (range (data_end previous + 1) (data_start discovered)).

Definition set_footnotes (t : table) (rows : list Z) : table :=
  Table (top_boundary t) (bottom_boundary t) (data_start t) (data_end t)
    (data_end_confidence t) (header t) rows (subheader_scope t)
    (aggregation_scope t).

Definition set_bottom (t : table) (bottom : Z) (confidence : Qc) : table :=
  Table (top_boundary t) bottom (data_start t) (data_end t) confidence
    (header t) (footnotes t) (subheader_scope t) (aggregation_scope t).

Module Extract.
Section Loop.

(** [discover_next_table] from a file offset, with the table counter and
    the headers found so far; the row text of a header row; the number of
    rows of the frame. *)
Variable discover_next_table : Z -> Z -> gmap Z string -> option table.
Variable row_text : Z -> string.
Variable n_rows : Z.
Variable blank_lines : list Z.

Record state := State {
  discovered_tables : gmap Z table;
  table_counter : Z;
  headers_discovered : gmap Z string
}.

(** Lines 1451-1468: the table before the current one ends where the
    current one starts. *)
Definition close_previous (tables : gmap Z table) (counter : Z) (current : table)
  : gmap Z table :=
  match tables !! (counter - 1) with
  | None => tables
  | Some previous =>
      let previous :=
        match footnotes previous with
        | [] => previous
        | first :: _ =>
            set_footnotes previous (range first (top_boundary current))
        end in
      <[counter - 1 := set_bottom previous (top_boundary current - 1)
                         (data_end_confidence current)]> tables
  end.

(** Lines 1471-1486: footnotes and bottom boundary of the current table. *)
Definition close_current (current : table) : table :=
  let current :=
    if data_end current <? n_rows - 1
    then set_footnotes current (range (data_end current + 1) n_rows)
    else set_footnotes current [] in
  match last (footnotes current) with
  | Some bottom => set_bottom current bottom (data_end_confidence current)
  | None => set_bottom current (data_end current) (data_end_confidence current)
  end.

(** One pass through the body of [while discovered_table != None].  A merge
    updates the stored table in place and steps the counter back; the next
    pass stores the result under that same counter. *)
(** Lines 1402-1405: the header rows of the stored table are remembered
    by their text. *)
Definition record_headers (headers : gmap Z string) (t : table)
  : gmap Z string :=
  foldl (fun m h => <[h := row_text h]> m) headers (header t).

Definition iteration (st : state) (discovered_table : table)
  : state * option table :=
  let tables := <[table_counter st := discovered_table]> (discovered_tables st) in
  let headers := record_headers (headers_discovered st) discovered_table in
  let counter := table_counter st + 1 in
  let file_offset := data_end discovered_table + 1 in
  match discover_next_table file_offset counter headers with
  | None => (State tables counter headers, None)
  | Some found =>
      if merge_condition blank_lines discovered_table found
      then
        let merged := merge_tables discovered_table found in
        let counter := counter - 1 in
        let tables := <[counter := close_current merged]> tables in
        (State (close_previous tables counter merged) counter headers,
         Some (close_current merged))
      else
        (State (close_previous tables counter found) counter headers,
         Some (close_current found))
  end.

(** The [while] loop.  Every pass asks [discover_next_table] for a table
    below the [data_end] of the current one; [fuel] bounds the number of
    passes. *)
Fixpoint loop (fuel : nat) (st : state) (discovered_table : option table)
  : option state :=
  match discovered_table with
  | None => Some st
  | Some t =>
      match fuel with
      | O => None
      | S fuel' =>
          let result := iteration st t in
          loop fuel' result.1 result.2
      end
  end.

(** [extract_tables]: the loop from file offset [0], then the footnotes of
    the last table (lines 1488-1504): its non-blank rows below [data_end]. *)
Definition extract_tables (fuel : nat) : option (gmap Z table) :=
  st ← loop fuel (State ∅ 1 ∅) (discover_next_table 0 1 ∅);
  let tables := discovered_tables st in
  match tables !! (table_counter st - 1) with
  | None => Some tables
  | Some last_table =>
      if bool_decide (data_end last_table = n_rows) then Some tables
      else
        Some (<[table_counter st - 1 :=
                 set_footnotes last_table
                   (filter (fun r => r ∉ blank_lines)
                      (range (data_end last_table + 1) n_rows))]> tables)
  end.

End Loop.
End Extract.

(** ** Scopes of subheaders  (pytheas.py, [predict_subheaders], lines 2897-2912) *)

(** The inner [while]: the first later subheader without a scope. *)
Fixpoint next_unscoped (subheader_scope : gmap Z scope) (later : list Z)
  : option Z :=
  match later with
  | [] => None
  | next_subh :: later' =>
      match subheader_scope !! next_subh with
      | None => Some next_subh
      | Some _ => next_unscoped subheader_scope later'
      end
  end.

(** The loop over [enumerate(predicted_pat_sub_headers)]; [last_row] is
    [cand_data.index[-1]]. *)
Fixpoint assign_scopes (last_row : Z) (predicted_pat_sub_headers : list Z)
    (subheader_scope : gmap Z scope) : gmap Z scope :=
  match predicted_pat_sub_headers with
  | [] => subheader_scope
  | subheader :: later =>
      let subheader_scope :=
        match subheader_scope !! subheader with
        | Some _ => subheader_scope
        | None =>
            match later with
            | [] =>
                <[subheader := ScopeRows (range (subheader + 1) (last_row + 1))]>
                  subheader_scope
            | _ =>
                match next_unscoped subheader_scope later with
                | Some next_subh =>
                    <[subheader := ScopeRows (range (subheader + 1) next_subh)]>
                      subheader_scope
                | None => subheader_scope
                end
            end
        end in
      assign_scopes last_row later subheader_scope
  end.

(** *** Reference statements for table records *)

(** Row [r] lies in the scope of subheader [k]. *)
Definition in_scope_of (m : gmap Z scope) (k r : Z) : Prop :=
  exists s, m !! k = Some s /\ r ∈ scope_rows s.

(** Sample tables of an eight-row grid: four data rows from row 0, then a
    second table found from row 4 whose data start at row 5, with no
    header; row 4 is neither blank nor a subheader of the first table. *)
Definition sample_head : table :=
  Table 0 7 0 3 (Q2Qc (1 # 2)) [] [] ∅ ∅.

Definition sample_tail : table :=
  Table 4 3 5 7 (Q2Qc (1 # 2)) [] [] ∅ ∅.

Definition sample_discover (file_offset _ : Z) (_ : gmap Z string)
  : option table :=
  if file_offset =? 4 then Some sample_tail else None.

Definition sample_extract_state : Extract.state :=
  Extract.State ∅ 1 ∅.

(** The end of the scope of subheader [k] in an increasing list of
    subheaders: the next subheader, or the row after [last_row]. *)
Fixpoint scope_end (last_row : Z) (subheaders : list Z) (k : Z) : option Z :=
  match subheaders with
  | [] => None
  | s :: later =>
      if Z.eqb s k
      then Some (match later with
                 | [] => last_row + 1
                 | next_subh :: _ => next_subh
                 end)
      else scope_end last_row later k
  end.

(** Row [r] is covered by subheader [k]. *)
Definition covers (last_row : Z) (subheaders : list Z) (k r : Z) : Prop :=
  exists e, scope_end last_row subheaders k = Some e /\ k + 1 <= r < e.

(** ** Reference statements and samples for scores and training *)

(** The value of [max_score]: the largest qualifying weight, or [0]. *)
Definition top_weight (E : list string) (R : catalogue) (lb : Qc) (s : Qc) : Prop :=
  ((exists e, e ∈ E /\ qualifies R lb e s)
   /\ forall e w, e ∈ E -> qualifies R lb e w -> (w <= s)%Qc)
  \/ (s = 0%Qc /\ forall e w, e ∈ E -> ~ qualifies R lb e w).

(** Scores that are probabilities. *)
Definition in_unit_interval (l : list Qc) : Prop :=
  Forall (fun x => (0 <= x)%Qc /\ (x <= 1)%Qc) l.

(** Parameters and rules in the range the trainer and the defaults give:
    weights at most [1], lower bounds not negative, [p] a probability. *)
Definition scoring_in_range (params : parameters) (rules : fuzzy_rules) : Prop :=
  (0 <= p params)%Qc /\ (p params <= 1)%Qc
  /\ (0 <= weight_lower_bound params)%Qc
  /\ (0 <= not_data_weight_lower_bound params)%Qc
  /\ weights_at_most_one (cell_data rules)
  /\ weights_at_most_one (cell_not_data rules)
  /\ weights_at_most_one (line_data rules)
  /\ weights_at_most_one (line_not_data rules).

(** Every confidence of a map is a probability. *)
Definition probabilities (m : gmap Z Qc) : Prop :=
  forall k c, m !! k = Some c -> (0 <= c)%Qc /\ (c <= 1)%Qc.

Definition sample_not_data_rules : gmap Z not_data_row_rules :=
  <[4 := NotDataRowRules (<[0 := NotDataCell [] 3]> ∅) []]>
  (<[5 := NotDataRowRules (<[0 := NotDataCell ["D4"] 1]> ∅) []]> ∅).

(** ** Training  (pytheas.py, [PYTHEAS.train_rules]) *)

(** A frame of training points: its column names and its rows.  A row
    carries its [label] and the value of its rule columns. *)
Record training_frame := TrainingFrame {
  frame_columns : list string;
  frame_rows : list (string * gmap string bool)
}.

(** [label=='DATA'] and [column==True] of a [query] string. *)
Definition labelled_data (row : string * gmap string bool) : bool :=
  String.eqb row.1 "DATA".

Definition column_true (column : string) (row : string * gmap string bool)
  : bool :=
  bool_decide (row.2 !! column = Some true).

(** [df.query(...).shape[0]] *)
Definition count_rows (test : string * gmap string bool -> bool)
    (df : training_frame) : nat :=
  length (List.filter test (frame_rows df)).

Definition Qc_of_nat (n : nat) : Qc := Q2Qc (inject_Z (Z.of_nat n)).

(** The body of each of the four loops of [train_rules]: the scalars of
    [rule] counted on [df].  The true positives of a data rule are the rows
    labelled [DATA], those of a not-data rule the other rows; [total] is the
    divisor of the coverage, and dividing by zero raises. *)
Definition train_rule (data_class : bool) (df : training_frame) (total : nat)
    (rule : string) (r : fuzzy_rule) : option fuzzy_rule :=
  let column := lower rule in
  let known := bool_decide (column ∈ frame_columns df) in
  let positive row := Bool.eqb (labelled_data row) data_class in
  let predicted_positive :=
    if known then count_rows (column_true column) df else 0%nat in
  let true_positive :=
    if known
    then count_rows (fun row => column_true column row && positive row) df
    else 0%nat in
  let false_positive :=
    if known
    then count_rows (fun row => column_true column row && negb (positive row)) df
    else 0%nat in
  let rule_weight :=
    if (predicted_positive =? 0)%nat then None
    else Some (Qc_of_nat true_positive / Qc_of_nat predicted_positive
               - Qc_of_nat false_positive / Qc_of_nat predicted_positive)%Qc in
  let confidence :=
    if (predicted_positive =? 0)%nat then None
    else Some (Qc_of_nat true_positive / Qc_of_nat predicted_positive)%Qc in
  if (total =? 0)%nat then None
  else Some (FuzzyRule rule_weight confidence
               (Qc_of_nat predicted_positive / Qc_of_nat total)%Qc (theme r)).

(** One loop [for rule in self.fuzzy_rules[unit][class].keys()]: every
    entry of the catalogue is overwritten in place. *)
Definition train_catalogue (data_class : bool) (df : training_frame)
    (total : nat) (R : catalogue) : option catalogue :=
  map_fold (fun rule r trained =>
              trained ← trained;
              r' ← train_rule data_class df total rule r;
              Some (<[rule := r']> trained))
           (Some R) R.

Definition train_rules (rules : fuzzy_rules)
    (undersampled_cell_data undersampled_cell_not_data
     undersampled_line_data undersampled_line_not_data : training_frame)
  : option fuzzy_rules :=
  let total_cell_instances := length (frame_rows undersampled_cell_data) in
  let total_line_instances := length (frame_rows undersampled_line_data) in
  cell_data' ← train_catalogue true undersampled_cell_data
                  total_cell_instances (cell_data rules);
  cell_not_data' ← train_catalogue false undersampled_cell_not_data
                      total_cell_instances (cell_not_data rules);
  line_data' ← train_catalogue true undersampled_line_data
                  total_line_instances (line_data rules);
  line_not_data' ← train_catalogue false undersampled_line_not_data
                      total_line_instances (line_not_data rules);
  Some (FuzzyRules cell_data' cell_not_data' line_data' line_not_data').

(** The four catalogues of a model with the frame each is trained on. *)
Definition trained_on (rules : fuzzy_rules)
    (cell_data_frame cell_not_data_frame line_data_frame line_not_data_frame
       : training_frame)
  : list (catalogue * training_frame * bool) :=
  [ (cell_data rules, cell_data_frame, true);
    (cell_not_data rules, cell_not_data_frame, false);
    (line_data rules, line_data_frame, true);
    (line_not_data rules, line_not_data_frame, false) ].

(** The rule never fired on the frame. *)
Definition never_fired (df : training_frame) (rule : string) : Prop :=
  lower rule ∉ frame_columns df
  \/ forall row, row ∈ frame_rows df -> row.2 !! lower rule <> Some true.

(** The scalars [train_rules] leaves in a rule: none, or a confidence [c]
    that is a fraction of the firings and the weight [2 c - 1]. *)
Definition trained_scalars (r : fuzzy_rule) : Prop :=
  match weight r, confidence r with
  | Some w, Some c => (w = 2 * c - 1 /\ 0 <= c /\ c <= 1)%Qc
  | None, None => True
  | _, _ => False
  end.

(** Sample training frames: four cells and three lines. *)
Definition sample_cell_frame : training_frame :=
  TrainingFrame ["label"; "fw_d1"; "d4"]
    [ ("DATA", <["fw_d1" := true]> (<["d4" := false]> ∅));
      ("DATA", <["fw_d1" := true]> (<["d4" := true]> ∅));
      ("HEADER", <["fw_d1" := false]> (<["d4" := true]> ∅));
      ("DATA", <["fw_d1" := true]> (<["d4" := false]> ∅)) ].

Definition sample_line_frame : training_frame :=
  TrainingFrame ["label"; "consistently_upper_case"; "one_null_equivalent_on_line"]
    [ ("HEADER", <["consistently_upper_case" := true]>
                   (<["one_null_equivalent_on_line" := false]> ∅));
      ("DATA", <["consistently_upper_case" := false]>
                 (<["one_null_equivalent_on_line" := true]> ∅));
      ("DATA", <["consistently_upper_case" := true]>
                 (<["one_null_equivalent_on_line" := false]> ∅)) ].

(** The catalogues of a model. *)
Definition catalogues (rules : fuzzy_rules) : list catalogue :=
  [cell_data rules; cell_not_data rules; line_data rules; line_not_data rules].

(** The sample model after training on the sample frames. *)
Definition sample_trained_rules : fuzzy_rules :=
  default sample_rules
    (train_rules sample_rules sample_cell_frame sample_cell_frame
       sample_line_frame sample_line_frame).

(** A second table with a header row, and a stand-in for
    [discover_next_table] that finds the two sample tables. *)
Definition sample_second : table :=
  Table 4 7 5 7 (Q2Qc (1 # 2)) [4] [] ∅ ∅.

Definition sample_discover_all (file_offset _ : Z) (_ : gmap Z string)
  : option table :=
  if file_offset =? 0 then Some sample_head
  else if file_offset =? 4 then Some sample_second
  else None.

(** ** The reported annotations  (pytheas.py, [convert_predictions]) *)

(** An entry of [annotations["tables"]], without its [columns] and without
    the two confidences read from [fdl_confidence]. *)
Record table_annotation := TableAnnotation {
  reported_counter : Z;
  reported_top_boundary : Z;
  reported_bottom_boundary : Z;
  reported_data_start : Z;
  reported_data_end : Z;
  reported_header : list Z;
  reported_footnotes : list Z;
  reported_subheaders : list Z;
  body_end : Qc
}.

(** [predictions.keys()] of the [SortedDict]: the keys in increasing
    order. *)
Definition sorted_keys (predictions : gmap Z table) : list Z :=
  merge_sort Z.le (map fst (map_to_list predictions)).

Definition convert_table (key : Z) (t : table) : table_annotation :=
  TableAnnotation key (top_boundary t) (bottom_boundary t) (data_start t)
    (data_end t) (header t) (footnotes t)
    (map fst (map_to_list (subheader_scope t))) (data_end_confidence t).

(** The list [annotations["tables"]]. *)
Definition convert_predictions (predictions : gmap Z table)
  : list table_annotation :=
  omap (fun key => convert_table key <$> predictions !! key)
       (sorted_keys predictions).

(** * Properties *)

(** ** Rational helpers *)

Lemma Qcleb_le x y : Qcleb x y = true <-> (x <= y)%Qc.
Proof. unfold Qcleb, Qcle. apply Qle_bool_iff. Qed.

Lemma Qcleb_gt x y : Qcleb x y = false <-> (y < x)%Qc.
Proof.
  unfold Qcleb. split.
  - intros H. apply Qcnot_le_lt. intros Hle.
    apply Qle_bool_iff in Hle. congruence.
  - intros H. destruct (Qle_bool x y) eqn:E; [|reflexivity].
    apply Qle_bool_iff in E. apply Qclt_not_le in H. contradiction.
Qed.

Lemma Qcltb_lt x y : Qcltb x y = true <-> (x < y)%Qc.
Proof.
  unfold Qcltb. rewrite negb_true_iff. apply (Qcleb_gt y x).
Qed.

Lemma Qcltb_ge x y : Qcltb x y = false <-> (y <= x)%Qc.
Proof.
  unfold Qcltb. rewrite negb_false_iff. apply (Qcleb_le y x).
Qed.

Lemma Qceqb_eq x y : Qceqb x y = true <-> x = y.
Proof.
  unfold Qceqb. rewrite Qeq_bool_iff. split.
  - apply Qc_is_canon.
  - intros ->. reflexivity.
Qed.

Lemma Qceqb_refl x : Qceqb x x = true.
Proof. now apply Qceqb_eq. Qed.

Lemma Qceqb_neq x y : Qceqb x y = false <-> x <> y.
Proof.
  split.
  - intros H E. apply Qceqb_eq in E. congruence.
  - intros H. destruct (Qceqb x y) eqn:E; [|reflexivity].
    apply Qceqb_eq in E. contradiction.
Qed.

(** ** [max_score] *)

Lemma event_scores_total (E : list string) (R : catalogue) (lb : Qc) :
  (forall e, e ∈ E -> is_Some (R !! e)) ->
  exists l, event_scores E R lb = Some l.
Proof.
  induction E as [|e E IH]; intros HE; simpl.
  - eauto.
  - destruct (HE e) as [r Hr]; [left|]. rewrite Hr.
    destruct IH as [l Hl].
    { intros e' He'. apply HE. now right. }
    rewrite Hl. destruct (weight r) as [w|]; [|eauto].
    destruct (Qcleb lb w); eauto.
Qed.

Lemma event_scores_sound E R lb l e w :
  event_scores E R lb = Some l -> (e, w) ∈ l ->
  e ∈ E /\ qualifies R lb e w.
Proof.
  revert l. induction E as [|e0 E IH]; simpl; intros l Hl Hin.
  - inversion Hl; subst. inversion Hin.
  - destruct (R !! e0) as [r|] eqn:Hr; [|discriminate].
    destruct (event_scores E R lb) as [tl|] eqn:Htl; [|discriminate].
    assert (Htail : (e, w) ∈ tl -> e ∈ e0 :: E /\ qualifies R lb e w).
    { intros Hi. destruct (IH tl eq_refl Hi). split; [now right|assumption]. }
    destruct (weight r) as [w0|] eqn:Hw.
    + destruct (Qcleb lb w0) eqn:Hlb; inversion Hl; subst; [|auto].
      apply elem_of_cons in Hin as [Heq|Hi]; [|auto].
      inversion Heq; subst. split; [left|].
      exists r. repeat split; try assumption. now apply Qcleb_le.
    + inversion Hl; subst. auto.
Qed.

Lemma event_scores_complete E R lb l e w :
  event_scores E R lb = Some l -> e ∈ E -> qualifies R lb e w ->
  (e, w) ∈ l.
Proof.
  revert l. induction E as [|e0 E IH]; simpl; intros l Hl Hin Hq.
  - inversion Hin.
  - destruct (R !! e0) as [r|] eqn:Hr; [|discriminate].
    destruct (event_scores E R lb) as [tl|] eqn:Htl; [|discriminate].
    apply elem_of_cons in Hin as [->|Hin].
    + destruct Hq as (r' & Hr' & Hw & Hle).
      rewrite Hr in Hr'. inversion Hr'; subst r'.
      rewrite Hw in Hl. apply Qcleb_le in Hle. rewrite Hle in Hl.
      inversion Hl. left.
    + specialize (IH tl eq_refl Hin Hq).
      destruct (weight r) as [w0|]; [destruct (Qcleb lb w0)|];
        inversion Hl; subst; try assumption. now right.
Qed.

(** A rule that does not qualify leaves [event_score] as it was. *)
Lemma event_scores_skip E1 E2 R lb e r :
  R !! e = Some r ->
  (weight r = None \/ exists w, weight r = Some w /\ (w < lb)%Qc) ->
  event_scores (E1 ++ e :: E2) R lb = event_scores (E1 ++ E2) R lb.
Proof.
  intros Hr Hw. induction E1 as [|e1 E1 IH]; simpl.
  - rewrite Hr. destruct (event_scores E2 R lb) as [tl|].
    + destruct Hw as [->|(w & -> & Hlt)]; [reflexivity|].
      apply Qcleb_gt in Hlt. now rewrite Hlt.
    + reflexivity.
  - now rewrite IH.
Qed.

Lemma insert_desc_elem x y l : y ∈ insert_desc x l <-> y = x \/ y ∈ l.
Proof.
  induction l as [|z l IH]; simpl.
  - rewrite list_elem_of_singleton. split; [auto|]. intros [H|H]; [auto|inversion H].
  - destruct (Qcleb (snd z) (snd x)).
    + apply elem_of_cons.
    + rewrite !elem_of_cons, IH. tauto.
Qed.

Lemma sort_desc_elem y l : y ∈ sort_desc l <-> y ∈ l.
Proof.
  induction l as [|x l IH]; simpl; [tauto|].
  rewrite insert_desc_elem, elem_of_cons, IH. tauto.
Qed.

Lemma insert_desc_head x l : head_dominates l -> head_dominates (insert_desc x l).
Proof.
  destruct l as [|z l]; simpl; intros Hd.
  - intros y Hy. apply list_elem_of_singleton in Hy. subst. apply Qcle_refl.
  - destruct (Qcleb (snd z) (snd x)) eqn:Hc.
    + apply Qcleb_le in Hc. intros y Hy.
      apply elem_of_cons in Hy as [->|Hy]; [apply Qcle_refl|].
      eapply Qcle_trans; [apply Hd, Hy|exact Hc].
    + apply Qcleb_gt in Hc. intros y Hy.
      apply elem_of_cons in Hy as [->|Hy]; [apply Qcle_refl|].
      apply insert_desc_elem in Hy as [->|Hy].
      * now apply Qclt_le_weak.
      * apply Hd. now right.
Qed.

Lemma sort_desc_head l : head_dominates (sort_desc l).
Proof.
  induction l as [|x l IH]; simpl; [exact I|]. now apply insert_desc_head.
Qed.

Lemma max_score_unfold E R lb :
  max_score E R lb =
  match event_scores E R lb with
  | None => None
  | Some event_score =>
      match sort_desc event_score with
      | [] => Some 0%Qc
      | top :: _ => Some (snd top)
      end
  end.
Proof. destruct E; reflexivity. Qed.

(** C5.  [max_score(E, R, lb)] is the largest weight among the fired rules
    whose weight is not null and is at least [lb], and [0] when no fired
    rule qualifies, in particular for an empty [E]; a fired rule with a null
    or below-bound weight scores [0] on its own and leaves the score of any
    other firing set unchanged. *)
Theorem max_score_is_weighted_max (E : list string) (R : catalogue) (lb : Qc) :
  (forall e, e ∈ E -> is_Some (R !! e)) ->
  (exists s, max_score E R lb = Some s /\
     (((exists e, e ∈ E /\ qualifies R lb e s) /\
       (forall e w, e ∈ E -> qualifies R lb e w -> (w <= s)%Qc))
      \/ (s = 0%Qc /\ forall e w, e ∈ E -> ~ qualifies R lb e w)))
  /\ (E = [] -> max_score E R lb = Some 0%Qc)
  /\ (forall e r, R !! e = Some r ->
        (weight r = None \/ exists w, weight r = Some w /\ (w < lb)%Qc) ->
        max_score [e] R lb = Some 0%Qc /\
        forall E1 E2, E = E1 ++ E2 ->
          max_score (E1 ++ e :: E2) R lb = max_score E R lb).
Proof.
  intros HE. split; [|split].
  - destruct (event_scores_total E R lb HE) as [l Hl].
    rewrite max_score_unfold, Hl.
    pose proof (sort_desc_head l) as Hd.
    destruct (sort_desc l) as [|[e0 w0] rest] eqn:Hs.
    + exists 0%Qc. split; [reflexivity|]. right. split; [reflexivity|].
      intros e w He Hq.
      pose proof (event_scores_complete _ _ _ _ _ _ Hl He Hq) as Hin.
      apply sort_desc_elem in Hin. rewrite Hs in Hin. inversion Hin.
    + exists w0. split; [reflexivity|]. left. split.
      * assert (Hin : (e0, w0) ∈ l).
        { apply sort_desc_elem. rewrite Hs. left. }
        destruct (event_scores_sound _ _ _ _ _ _ Hl Hin). eauto.
      * intros e w He Hq.
        pose proof (event_scores_complete _ _ _ _ _ _ Hl He Hq) as Hin.
        apply sort_desc_elem in Hin. rewrite Hs in Hin.
        apply (Hd (e, w) Hin).
  - intros ->. reflexivity.
  - intros e r Hr Hw. split.
    + pose proof (event_scores_skip [] [] R lb e r Hr Hw) as Hskip.
      simpl app in Hskip. rewrite max_score_unfold, Hskip. reflexivity.
    + intros E1 E2 ->. rewrite !max_score_unfold.
      now rewrite (event_scores_skip E1 E2 R lb e r Hr Hw).
Qed.

Lemma max_score_is_weighted_max_witness :
  exists s, max_score ["D4"; "FW_D1"; "LENGTH_4PLUS"] sample_catalogue
              (Q2Qc (2 # 5)) = Some s /\
     (((exists e, e ∈ ["D4"; "FW_D1"; "LENGTH_4PLUS"] /\
                  qualifies sample_catalogue (Q2Qc (2 # 5)) e s) /\
       (forall e w, e ∈ ["D4"; "FW_D1"; "LENGTH_4PLUS"] ->
                    qualifies sample_catalogue (Q2Qc (2 # 5)) e w -> (w <= s)%Qc))
      \/ (s = 0%Qc /\ forall e w, e ∈ ["D4"; "FW_D1"; "LENGTH_4PLUS"] ->
                       ~ qualifies sample_catalogue (Q2Qc (2 # 5)) e w)).
Proof.
  apply (max_score_is_weighted_max ["D4"; "FW_D1"; "LENGTH_4PLUS"]
           sample_catalogue (Q2Qc (2 # 5))).
  intros e He.
  repeat (apply elem_of_cons in He as [->|He]);
    [vm_compute; eauto .. | inversion He].
Defined.

Example max_score_sample :
  max_score ["D4"; "FW_D1"; "LENGTH_4PLUS"] sample_catalogue (Q2Qc (2 # 5))
  = Some (Q2Qc (1 # 2)).
Proof. vm_compute. reflexivity. Qed.

(** ** [probabilistic_sum] *)

Lemma dict_set_tabulate c x ks :
  dict_set x (c x) (tabulate c ks) = tabulate c (add_key x ks).
Proof.
  induction ks as [|k ks IH]; simpl; [reflexivity|].
  destruct (Qceqb k x) eqn:Hk.
  - apply Qceqb_eq in Hk. subst. reflexivity.
  - simpl. now rewrite IH.
Qed.

Lemma fold_dict_set_tabulate c l ks :
  fold_left (fun d x => dict_set x (c x) d) l (tabulate c ks)
  = tabulate c (first_occurrences l ks).
Proof.
  revert ks. induction l as [|x l IH]; intros ks; simpl; [reflexivity|].
  rewrite dict_set_tabulate. apply IH.
Qed.

Lemma score_counts_tabulate l :
  score_counts l = tabulate (fun k => count_score k l) (first_occurrences l []).
Proof.
  unfold score_counts.
  apply (fold_dict_set_tabulate (fun k => count_score k l) l []).
Qed.

Lemma add_key_elem x y ks : y ∈ add_key x ks <-> y = x \/ y ∈ ks.
Proof.
  induction ks as [|k ks IH]; simpl.
  - rewrite list_elem_of_singleton, elem_of_nil. tauto.
  - destruct (Qceqb k x) eqn:Hk.
    + apply Qceqb_eq in Hk. subst. rewrite elem_of_cons. tauto.
    + rewrite !elem_of_cons, IH. tauto.
Qed.

Lemma add_key_NoDup x ks : NoDup ks -> NoDup (add_key x ks).
Proof.
  induction ks as [|k ks IH]; simpl; intros Hnd.
  - apply NoDup_singleton.
  - destruct (Qceqb k x) eqn:Hk; [assumption|].
    apply Qceqb_neq in Hk. apply NoDup_cons in Hnd as [Hk' Hnd].
    apply NoDup_cons. split; [|auto].
    rewrite add_key_elem. intros [->|Hin]; [congruence|contradiction].
Qed.

Lemma first_occurrences_elem l ks y :
  y ∈ first_occurrences l ks <-> y ∈ ks \/ y ∈ l.
Proof.
  revert ks. induction l as [|x l IH]; intros ks; simpl.
  - rewrite elem_of_nil. tauto.
  - unfold first_occurrences in IH. rewrite IH, add_key_elem, elem_of_cons. tauto.
Qed.

Lemma first_occurrences_NoDup l ks : NoDup ks -> NoDup (first_occurrences l ks).
Proof.
  revert ks. induction l as [|x l IH]; intros ks Hnd; simpl; [assumption|].
  apply IH. now apply add_key_NoDup.
Qed.

Lemma np_prod_foldr l : np_prod l = foldr Qcmult 1%Qc l.
Proof.
  unfold np_prod. apply fold_symmetric; intros; ring.
Qed.

Lemma power_product_step l k ks :
  power_product l (k :: ks)
  = ((1 - k) ^ count_score k l * power_product l ks)%Qc.
Proof. reflexivity. Qed.

Lemma power_product_nil ks : power_product [] ks = 1%Qc.
Proof.
  induction ks as [|k ks IH]; [reflexivity|].
  rewrite power_product_step, IH. simpl. ring.
Qed.

Lemma power_product_fresh x l ks :
  x ∉ ks -> power_product (x :: l) ks = power_product l ks.
Proof.
  induction ks as [|k ks IH]; intros Hx; [reflexivity|].
  apply not_elem_of_cons in Hx as [Hne Hx].
  rewrite !power_product_step, (IH Hx). simpl.
  assert (Hk : Qceqb x k = false) by now apply Qceqb_neq.
  now rewrite Hk.
Qed.

Lemma power_product_cons x l ks :
  NoDup ks -> x ∈ ks ->
  power_product (x :: l) ks = ((1 - x) * power_product l ks)%Qc.
Proof.
  induction ks as [|k ks IH]; intros Hnd Hx; [inversion Hx|].
  apply NoDup_cons in Hnd as [Hk Hnd].
  rewrite !power_product_step. simpl count_score.
  destruct (Qceqb x k) eqn:Hxk.
  - apply Qceqb_eq in Hxk. subst k.
    rewrite (power_product_fresh x l ks Hk). simpl. ring.
  - apply Qceqb_neq in Hxk.
    apply elem_of_cons in Hx as [Hx|Hx]; [contradiction|].
    rewrite (IH Hnd Hx). ring.
Qed.

Lemma power_product_complement l ks :
  NoDup ks -> (forall x, x ∈ l -> x ∈ ks) ->
  power_product l ks = complement_product l.
Proof.
  intros Hnd. induction l as [|x l IH]; intros Hin.
  - apply power_product_nil.
  - rewrite power_product_cons; [|assumption|apply Hin; left].
    simpl. rewrite IH; [reflexivity|].
    intros y Hy. apply Hin. now right.
Qed.

Lemma probabilistic_sum_closed_form l : probabilistic_sum l = probabilistic_or l.
Proof.
  unfold probabilistic_or. destruct l as [|x l].
  - simpl. ring.
  - unfold probabilistic_sum. cbv zeta.
    rewrite score_counts_tabulate. unfold tabulate.
    rewrite map_map. simpl fst. simpl snd. rewrite np_prod_foldr.
    f_equal.
    apply (power_product_complement (x :: l) (first_occurrences (x :: l) [])).
    + apply first_occurrences_NoDup, NoDup_nil_2.
    + intros y Hy. apply first_occurrences_elem. now right.
Qed.

Lemma complement_product_app l s :
  complement_product (l ++ [s]) = (complement_product l * (1 - s))%Qc.
Proof.
  induction l as [|x l IH]; simpl; [ring|]. rewrite IH. ring.
Qed.

Lemma complement_product_nonneg l :
  at_most_one l -> (0 <= complement_product l)%Qc.
Proof.
  induction 1 as [|x l Hx _ IH]; simpl.
  - unfold Qcle. simpl. discriminate.
  - apply Qcmult_nonneg_nonneg; [|assumption].
    apply Qcle_minus_iff in Hx. exact Hx.
Qed.

Lemma probabilistic_sum_append l s :
  at_most_one l -> (0 < s)%Qc ->
  (probabilistic_sum l <= probabilistic_sum (l ++ [s]))%Qc.
Proof.
  intros Hl Hs. rewrite !probabilistic_sum_closed_form.
  unfold probabilistic_or. rewrite complement_product_app.
  apply Qcle_minus_iff.
  replace (1 - complement_product l * (1 - s) + - (1 - complement_product l))%Qc
    with (complement_product l * s)%Qc by ring.
  apply Qcmult_nonneg_nonneg.
  - now apply complement_product_nonneg.
  - now apply Qclt_le_weak.
Qed.

(** C3.  The row confidence computed by [probabilistic_sum] is
    [1 - prod (1 - s)] over the scores with multiplicity, it is [0] for the
    empty list, and appending one more positive score to a list of evidence
    scores (each at most [1], the range of weights) never decreases it. *)
Theorem probabilistic_sum_is_probabilistic_or (l : list Qc) :
  probabilistic_sum l = probabilistic_or l
  /\ probabilistic_sum [] = 0%Qc
  /\ (forall s, Forall (fun x => (x <= 1)%Qc) l -> (0 < s)%Qc ->
        (probabilistic_sum l <= probabilistic_sum (l ++ [s]))%Qc).
Proof.
  split; [apply probabilistic_sum_closed_form|]. split; [reflexivity|].
  intros s Hl Hs. now apply probabilistic_sum_append.
Qed.

Lemma probabilistic_sum_is_probabilistic_or_witness :
  (probabilistic_sum [Q2Qc (1 # 2); Q2Qc (1 # 2); Q2Qc (3 # 10)]
   <= probabilistic_sum
        ([Q2Qc (1 # 2); Q2Qc (1 # 2); Q2Qc (3 # 10)] ++ [Q2Qc (2 # 5)]))%Qc.
Proof.
  apply (proj2 (proj2 (probabilistic_sum_is_probabilistic_or
                         [Q2Qc (1 # 2); Q2Qc (1 # 2); Q2Qc (3 # 10)]))).
  - repeat constructor; unfold Qcle; vm_compute; discriminate.
  - unfold Qclt. vm_compute. reflexivity.
Defined.

Example probabilistic_sum_sample :
  probabilistic_sum [Q2Qc (1 # 2); Q2Qc (1 # 2); Q2Qc (3 # 10)]
  = Q2Qc (33 # 40).
Proof. apply Qc_is_canon. vm_compute. reflexivity. Qed.

(** ** Null imputation in [get_class_confidences] *)

Lemma classified_data_true dlc ndlc row :
  classified_data dlc ndlc row = Some true <-> classified_as_data dlc ndlc row.
Proof.
  unfold classified_data, classified_as_data. split.
  - destruct (dlc !! row) as [dc|]; [|discriminate].
    destruct (ndlc !! row) as [ndc|]; [|discriminate].
    intros H. inversion H as [Hlt]. apply Qcltb_lt in Hlt. eauto.
  - intros (dc & ndc & -> & -> & Hlt). apply Qcltb_lt in Hlt. now rewrite Hlt.
Qed.

Lemma imputation_source_usable drf dlc ndlc row col c' :
  imputation_source drf dlc ndlc row col = Some (Some c')
  <-> usable_source drf dlc ndlc row col c'.
Proof.
  unfold imputation_source, usable_source. split.
  - destruct (drf !! row) as [r'|] eqn:Hr; [|discriminate].
    destruct (data_cells r' !! col) as [c0|] eqn:Hc0; [|discriminate].
    destruct (classified_data dlc ndlc row) as [[|]|] eqn:Hc; try discriminate.
    intros H. inversion H; subst. split; [eauto|].
    now apply classified_data_true.
  - intros [(r' & -> & ->) Hc]. apply classified_data_true in Hc.
    now rewrite Hc.
Qed.

Lemma imputation_source_none drf dlc ndlc row col :
  (forall k, is_Some (dlc !! k) -> is_Some (ndlc !! k)) ->
  (forall c', ~ usable_source drf dlc ndlc row col c') ->
  imputation_source drf dlc ndlc row col = Some None.
Proof.
  intros Hdom Hno. unfold imputation_source.
  destruct (drf !! row) as [r'|] eqn:Hr; [|reflexivity].
  destruct (data_cells r' !! col) as [c0|] eqn:Hc0; [|reflexivity].
  destruct (classified_data dlc ndlc row) as [[|]|] eqn:Hc.
  - exfalso. apply (Hno c0). split; [eauto|]. now apply classified_data_true.
  - reflexivity.
  - exfalso. unfold classified_data in Hc.
    destruct (dlc !! row) as [dc|] eqn:Hd; [|discriminate].
    destruct (Hdom row) as [ndc Hnd]; [rewrite Hd; eauto|].
    rewrite Hnd in Hc. discriminate.
Qed.

Lemma imputation_source_total drf dlc ndlc row col :
  (forall k, is_Some (dlc !! k) -> is_Some (ndlc !! k)) ->
  exists src, imputation_source drf dlc ndlc row col = Some src.
Proof.
  intros Hdom. unfold imputation_source.
  destruct (drf !! row) as [r'|]; [|eauto].
  destruct (data_cells r' !! col) as [c0|]; [|eauto].
  unfold classified_data.
  destruct (dlc !! row) as [dc|] eqn:Hd; [|eauto].
  destruct (Hdom row) as [ndc Hnd]; [rewrite Hd; eauto|].
  rewrite Hnd. destruct (Qcltb ndc dc); eauto.
Qed.

(** The two guards, on every input: the agreements and summary strength
    used for a cell are those of the same column two rows above when the cell
    has summary strength [0], carries the aggregate flag and the row two
    above was classified data; otherwise those of the prior row when the cell
    is null-equivalent or has summary strength [1], [impute_nulls] is on and
    the prior row was classified data; otherwise the cell's own. *)
Lemma imputed_agreements_guards (params : parameters)
    (drf : gmap Z data_row_rules) (dlc ndlc : gmap Z Qc)
    (row_index column_index : Z) (r : data_row_rules) (c : data_cell) :
  drf !! row_index = Some r ->
  data_cells r !! column_index = Some c ->
  (forall k, is_Some (dlc !! k) -> is_Some (ndlc !! k)) ->
  let first_guard :=
    (null_equivalent c = true \/ summary_strength c = 1%nat)
    /\ impute_nulls params = true in
  let second_guard := summary_strength c = 0%nat /\ aggregate c = true in
  let above k c' := usable_source drf dlc ndlc (row_index - k) column_index c' in
  let result := imputed_agreements params drf dlc ndlc row_index column_index in
  (forall c2, second_guard -> above 2 c2 ->
     result = Some (agreements c2, summary_strength c2))
  /\ (forall c1, ~ (second_guard /\ exists c2, above 2 c2) ->
        first_guard -> above 1 c1 ->
        result = Some (agreements c1, summary_strength c1))
  /\ (~ (second_guard /\ exists c2, above 2 c2) ->
      ~ (first_guard /\ exists c1, above 1 c1) ->
      result = Some (agreements c, summary_strength c)).
Proof.
  intros Hr Hc Hdom first_guard second_guard above result.
  assert (Hsecond_off :
    ~ (second_guard /\ exists c2, above 2 c2) ->
    (if Nat.eqb (summary_strength c) 0 && aggregate c
     then imputation_source drf dlc ndlc (row_index - 2) column_index
     else Some None) = Some None).
  { intros Hn.
    destruct (Nat.eqb (summary_strength c) 0 && aggregate c) eqn:Hg;
      [|reflexivity].
    apply andb_true_iff in Hg as [Hs Ha]. apply Nat.eqb_eq in Hs.
    apply imputation_source_none; [assumption|].
    intros c' Hu. apply Hn. split; [split; assumption|eauto]. }
  assert (Hfirst_total : exists src,
    (if (null_equivalent c || Nat.eqb (summary_strength c) 1)
        && impute_nulls params
     then imputation_source drf dlc ndlc (row_index - 1) column_index
     else Some None) = Some src).
  { destruct ((null_equivalent c || Nat.eqb (summary_strength c) 1)
               && impute_nulls params); [|eauto].
    now apply imputation_source_total. }
  subst result. unfold imputed_agreements. rewrite Hr, Hc. cbv zeta.
  split; [|split].
  - intros c2 [Hs Ha] Hu.
    apply imputation_source_usable in Hu.
    destruct Hfirst_total as [src Hsrc]. rewrite Hsrc.
    rewrite Hs, Ha. simpl andb. cbv iota. rewrite Hu. reflexivity.
  - intros c1 Hn [Hg Hi] Hu.
    apply imputation_source_usable in Hu.
    rewrite (Hsecond_off Hn).
    assert (Hb : (null_equivalent c || Nat.eqb (summary_strength c) 1)
                 && impute_nulls params = true).
    { rewrite Hi, andb_true_r. apply orb_true_iff.
      destruct Hg as [Hg|Hg]; [left; exact Hg|right; now apply Nat.eqb_eq]. }
    rewrite Hb, Hu. reflexivity.
  - intros Hn2 Hn1. rewrite (Hsecond_off Hn2).
    destruct ((null_equivalent c || Nat.eqb (summary_strength c) 1)
              && impute_nulls params) eqn:Hb; [|reflexivity].
    rewrite imputation_source_none; [reflexivity|assumption|].
    intros c' Hu. apply Hn1. split; [|eauto].
    apply andb_true_iff in Hb as [Hg Hi]. split; [|exact Hi].
    apply orb_true_iff in Hg as [Hg|Hg]; [left; exact Hg|right].
    now apply Nat.eqb_eq.
Qed.

Lemma sample_total_consistent k :
  is_Some (sample_total_dlc !! k) -> is_Some (sample_total_ndlc !! k).
Proof.
  unfold sample_total_dlc, sample_total_ndlc.
  rewrite !lookup_insert. repeat case_decide; eauto.
Qed.

Lemma sample_total_above k (c' : data_cell) :
  (k = 1 /\ c' = DataCell ["D4"] false false 1
   \/ k = 2 /\ c' = DataCell ["FW_D1"] false false 2) ->
  usable_source sample_total_rules sample_total_dlc sample_total_ndlc
    (5 - k) 1 c'.
Proof.
  intros [[-> ->]|[-> ->]].
  - split.
    + eexists. split; reflexivity.
    + exists (Q2Qc (1 # 2)), 0%Qc. repeat split.
  - split.
    + eexists. split; reflexivity.
    + exists (Q2Qc (1 # 2)), 0%Qc. repeat split.
Qed.

Lemma sample_total_is_aggregation : aggregation_row sample_total_row.
Proof. exists 0, (DataCell [] false true 1). split; reflexivity. Qed.

(** C6 (code).  On the cells [collect_dataframe_rules] emits and with
    [impute_nulls] on, the agreements and summary strength of a cell are
    replaced by those of the same column in the prior row exactly when the
    cell is null-equivalent or has summary strength at most [1] and the prior
    row was classified data; every other cell keeps its own.  The row two
    above is never used: the guard of lines 4315-4317 asks for summary
    strength [0] together with the aggregate flag of the cell itself, which
    no emitted cell has.  So a cell with an empty pattern in an aggregation
    row takes the agreements of the prior row also when the row two above
    was classified data. *)
Theorem two_rows_back_never_imputed (params : parameters)
    (drf : gmap Z data_row_rules) (dlc ndlc : gmap Z Qc)
    (row_index column_index : Z) (r : data_row_rules) (c : data_cell) :
  drf !! row_index = Some r ->
  data_cells r !! column_index = Some c ->
  (forall k, is_Some (dlc !! k) -> is_Some (ndlc !! k)) ->
  emitted_cell c ->
  impute_nulls params = true ->
  let candidate :=
    null_equivalent c = true \/ (summary_strength c <= 1)%nat in
  let above k c' := usable_source drf dlc ndlc (row_index - k) column_index c' in
  let result := imputed_agreements params drf dlc ndlc row_index column_index in
  (forall c1, candidate -> above 1 c1 ->
     result = Some (agreements c1, summary_strength c1))
  /\ (~ (candidate /\ exists c1, above 1 c1) ->
      result = Some (agreements c, summary_strength c))
  /\ (forall c1 c2, aggregation_row r -> summary_strength c = 0%nat ->
        above 1 c1 -> above 2 c2 ->
        result = Some (agreements c1, summary_strength c1)).
Proof.
  intros Hr Hc Hdom Hemitted Himpute candidate above result.
  destruct (imputed_agreements_guards params drf dlc ndlc row_index
              column_index r c Hr Hc Hdom) as (_ & Hfirst & Hown).
  assert (Hdead : ~ ((summary_strength c = 0%nat /\ aggregate c = true)
                     /\ exists c2, above 2 c2)).
  { intros [[Hs Ha] _]. destruct (Hemitted Hs) as [_ Hna]. congruence. }
  assert (Hguard : candidate <->
            (null_equivalent c = true \/ summary_strength c = 1%nat)).
  { subst candidate. split.
    - intros [Hn|Hs]; [now left|].
      destruct (decide (summary_strength c = 0%nat)) as [E|E]; [|right; lia].
      left. now destruct (Hemitted E).
    - intros [Hn|Hs]; [now left|right; lia]. }
  assert (Hprior : forall c1, candidate -> above 1 c1 ->
            result = Some (agreements c1, summary_strength c1)).
  { intros c1 Hcand Hab. apply Hfirst; [exact Hdead| |exact Hab].
    split; [now apply Hguard|exact Himpute]. }
  split; [exact Hprior|]. split.
  - intros Hno. apply Hown; [exact Hdead|].
    intros [[Hg _] Hex]. apply Hno. split; [now apply Hguard|exact Hex].
  - intros c1 c2 _ Hs Hab _. apply Hprior; [|exact Hab].
    subst candidate. right. lia.
Qed.

Lemma two_rows_back_never_imputed_witness :
  imputed_agreements sample_parameters sample_total_rules sample_total_dlc
    sample_total_ndlc 5 1
  = Some (agreements (DataCell ["D4"] false false 1),
          summary_strength (DataCell ["D4"] false false 1)).
Proof.
  refine (proj2 (proj2 (two_rows_back_never_imputed sample_parameters
            sample_total_rules sample_total_dlc sample_total_ndlc 5 1
            sample_total_row (DataCell [] true false 0)
            eq_refl eq_refl sample_total_consistent _ eq_refl))
            (DataCell ["D4"] false false 1)
            (DataCell ["FW_D1"] false false 2)
            sample_total_is_aggregation eq_refl _ _).
  - intros _. split; reflexivity.
  - apply sample_total_above. left. split; reflexivity.
  - apply sample_total_above. right. split; reflexivity.
Defined.

(** The failing input.  Row 5 of the sample is an aggregation row, its second
    cell has an empty pattern, and the row two above was classified data:
    the claim takes the agreements of row 3, the code those of row 4. *)
Lemma aggregation_row_looks_back_one_row :
  sample_total_rules !! 5 = Some sample_total_row
  /\ aggregation_row sample_total_row
  /\ data_cells sample_total_row !! 1 = Some (DataCell [] true false 0)
  /\ emitted_cell (DataCell [] true false 0)
  /\ usable_source sample_total_rules sample_total_dlc sample_total_ndlc
       (5 - 2) 1 (DataCell ["FW_D1"] false false 2)
  /\ imputed_agreements sample_parameters sample_total_rules sample_total_dlc
       sample_total_ndlc 5 1 = Some (["D4"], 1%nat)
  /\ imputed_agreements sample_parameters sample_total_rules sample_total_dlc
       sample_total_ndlc 5 1 <> Some (["FW_D1"], 2%nat).
Proof.
  split; [reflexivity|]. split; [apply sample_total_is_aggregation|].
  split; [reflexivity|]. split; [intros _; split; reflexivity|].
  split; [apply sample_total_above; right; split; reflexivity|].
  assert (H : imputed_agreements sample_parameters sample_total_rules
                sample_total_dlc sample_total_ndlc 5 1 = Some (["D4"], 1%nat))
    by (vm_compute; reflexivity).
  split; [exact H|]. rewrite H. discriminate.
Qed.

(** ** Line-rule weights in the evidence lists *)

Lemma appended_weight_Some R lb e w :
  appended_weight R lb e = Some w
  <-> exists r, R !! e = Some r /\ weight r = Some w /\ (lb < w)%Qc.
Proof.
  unfold appended_weight. split.
  - destruct (R !! e) as [r|]; [|discriminate].
    destruct (weight r) as [w0|] eqn:Hw; [|discriminate].
    destruct (Qcltb lb w0) eqn:Hlt; [|discriminate].
    intros H. inversion H; subst. apply Qcltb_lt in Hlt. eauto.
  - intros (r & -> & -> & Hlt). apply Qcltb_lt in Hlt. now rewrite Hlt.
Qed.

Lemma data_line_step_appended R lb acc e :
  is_Some (R !! e) ->
  data_line_step R lb acc e
  = Some (acc ++ option_list (appended_weight R lb e)).
Proof.
  intros [r Hr]. unfold data_line_step, appended_weight. rewrite Hr.
  destruct (weight r) as [w|]; simpl; [|now rewrite app_nil_r].
  destruct (Qcltb lb w); simpl; [reflexivity|now rewrite app_nil_r].
Qed.

Lemma for_events_data_line R lb fired acc :
  (forall e, e ∈ fired -> is_Some (R !! e)) ->
  for_events (data_line_step R lb) fired acc
  = Some (acc ++ omap (appended_weight R lb) fired).
Proof.
  revert acc. induction fired as [|e fired IH]; intros acc Hin; simpl.
  - now rewrite app_nil_r.
  - rewrite data_line_step_appended by (apply Hin; left).
    rewrite IH by (intros e' He'; apply Hin; now right).
    rewrite <- app_assoc. destruct (appended_weight R lb e); reflexivity.
Qed.

Lemma not_data_line_step_appended R lb before acc e :
  (String.prefix "ADJACENT_ARITHMETIC_SEQUENCE" e = true -> is_Some (R !! e)) ->
  not_data_line_step R lb before acc e
  = Some (acc ++ option_list (not_data_appended_weight R lb before e)).
Proof.
  intros Hin. unfold not_data_line_step, not_data_appended_weight.
  destruct (String.eqb e "UP_TO_FIRST_COLUMN_COMPLETE_CONSISTENTLY"
            && negb before); simpl; [now rewrite app_nil_r|].
  assert (Hs : exists e', scored_event R e = Some e').
  { unfold scored_event.
    destruct (String.prefix "ADJACENT_ARITHMETIC_SEQUENCE" e); [|eauto].
    destruct Hin as [r Hr]; [reflexivity|]. rewrite Hr.
    destruct (weight r); eauto. }
  destruct Hs as [e' ->]. unfold appended_weight.
  destruct (R !! e') as [r|]; simpl; [|now rewrite app_nil_r].
  destruct (weight r) as [w|]; simpl; [|now rewrite app_nil_r].
  destruct (Qcltb lb w); simpl; [reflexivity|now rewrite app_nil_r].
Qed.

Lemma for_events_not_data_line R lb before fired acc :
  (forall e, e ∈ fired ->
     String.prefix "ADJACENT_ARITHMETIC_SEQUENCE" e = true -> is_Some (R !! e)) ->
  for_events (not_data_line_step R lb before) fired acc
  = Some (acc ++ omap (not_data_appended_weight R lb before) fired).
Proof.
  revert acc. induction fired as [|e fired IH]; intros acc Hin; simpl.
  - now rewrite app_nil_r.
  - rewrite not_data_line_step_appended by (apply Hin; left).
    rewrite IH by (intros e' He'; apply Hin; now right).
    rewrite <- app_assoc.
    destruct (not_data_appended_weight R lb before e); reflexivity.
Qed.

(** C8 (amended).  With [weight_input = "values_and_lines"], the evidence
    lists are the cell scores followed, in firing order, by the weight of
    every fired line rule whose weight is not null and strictly greater than
    the lower bound of its class; a weight equal to the bound is not
    appended.  For line/not_data rules this needs more than one column, skips
    [UP_TO_FIRST_COLUMN_COMPLETE_CONSISTENTLY] once a data row was seen, and
    scores a null-weight arithmetic-sequence event as its successor. *)
Theorem line_weights_above_bound (params : parameters) (rules : fuzzy_rules)
    (n_columns : nat) (before : bool) (agr dis : list Qc)
    (d_fired nd_fired : list string) :
  weight_input params = "values_and_lines" ->
  (forall e, e ∈ d_fired -> is_Some (line_data rules !! e)) ->
  (forall e, e ∈ nd_fired ->
     String.prefix "ADJACENT_ARITHMETIC_SEQUENCE" e = true ->
     is_Some (line_not_data rules !! e)) ->
  line_is_data_evidence params rules agr d_fired
    = Some (agr ++ omap (appended_weight (line_data rules)
                           (weight_lower_bound params)) d_fired)
  /\ line_not_data_evidence params rules n_columns before dis nd_fired
    = Some (dis ++ if (1 <? n_columns)%nat
                   then omap (not_data_appended_weight (line_not_data rules)
                                (not_data_weight_lower_bound params) before)
                             nd_fired
                   else [])
  /\ (forall R lb e w,
        appended_weight R lb e = Some w
        <-> exists r, R !! e = Some r /\ weight r = Some w /\ (lb < w)%Qc)
  /\ (forall R lb e r w,
        R !! e = Some r -> weight r = Some w -> w = lb ->
        appended_weight R lb e = None).
Proof.
  intros Hwi Hd Hnd.
  unfold line_is_data_evidence, line_not_data_evidence. rewrite Hwi. simpl.
  split; [now apply for_events_data_line|]. split.
  - destruct (1 <? n_columns)%nat.
    + now apply for_events_not_data_line.
    + now rewrite app_nil_r.
  - split; [intros; apply appended_weight_Some|].
    intros R lb e r w Hr Hw ->. unfold appended_weight. rewrite Hr, Hw.
    assert (Hlt : Qcltb lb lb = false) by (apply Qcltb_ge, Qcle_refl).
    now rewrite Hlt.
Qed.

Lemma line_weights_above_bound_witness :
  line_is_data_evidence sample_parameters sample_rules [Q2Qc (1 # 2)]
    ["CONSISTENTLY_UPPER_CASE"; "ONE_NULL_EQUIVALENT_ON_LINE"]
  = Some ([Q2Qc (1 # 2)]
          ++ omap (appended_weight (line_data sample_rules)
                     (weight_lower_bound sample_parameters))
               ["CONSISTENTLY_UPPER_CASE"; "ONE_NULL_EQUIVALENT_ON_LINE"]).
Proof.
  refine (proj1 (line_weights_above_bound sample_parameters sample_rules
            3 true [Q2Qc (1 # 2)] []
            ["CONSISTENTLY_UPPER_CASE"; "ONE_NULL_EQUIVALENT_ON_LINE"]
            ["ADJACENT_ARITHMETIC_SEQUENCE_2"] eq_refl _ _)).
  - intros e He.
    repeat (apply elem_of_cons in He as [->|He]);
      [vm_compute; eauto .. | inversion He].
  - intros e He _.
    repeat (apply elem_of_cons in He as [->|He]);
      [vm_compute; eauto .. | inversion He].
Defined.

(** The claim as stated fails at the bound: a fired line/data rule whose
    weight equals [weight_lower_bound] and a fired line/not_data rule whose
    weight equals [not_data_weight_lower_bound] add nothing to the
    evidence. *)
Lemma line_weight_at_bound_not_appended :
  (weight <$> line_data sample_rules !! "ONE_NULL_EQUIVALENT_ON_LINE")
    = Some (Some (weight_lower_bound sample_parameters))
  /\ line_is_data_evidence sample_parameters sample_rules []
       ["ONE_NULL_EQUIVALENT_ON_LINE"] = Some []
  /\ (weight <$> line_not_data sample_rules !! "CONSISTENTLY_UPPER_CASE")
       = Some (Some (not_data_weight_lower_bound sample_parameters))
  /\ line_not_data_evidence sample_parameters sample_rules 3 true []
       ["CONSISTENTLY_UPPER_CASE"] = Some [].
Proof. repeat split; vm_compute; reflexivity. Qed.

Example line_not_data_evidence_sample :
  line_not_data_evidence sample_parameters sample_rules 3 true []
    ["ADJACENT_ARITHMETIC_SEQUENCE_2"; "CONSISTENTLY_UPPER_CASE"]
  = Some [Q2Qc (9 # 10)].
Proof. vm_compute. reflexivity. Qed.

(** ** The top-down walk *)

(** Membership in a list given by its elements. *)
Ltac in_list :=
  repeat first [ apply list_elem_of_here | apply list_elem_of_further ].

Ltac not_in_list :=
  rewrite ?not_elem_of_cons;
  repeat split; first [ apply not_elem_of_nil | discriminate | lia ].

Section WalkProperties.

Context (footnote_keywords : list string) {prediction : Type}
        (predict_line_label : Qc -> Qc -> prediction)
        (label : prediction -> string) {patterns : Type}
        (collect_line_rules :
           patterns -> Z -> Z -> nat ->
           option (gmap Z data_cell * gmap Z not_data_cell * patterns))
        (ctx : walk_context).

Local Abbreviation step :=
  (walk_step footnote_keywords predict_line_label label collect_line_rules ctx).
Local Abbreviation run :=
  (walk footnote_keywords predict_line_label label collect_line_rules ctx).

Lemma conclude_row_effect (st : walk_state prediction patterns)
    l line is_data dc ndc :
  l ∉ blank_lines ctx ->
  keeps_or_takes ctx st
    (state_of (conclude_row predict_line_label st l line is_data dc ndc)) l.
Proof.
  intros Hl. unfold conclude_row.
  destruct (bool_decide (l ∈ probation st)); [left; split; reflexivity|].
  destruct is_data; [right|left]; simpl; auto.
Qed.

Lemma walk_step_blank st l line :
  l ∈ blank_lines ctx -> line <> [] ->
  step st (l, line) = Some (Break (count_line st)).
Proof.
  intros Hl Hline. unfold walk_step. simpl.
  destruct line as [|c line]; [contradiction|]. simpl.
  now rewrite bool_decide_eq_true_2.
Qed.

Lemma walk_step_effect st row c :
  step st row = Some c -> keeps_or_takes ctx st (state_of c) row.1.
Proof.
  destruct row as [l line]. unfold walk_step. simpl.
  destruct (map str line) as [|v0 vs]; [discriminate|].
  destruct (bool_decide (l ∈ blank_lines ctx)) eqn:Hb.
  { intros H. inversion H. left. split; reflexivity. }
  apply bool_decide_eq_false in Hb.
  repeat match goal with
         | |- context [if ?b then _ else _] => destruct b
         end;
    try solve [ intros H; inversion H; subst; simpl;
                first [ left; split; reflexivity
                      | right; repeat split; solve [auto]
                      | exact (conclude_row_effect (count_line st)
                                 l line _ _ _ Hb) ] ].
  destruct (walk_confidences collect_line_rules ctx (count_line st) l)
    as [[[dc ndc] pats]|]; simpl; [|discriminate].
  destruct (classify_scored_row _ _ _ _ _ _ _ _) as [[| |]|];
    simpl; try discriminate; intros H; inversion H; subst.
  - exact (conclude_row_effect (set_patterns (count_line st) pats)
             l line _ _ _ Hb).
  - exact (conclude_row_effect
             (put_on_probation (set_patterns (count_line st) pats) l)
             l line _ _ _ Hb).
  - exact (conclude_row_effect (set_patterns (count_line st) pats)
             l line _ _ _ Hb).
Qed.

(** Rows above a blank row [b]: the walk ends at [b] at the latest, so the
    last data line and every accepted row stay above it. *)
Lemma walk_stops_at_blank pre b line post st st' :
  b ∈ blank_lines ctx ->
  (forall row, row ∈ pre -> row.1 < b) ->
  predicted_ldl st < b ->
  (forall l, l ∈ data_index st -> l < b) ->
  run (pre ++ (b, line) :: post) st = Some st' ->
  predicted_ldl st' < b /\ (forall l, l ∈ data_index st' -> l < b).
Proof.
  intros Hb. revert st.
  induction pre as [|row pre IH]; intros st Hpre Hldl Hdata; simpl.
  - destruct line as [|c line]; [discriminate|].
    rewrite walk_step_blank by (assumption || discriminate).
    intros H. inversion H; subst. simpl. auto.
  - destruct (step st row) as [c|] eqn:Hstep; [|discriminate].
    pose proof (walk_step_effect st row c Hstep) as Heff.
    assert (Hrow : row.1 < b) by (apply Hpre; left).
    assert (Hinv : predicted_ldl (state_of c) < b
                   /\ forall l, l ∈ data_index (state_of c) -> l < b).
    { destruct Heff as [[-> ->]|(-> & -> & _)]; [auto|].
      split; [assumption|].
      intros l Hl. apply elem_of_cons in Hl as [->|Hl]; auto. }
    destruct c as [st1|st1]; simpl in Hinv.
    + apply IH; [|tauto|tauto]. intros r Hr. apply Hpre. now right.
    + intros H. inversion H; subst. exact Hinv.
Qed.

End WalkProperties.

Lemma filter_labels (P : Z -> Prop) `{!forall l, Decision (P l)}
    (rs : list (Z * list cell)) :
  map fst (filter (fun row => P row.1) rs) = filter P (map fst rs).
Proof.
  induction rs as [|[l line] rs IH]; [reflexivity|].
  rewrite filter_cons. simpl. rewrite (filter_cons P l).
  destruct (decide (P l)); simpl; now rewrite IH.
Qed.

Lemma candidate_labels (ctx : walk_context) :
  map fst (rows (candidate_data ctx))
  = filter (fun l => predicted_fdl ctx <= l) (map fst (rows (dataframe ctx))).
Proof.
  unfold candidate_data, loc_from.
  destruct (max_attributes (ctx_parameters ctx)); simpl.
  - rewrite map_map. simpl.
    apply (filter_labels (fun l => predicted_fdl ctx <= l)).
  - apply (filter_labels (fun l => predicted_fdl ctx <= l)).
Qed.

Lemma StronglySorted_filter_lt (P : Z -> Prop) `{!forall l, Decision (P l)}
    (ls : list Z) :
  StronglySorted Z.lt ls -> StronglySorted Z.lt (filter P ls).
Proof.
  induction 1 as [|l ls Hs IH Hall]; [constructor|].
  rewrite filter_cons. destruct (decide (P l)); [|assumption].
  constructor; [assumption|].
  apply Forall_forall. intros x Hx. apply list_elem_of_filter in Hx as [_ Hx].
  rewrite Forall_forall in Hall. now apply Hall.
Qed.

Lemma sorted_rows_split (rs : list (Z * list cell)) (b : Z) :
  StronglySorted Z.lt (map fst rs) -> b ∈ map fst rs ->
  exists pre line post,
    rs = pre ++ (b, line) :: post /\ forall row, row ∈ pre -> row.1 < b.
Proof.
  induction rs as [|[l line] rs IH]; simpl; intros Hs Hb.
  - inversion Hb.
  - apply StronglySorted_inv in Hs as [Hs Hall].
    apply elem_of_cons in Hb as [->|Hb].
    + exists [], line, rs. split; [reflexivity|]. intros row Hrow. inversion Hrow.
    + destruct (IH Hs Hb) as (pre & line' & post & -> & Hpre).
      exists ((l, line) :: pre), line', post. split; [reflexivity|].
      intros row Hrow. apply elem_of_cons in Hrow as [->|Hrow]; [|auto].
      simpl. rewrite Forall_forall in Hall. apply Hall. exact Hb.
Qed.

Section AcceptanceProperties.

Context (footnote_keywords : list string) {prediction : Type}
        (predict_line_label : Qc -> Qc -> prediction)
        (label : prediction -> string) {patterns : Type}
        (collect_line_rules :
           patterns -> Z -> Z -> nat ->
           option (gmap Z data_cell * gmap Z not_data_cell * patterns))
        (ctx : walk_context).

Local Abbreviation step :=
  (walk_step footnote_keywords predict_line_label label collect_line_rules ctx).

Lemma score_test_spec (dc ndc : Qc) :
  Qcltb 0 dc && Qcleb ndc dc = true <-> (0 < dc)%Qc /\ (ndc <= dc)%Qc.
Proof. rewrite andb_true_iff, Qcltb_lt, Qcleb_le. tauto. Qed.

Lemma width_test_spec (st : walk_state prediction patterns) l line :
  (0 <? length (certain_data_widths st))%nat
  && Nat.eqb (non_empty_values line) (max_width (certain_data_widths st))
  && bool_decide (l - 1 ∈ data_index st) = true
  <-> certain_data_widths st <> []
      /\ non_empty_values line = max_width (certain_data_widths st)
      /\ (l - 1 ∈ data_index st).
Proof.
  rewrite !andb_true_iff, Nat.ltb_lt, Nat.eqb_eq, bool_decide_eq_true.
  assert (Hlen : (0 < length (certain_data_widths st))%nat
                 <-> certain_data_widths st <> []).
  { destruct (certain_data_widths st); simpl; split; intros H;
      try lia; congruence. }
  tauto.
Qed.

(** The verdict on a scored row is [IsData] exactly under the acceptance
    condition. *)
Lemma classify_scored_row_spec (st : walk_state prediction patterns)
    l line dc ndc :
  is_Some (data_confidence ctx !! l) ->
  is_Some (not_data_confidence ctx !! l) ->
  exists v,
    classify_scored_row predict_line_label label ctx st l line dc ndc = Some v
    /\ (v = IsData
        <-> acceptance_condition predict_line_label label ctx st l line dc ndc).
Proof.
  intros [fd Hfd] [fnd Hfnd].
  unfold classify_scored_row, acceptance_condition.
  destruct (Qcltb 0 dc && Qcleb ndc dc) eqn:Ha.
  { exists IsData. split; [reflexivity|]. split; [|reflexivity].
    intros _. left. now apply score_test_spec. }
  assert (Hna : ~ ((0 < dc)%Qc /\ (ndc <= dc)%Qc)).
  { intros H. apply score_test_spec in H. congruence. }
  match goal with |- context [if ?b then Some IsData else _] =>
    destruct b eqn:Hw end.
  { exists IsData. split; [reflexivity|]. split; [|reflexivity].
    intros _. right. left. now apply (width_test_spec st l line). }
  assert (Hnw : ~ (certain_data_widths st <> []
                   /\ non_empty_values line = max_width (certain_data_widths st)
                   /\ (l - 1 ∈ data_index st))).
  { intros H. apply (width_test_spec st l line) in H. congruence. }
  rewrite Hfd, Hfnd. simpl.
  assert (Hlabel : String.eqb (label (predict_line_label fd fnd)) "DATA" = true
                   <-> label (predict_line_label fd fnd) = "DATA")
    by apply String.eqb_eq.
  assert (Hthird :
    ((l - 1 ∉ probation st)
     /\ exists a b, Some fd = Some a /\ Some fnd = Some b
                    /\ label (predict_line_label a b) = "DATA")
    <-> (l - 1 ∉ probation st) /\ label (predict_line_label fd fnd) = "DATA").
  { split.
    - intros [Hp (a & b & Ea & Eb & Hl)]. inversion Ea; inversion Eb; subst. auto.
    - intros [Hp Hl]. split; [assumption|]. eauto. }
  destruct (bool_decide (l - 1 ∈ probation st)) eqn:Hp; simpl.
  - apply bool_decide_eq_true in Hp.
    exists NotData. split; [reflexivity|]. split; [discriminate|].
    intros [H|[H|H]]; [tauto|tauto|]. apply Hthird in H. tauto.
  - apply bool_decide_eq_false in Hp.
    destruct (String.eqb (label (predict_line_label fd fnd)) "DATA") eqn:Hl.
    + rewrite !andb_false_r. simpl.
      exists IsData. split; [reflexivity|]. split; [|reflexivity].
      intros _. right. right. apply Hthird. split; [assumption|].
      now apply Hlabel.
    + assert (Hnl : label (predict_line_label fd fnd) <> "DATA").
      { intros H. apply Hlabel in H. congruence. }
      simpl.
      destruct (negb (bool_decide (l - 1 ∈ blank_lines ctx)) && Qcltb dc ndc
                && true).
      * exists OnProbation. split; [reflexivity|]. split; [discriminate|].
        intros [H|[H|H]]; [tauto|tauto|]. apply Hthird in H. tauto.
      * exists NotData. split; [reflexivity|]. split; [discriminate|].
        intros [H|[H|H]]; [tauto|tauto|]. apply Hthird in H. tauto.
Qed.

Lemma conclude_row_accepts (st st0 : walk_state prediction patterns)
    l line dc ndc :
  l ∉ probation st ->
  predicted_ldl st = predicted_ldl st0 -> data_index st = data_index st0 ->
  accepted st0 l (conclude_row predict_line_label st l line true dc ndc).
Proof.
  intros Hp _ Hd. unfold conclude_row.
  rewrite bool_decide_eq_false_2 by assumption.
  eexists. split; [reflexivity|]. simpl. now rewrite Hd.
Qed.

Lemma conclude_row_rejects (st st0 : walk_state prediction patterns)
    l line dc ndc :
  data_index st = data_index st0 ->
  ~ accepted st0 l (conclude_row predict_line_label st l line false dc ndc).
Proof.
  intros Hd (st' & Hc & _ & Hdi). unfold conclude_row in Hc.
  destruct (bool_decide (l ∈ probation st)); inversion Hc; subst.
  simpl in Hdi. rewrite Hd in Hdi.
  apply (f_equal length) in Hdi. simpl in Hdi. lia.
Qed.

(** The tests a row passes before it is scored. *)
Lemma walk_step_scored (st : walk_state prediction patterns) l line :
  line <> [] ->
  l ∉ blank_lines ctx ->
  (3 <= line_counter st)%nat ->
  l ∉ aggregation_rows ctx ->
  l ∉ predicted_pat_sub_headers ctx ->
  footnote_row footnote_keywords ctx l line = false ->
  forallb isnull line = false ->
  string_in (join_row line) (headers_discovered ctx) = false ->
  step st (l, line) =
    '(data_conf, not_data_conf, patterns') ←
        walk_confidences collect_line_rules ctx (count_line st) l;
    verdict ← classify_scored_row predict_line_label label ctx
                (set_patterns (count_line st) patterns') l line
                data_conf not_data_conf;
    match verdict with
    | IsData =>
        Some (conclude_row predict_line_label
                (set_patterns (count_line st) patterns') l line true
                data_conf not_data_conf)
    | OnProbation =>
        Some (conclude_row predict_line_label
                (put_on_probation (set_patterns (count_line st) patterns') l)
                l line false data_conf not_data_conf)
    | NotData =>
        Some (conclude_row predict_line_label
                (set_patterns (count_line st) patterns') l line false
                data_conf not_data_conf)
    end.
Proof.
  intros Hline Hblank Hcount Hagg Hsub Hfoot Hnull Hhead.
  destruct line as [|c line]; [contradiction|].
  unfold footnote_row in Hfoot. unfold walk_step.
  cbn [fst snd map first_value_of] in *.
  rewrite (bool_decide_eq_false_2 _ Hblank).
  rewrite (bool_decide_eq_false_2 _ Hsub) in *.
  rewrite (bool_decide_eq_false_2 _ Hagg).
  cbn [andb orb negb] in *. rewrite Hfoot.
  assert (Hc : (line_counter (count_line st) <=? 3)%nat = false).
  { apply Nat.leb_gt. simpl. lia. }
  rewrite Hc. cbn [orb]. rewrite Hnull, Hhead. reflexivity.
Qed.

(** C1 (amended).  A non-blank row that is not ended as a footnote is
    treated as follows.  Beyond the first three rows of the walk, when it
    is not an aggregation row, not a promoted subheader, not entirely null
    and not a previously discovered header, it is accepted as data exactly
    when [data_conf > 0] and [data_conf >= not_data_conf], or its width
    equals the widest accepted row and the row just above was accepted, or
    the row above is not on probation and the first-data-line search
    labelled the row DATA.  Among the first three rows of the walk, or as
    an aggregation row, it is accepted provided it is not passed over as a
    promoted subheader. *)
Theorem scored_row_accepted_iff (st : walk_state prediction patterns)
    (l : Z) (line : list cell) :
  line <> [] ->
  l ∉ blank_lines ctx ->
  footnote_row footnote_keywords ctx l line = false ->
  (forall dc ndc pats,
     (3 <= line_counter st)%nat ->
     l ∉ aggregation_rows ctx ->
     l ∉ predicted_pat_sub_headers ctx ->
     forallb isnull line = false ->
     string_in (join_row line) (headers_discovered ctx) = false ->
     l ∉ probation st ->
     is_Some (data_confidence ctx !! l) ->
     is_Some (not_data_confidence ctx !! l) ->
     walk_confidences collect_line_rules ctx (count_line st) l
       = Some (dc, ndc, pats) ->
     exists c, step st (l, line) = Some c
               /\ (accepted st l c
                   <-> acceptance_condition predict_line_label label ctx
                         st l line dc ndc))
  /\ (subheader_row footnote_keywords ctx l line = false ->
      (line_counter st < 3)%nat \/ l ∈ aggregation_rows ctx ->
      exists c, step st (l, line) = Some c /\ accepted st l c).
Proof.
  intros Hline Hblank Hfoot. split.
  - intros dc ndc pats Hcount Hagg Hsub Hnull Hhead Hprob Hfd Hfnd Hconf.
    rewrite walk_step_scored by assumption. rewrite Hconf. simpl.
    destruct (classify_scored_row_spec
                (set_patterns (count_line st) pats) l line dc ndc Hfd Hfnd)
      as (v & Hv & Hiff).
    rewrite Hv. simpl.
    change (acceptance_condition predict_line_label label ctx
              (set_patterns (count_line st) pats) l line dc ndc)
      with (acceptance_condition predict_line_label label ctx
              st l line dc ndc) in Hiff.
    destruct v; eexists; (split; [reflexivity|]).
    + split; [intros _; now apply Hiff|]. intros _.
      now apply conclude_row_accepts.
    + split; [|intros H; apply Hiff in H; discriminate].
      intros H. exfalso. revert H. now apply conclude_row_rejects.
    + split; [|intros H; apply Hiff in H; discriminate].
      intros H. exfalso. revert H. now apply conclude_row_rejects.
  - intros Hsub Hforce.
    destruct line as [|c line]; [contradiction|].
    unfold footnote_row in Hfoot. unfold subheader_row in Hsub.
    unfold walk_step. cbn [fst snd map first_value_of] in *.
    rewrite (bool_decide_eq_false_2 _ Hblank).
    assert (Hsub' :
      bool_decide (l ∈ predicted_pat_sub_headers ctx)
      && negb (bool_decide (l ∈ predicted_pat_sub_headers ctx)
               && subheader_footnote footnote_keywords
                    (strip_quotes (lower (str c)))) = false).
    { destruct (bool_decide (l ∈ predicted_pat_sub_headers ctx));
        [|reflexivity]. simpl in *. exact Hsub. }
    rewrite Hsub', Hfoot.
    assert (Hc : (line_counter (count_line st) <=? 3)%nat
                 || bool_decide (l ∈ aggregation_rows ctx) = true).
    { apply orb_true_iff. destruct Hforce as [H|H].
      - left. apply Nat.leb_le. simpl. lia.
      - right. now apply bool_decide_eq_true. }
    rewrite Hc. eexists. split; [reflexivity|].
    eexists. split; [reflexivity|]. split; reflexivity.
Qed.

End AcceptanceProperties.

(** C10 (amended).  A row listed in [blank_lines] ends the walk as soon as
    it is reached, so no row at or below a blank row [b] of the frame is
    accepted; when the predicted first data line is not itself blank, the
    returned last data line is strictly smaller than every blank row at or
    after the first data line. *)
Theorem blank_row_ends_walk
    (footnote_keywords : list string) {prediction : Type}
    (predict_line_label : Qc -> Qc -> prediction)
    (label : prediction -> string) {patterns : Type}
    (collect_line_rules :
       patterns -> Z -> Z -> nat ->
       option (gmap Z data_cell * gmap Z not_data_cell * patterns))
    (ctx : walk_context) (new_patterns : patterns)
    {boundary_confidence : Type}
    (last_data_line_confidence : gmap Z prediction -> Z -> boundary_confidence)
    (b ldl : Z) (conf : boundary_confidence) :
  StronglySorted Z.lt (map fst (rows (dataframe ctx))) ->
  b ∈ blank_lines ctx ->
  b ∈ map fst (rows (dataframe ctx)) ->
  predicted_fdl ctx <= b ->
  predicted_fdl ctx ∉ blank_lines ctx ->
  predict_last_data_line_top_down footnote_keywords predict_line_label label
    collect_line_rules ctx new_patterns last_data_line_confidence
    = Some (ldl, conf) ->
  ldl < b
  /\ (exists st',
        walk footnote_keywords predict_line_label label collect_line_rules ctx
          (rows (candidate_data ctx)) (initial_walk_state ctx new_patterns)
          = Some st'
        /\ predicted_ldl st' = ldl
        /\ forall l, l ∈ data_index st' -> l < b)
  /\ (forall st line, line <> [] ->
        walk_step footnote_keywords predict_line_label label
          collect_line_rules ctx st (b, line) = Some (Break (count_line st))).
Proof.
  intros Hsorted Hb Hin Hfdl Hnot Hres.
  unfold predict_last_data_line_top_down in Hres.
  destruct (walk _ _ _ _ _ (rows (candidate_data ctx)) _) as [st'|] eqn:Hwalk;
    simpl in Hres; [|discriminate].
  inversion Hres; subst ldl conf. clear Hres.
  assert (Hcand : b ∈ map fst (rows (candidate_data ctx))).
  { rewrite candidate_labels. apply list_elem_of_filter. auto. }
  assert (Hcs : StronglySorted Z.lt (map fst (rows (candidate_data ctx)))).
  { rewrite candidate_labels.
    now apply (StronglySorted_filter_lt (fun l => predicted_fdl ctx <= l)). }
  destruct (sorted_rows_split _ b Hcs Hcand) as (pre & line & post & Hrows & Hpre).
  rewrite Hrows in Hwalk.
  assert (Hlt : predicted_fdl ctx < b).
  { destruct (decide (predicted_fdl ctx = b)) as [E|E]; [|lia].
    rewrite E in Hnot. contradiction. }
  destruct (walk_stops_at_blank footnote_keywords predict_line_label label
              collect_line_rules ctx pre b line post
              (initial_walk_state ctx new_patterns) st' Hb Hpre Hlt)
    as [Hldl Hdata]; [intros l Hl; inversion Hl|exact Hwalk|].
  split; [exact Hldl|]. split.
  - exists st'. auto.
  - intros st line' Hline'. now apply walk_step_blank.
Qed.

Lemma blank_row_ends_walk_witness :
  (3 < 4)
  /\ (exists st',
        walk sample_footnote_keywords sample_predict_line_label id
          sample_collect_line_rules (sample_walk_context 0)
          (rows (candidate_data (sample_walk_context 0)))
          (initial_walk_state (sample_walk_context 0) tt)
          = Some st'
        /\ predicted_ldl st' = 3
        /\ forall l, l ∈ data_index st' -> l < 4)
  /\ (forall st line, line <> [] ->
        walk_step sample_footnote_keywords sample_predict_line_label id
          sample_collect_line_rules (sample_walk_context 0) st (4, line)
        = Some (Break (count_line st))).
Proof.
  refine (blank_row_ends_walk sample_footnote_keywords
            sample_predict_line_label id sample_collect_line_rules
            (sample_walk_context 0) tt (fun _ _ => tt) 4 3 tt _ _ _ _ _ _).
  - simpl. repeat first [ apply SSorted_nil | apply SSorted_cons
                        | apply Forall_nil_2 | apply Forall_cons_2 | lia ].
  - simpl. in_list.
  - simpl. in_list.
  - simpl. lia.
  - simpl. not_in_list.
  - vm_compute. reflexivity.
Defined.

(** The claim as stated fails when the predicted first data line is itself
    a blank row: the walk ends at once and returns that row, which is the
    first blank row at or after the first data line. *)
Lemma blank_first_data_line_returned :
  4 ∈ blank_lines (sample_walk_context 4)
  /\ predicted_fdl (sample_walk_context 4) = 4
  /\ fst <$> predict_last_data_line_top_down sample_footnote_keywords
               sample_predict_line_label id sample_collect_line_rules
               (sample_walk_context 4) tt (fun _ _ => tt)
     = Some 4
  /\ ~ (4 < 4).
Proof.
  split; [simpl; in_list|]. split; [reflexivity|].
  split; [vm_compute; reflexivity|lia].
Qed.

Lemma sample_row_confidences :
  walk_confidences sample_collect_line_rules (sample_walk_context 0)
    (count_line sample_walk_state) 3
  = Some (sample_data_conf, sample_not_data_conf, tt).
Proof. vm_compute. reflexivity. Qed.

Lemma sample_not_data_conf_zero : sample_not_data_conf = 0%Qc.
Proof. apply Qc_is_canon. vm_compute. reflexivity. Qed.

Lemma scored_row_accepted_iff_witness :
  exists c,
    walk_step sample_footnote_keywords sample_predict_line_label id
      sample_collect_line_rules (sample_walk_context 0) sample_walk_state
      (3, [Str "dave"; Str "52"]) = Some c
    /\ (accepted sample_walk_state 3 c
        <-> acceptance_condition sample_predict_line_label id
              (sample_walk_context 0) sample_walk_state 3
              [Str "dave"; Str "52"] sample_data_conf sample_not_data_conf).
Proof.
  refine (proj1 (scored_row_accepted_iff sample_footnote_keywords
                   sample_predict_line_label id sample_collect_line_rules
                   (sample_walk_context 0) sample_walk_state 3
                   [Str "dave"; Str "52"] _ _ _)
            sample_data_conf sample_not_data_conf tt _ _ _ _ _ _ _ _
            sample_row_confidences).
  - discriminate.
  - simpl. not_in_list.
  - vm_compute. reflexivity.
  - simpl. lia.
  - simpl. apply not_elem_of_nil.
  - simpl. apply not_elem_of_nil.
  - reflexivity.
  - vm_compute. reflexivity.
  - simpl. apply not_elem_of_nil.
  - vm_compute. eauto.
  - vm_compute. eauto.
Defined.

(** The claim as stated fails for a row with data evidence and no not-data
    evidence: row 3 of the sample grid comes after the first three rows, is
    not blank, not an aggregation row, not a subheader, not a known header
    and no footnote; it is accepted although [not_data_conf] is [0], so
    [data_conf >= not_data_conf > 0] does not hold. *)
Lemma accepted_without_not_data_evidence :
  walk_confidences sample_collect_line_rules (sample_walk_context 0)
    (count_line sample_walk_state) 3
  = Some (sample_data_conf, sample_not_data_conf, tt)
  /\ (exists c,
        walk_step sample_footnote_keywords sample_predict_line_label id
          sample_collect_line_rules (sample_walk_context 0) sample_walk_state
          (3, [Str "dave"; Str "52"]) = Some c
        /\ accepted sample_walk_state 3 c)
  /\ ~ ((sample_not_data_conf <= sample_data_conf)%Qc
        /\ (0 < sample_not_data_conf)%Qc).
Proof.
  split; [exact sample_row_confidences|]. split.
  - eexists. split; [vm_compute; reflexivity|].
    eexists. split; [reflexivity|]. split; reflexivity.
  - rewrite sample_not_data_conf_zero. intros [_ H].
    apply Qclt_not_le in H. apply H, Qcle_refl.
Qed.

(** ** Incremental context summaries *)

Section SummaryProperties.

Context {pattern_summary symbol_summary case_summary length_summary : Type}
  (generate_pattern_summary : list (list (string * nat)) -> pattern_summary)
  (generate_symbol_summary : list (list string) -> symbol_summary)
  (generate_case_summary : list string -> case_summary)
  (generate_length_summary : list nat -> length_summary)
  (train_incremental_pattern :
     pattern_summary -> list (string * nat) -> pattern_summary)
  (symbolset_incremental_pattern :
     symbol_summary -> list string -> symbol_summary)
  (case_incremental_pattern : case_summary -> string -> case_summary)
  (charlength_incremental_pattern : length_summary -> nat -> length_summary).

Local Abbreviation batch :=
  (Patterns.not_data_window_summary generate_pattern_summary
     generate_symbol_summary generate_case_summary generate_length_summary).
Local Abbreviation increment :=
  (Patterns.not_data_increment train_incremental_pattern
     symbolset_incremental_pattern case_incremental_pattern
     charlength_incremental_pattern).

(** The incremental update never changes the counter. *)
Lemma not_data_increment_keeps_strength summary signatures_slice summary' :
  increment summary signatures_slice = Some summary' ->
  Patterns.disagreement_summary_strength summary'
  = Patterns.disagreement_summary_strength summary.
Proof.
  unfold Patterns.not_data_increment.
  destruct signatures_slice as [|c [|last rest]]; try discriminate.
  intros H. inversion H. reflexivity.
Qed.

(** The batch counter grows with every non-empty train that enters the
    window. *)
Lemma batch_strength_grows candidate last window :
  (0 < length (train_normalized_numbers last))%nat ->
  Patterns.disagreement_summary_strength (batch (candidate :: last :: window))
  = S (Patterns.disagreement_summary_strength (batch (last :: window))).
Proof.
  intros Hlen. unfold Patterns.not_data_window_summary,
    Patterns.not_data_initialize, Patterns.count_non_empty. simpl.
  rewrite filter_cons. destruct (decide _); [reflexivity|contradiction].
Qed.

(** C4 (code).  On a column of three-digit numbers, extending the not-data
    window [[100]] of candidate [200] by the row [200], for candidate
    [300], leaves [disagreement_summary_strength] at [1], while the batch
    summary of the extended window [[200; 100]] has strength [2]. *)
Theorem disagreement_strength_not_incremented :
  Patterns.disagreement_summary_strength
    <$> increment
          (batch [sample_signatures "200"; sample_signatures "100"])
          [sample_signatures "300"; sample_signatures "200";
           sample_signatures "100"]
  = Some 1%nat
  /\ Patterns.disagreement_summary_strength
       (batch [sample_signatures "300"; sample_signatures "200";
               sample_signatures "100"])
     = 2%nat.
Proof. split; reflexivity. Qed.

End SummaryProperties.

(** ** Merging of adjacent tables *)

Lemma elem_of_range a b r : r ∈ range a b <-> a <= r < b.
Proof. unfold range. rewrite elem_of_seqZ. lia. Qed.

Lemma elem_of_rows_above_data t r :
  r ∈ rows_above_data t <-> top_boundary t <= r < data_start t /\ r ∉ header t.
Proof.
  unfold rows_above_data. rewrite list_elem_of_filter, elem_of_range. tauto.
Qed.

Lemma merge_condition_spec blank_lines previous discovered :
  merge_condition blank_lines previous discovered = true
  <-> forall r, data_end previous < r < data_start discovered ->
        r ∈ blank_lines
        \/ (top_boundary discovered <= r /\ r ∉ header discovered).
Proof.
  unfold merge_condition. rewrite forallb_forall. split.
  - intros H r Hr.
    assert (Hin : r ∈ range (data_end previous + 1) (data_start discovered))
      by (apply elem_of_range; lia).
    apply list_elem_of_In, H, bool_decide_eq_true, elem_of_app in Hin.
    destruct Hin as [Hin|Hin]; [now left|right].
    apply elem_of_rows_above_data in Hin. tauto.
  - intros H r Hr. apply list_elem_of_In, elem_of_range in Hr.
    apply bool_decide_eq_true, elem_of_app.
    destruct (H r) as [Hb|[Ht Hh]]; [lia|now left|right].
    apply elem_of_rows_above_data. split; [lia|assumption].
Qed.

Lemma lookup_mark_rows (rows : list Z) (base : gmap Z scope) k :
  foldr (fun subheader m => <[subheader := EmptyDict]> m) base rows !! k
  = if decide (k ∈ rows) then Some EmptyDict else base !! k.
Proof.
  induction rows as [|r rows IH]; simpl.
  - destruct (decide (k ∈ [])) as [H|_]; [inversion H|reflexivity].
  - destruct (decide (r = k)) as [->|Hne].
    + rewrite lookup_insert_eq.
      destruct (decide (k ∈ k :: rows)) as [_|H]; [reflexivity|].
      exfalso. apply H. left.
    + rewrite lookup_insert_ne by assumption. rewrite IH.
      destruct (decide (k ∈ rows)) as [Hin|Hin];
        destruct (decide (k ∈ r :: rows)) as [Hin'|Hin']; try reflexivity.
      * exfalso. apply Hin'. now right.
      * apply elem_of_cons in Hin' as [->|Hin']; contradiction.
Qed.

(** C7 (amended).  In [extract_tables] a newly discovered table is merged
    into the table stored last exactly when every row strictly between that
    table's [data_end] and the new table's [data_start] is a blank row or a
    row of the new table, from its top boundary on, that is not one of its
    header rows.  The merged table takes the [data_end] of the tail table,
    maps each such non-header row above the tail's data to an empty scope,
    has otherwise the union of the two subheader scopes and has the union of
    the two aggregation scopes, the tail table winning on a shared key. *)
Theorem merge_decision_and_result (blank_lines : list Z) (previous found : table) :
  (merge_condition blank_lines previous found = true
   <-> forall r, data_end previous < r < data_start found ->
         r ∈ blank_lines \/ (top_boundary found <= r /\ r ∉ header found))
  /\ (forall discover_next_table row_text n_rows st,
        discover_next_table (data_end previous + 1)
          (Extract.table_counter st + 1)
          (Extract.record_headers row_text (Extract.headers_discovered st)
             previous)
        = Some found ->
        let result :=
          Extract.iteration discover_next_table row_text n_rows blank_lines
            st previous in
        if merge_condition blank_lines previous found
        then result.2 = Some (Extract.close_current n_rows
                                (merge_tables previous found))
             /\ Extract.table_counter result.1 = Extract.table_counter st
        else result.2 = Some (Extract.close_current n_rows found)
             /\ Extract.table_counter result.1 = Extract.table_counter st + 1)
  /\ data_end (merge_tables previous found) = data_end found
  /\ (forall k,
        subheader_scope (merge_tables previous found) !! k
        = if decide (k ∈ rows_above_data found) then Some EmptyDict
          else match subheader_scope found !! k with
               | Some s => Some s
               | None => subheader_scope previous !! k
               end)
  /\ (forall k,
        aggregation_scope (merge_tables previous found) !! k
        = match aggregation_scope found !! k with
          | Some a => Some a
          | None => aggregation_scope previous !! k
          end).
Proof.
  split; [apply merge_condition_spec|]. split.
  - intros discover row_text n_rows st Hfound. unfold Extract.iteration.
    cbv zeta. rewrite Hfound.
    destruct (merge_condition blank_lines previous found); simpl.
    + split; [reflexivity|lia].
    + split; reflexivity.
  - split; [reflexivity|]. split.
    + intros k. simpl. rewrite lookup_mark_rows.
      destruct (decide (k ∈ rows_above_data found)); [reflexivity|].
      rewrite lookup_union.
      destruct (subheader_scope found !! k), (subheader_scope previous !! k);
        reflexivity.
    + intros k. simpl. rewrite lookup_union.
      destruct (aggregation_scope found !! k), (aggregation_scope previous !! k);
        reflexivity.
Qed.

Lemma merge_decision_and_result_witness :
  (Extract.iteration sample_discover (fun _ => "") 8 [] sample_extract_state
     sample_head).2
  = Some (Extract.close_current 8 (merge_tables sample_head sample_tail))
  /\ Extract.table_counter
       (Extract.iteration sample_discover (fun _ => "") 8 []
          sample_extract_state sample_head).1
     = Extract.table_counter sample_extract_state.
Proof.
  exact (proj1 (proj2 (merge_decision_and_result [] sample_head sample_tail))
           sample_discover (fun _ => "") 8 sample_extract_state eq_refl).
Defined.

(** The claim as stated fails on the sample tables: row 4, the only row
    between the first table's [data_end] and the second table's
    [data_start], is neither blank nor a subheader of the first table, yet
    the tables are merged; and the merged subheader scope holds row 4, which
    is in neither of the two scopes. *)
Lemma merge_without_blank_or_subheader :
  merge_condition [] sample_head sample_tail = true
  /\ data_end sample_head < 4 < data_start sample_tail
  /\ (4 ∉ ([] : list Z))
  /\ subheader_scope sample_head !! 4 = None
  /\ subheader_scope (merge_tables sample_head sample_tail) !! 4 = Some EmptyDict
  /\ (subheader_scope sample_tail ∪ subheader_scope sample_head) !! 4 = None.
Proof.
  split; [reflexivity|]. split; [simpl; lia|].
  split; [apply not_elem_of_nil|]. repeat split; reflexivity.
Qed.

(** ** Scopes of subheaders *)

Lemma scope_end_Some last_row subheaders k e :
  scope_end last_row subheaders k = Some e -> k ∈ subheaders.
Proof.
  induction subheaders as [|s later IH]; simpl; [discriminate|].
  destruct (Z.eqb_spec s k) as [->|Hne]; [left|].
  intros H. right. now apply IH.
Qed.

Lemma scope_end_elem last_row subheaders k :
  k ∈ subheaders -> is_Some (scope_end last_row subheaders k).
Proof.
  induction subheaders as [|s later IH]; simpl; intros Hk; [inversion Hk|].
  destruct (Z.eqb_spec s k) as [->|Hne]; [eauto|].
  apply elem_of_cons in Hk as [->|Hk]; [contradiction|auto].
Qed.

Lemma scope_end_fresh last_row subheaders k :
  k ∉ subheaders -> scope_end last_row subheaders k = None.
Proof.
  intros Hk. destruct (scope_end last_row subheaders k) eqn:E; [|reflexivity].
  apply scope_end_Some in E. contradiction.
Qed.

Lemma sorted_head_fresh (s : Z) (later : list Z) :
  StronglySorted Z.lt (s :: later) -> s ∉ later.
Proof.
  intros Hs Hin. apply StronglySorted_inv in Hs as [_ Hall].
  rewrite Forall_forall in Hall. specialize (Hall s Hin). lia.
Qed.

(** On an increasing list of subheaders none of which has a scope yet, the
    loop gives every subheader the rows up to the next one. *)
Lemma assign_scopes_lookup last_row subheaders (m : gmap Z scope) k :
  StronglySorted Z.lt subheaders ->
  (forall s, s ∈ subheaders -> m !! s = None) ->
  assign_scopes last_row subheaders m !! k
  = match scope_end last_row subheaders k with
    | Some e => Some (ScopeRows (range (k + 1) e))
    | None => m !! k
    end.
Proof.
  revert m. induction subheaders as [|s later IH]; intros m Hs Hfresh;
    [reflexivity|].
  pose proof (sorted_head_fresh s later Hs) as Hs_later.
  apply StronglySorted_inv in Hs as [Hlater _].
  cbn [assign_scopes scope_end]. rewrite (Hfresh s) by left.
  set (e := match later with [] => last_row + 1 | n :: _ => n end).
  assert (Hstep :
    match later with
    | [] => <[s := ScopeRows (range (s + 1) (last_row + 1))]> m
    | _ :: _ =>
        match next_unscoped m later with
        | Some next_subh => <[s := ScopeRows (range (s + 1) next_subh)]> m
        | None => m
        end
    end = <[s := ScopeRows (range (s + 1) e)]> m).
  { subst e. destruct later as [|n later']; [reflexivity|]. simpl.
    rewrite (Hfresh n) by (right; left). reflexivity. }
  rewrite Hstep. rewrite IH; [|assumption|].
  - destruct (Z.eqb_spec s k) as [->|Hne].
    + rewrite scope_end_fresh by assumption. apply lookup_insert_eq.
    + destruct (scope_end last_row later k); [reflexivity|].
      now apply lookup_insert_ne.
  - intros s' Hs'. rewrite lookup_insert_ne.
    + apply Hfresh. now right.
    + intros ->. contradiction.
Qed.

(** In an increasing list the scopes partition the rows below the first
    subheader that are not subheaders themselves. *)
Lemma covers_partition last_row subheaders r :
  StronglySorted Z.lt subheaders ->
  r ∉ subheaders -> r <= last_row ->
  (exists s, s ∈ subheaders /\ s < r) ->
  exists k, covers last_row subheaders k r
            /\ forall k', covers last_row subheaders k' r -> k' = k.
Proof.
  induction subheaders as [|s later IH]; intros Hs Hr Hlast Hbelow.
  - destruct Hbelow as (s & Hin & _). inversion Hin.
  - pose proof (sorted_head_fresh s later Hs) as Hs_later.
    pose proof Hs as Hs0.
    apply StronglySorted_inv in Hs as [Hlater Hall].
    rewrite Forall_forall in Hall.
    apply not_elem_of_cons in Hr as [Hrs Hr].
    assert (Hcov : forall k', covers last_row (s :: later) k' r ->
              (k' = s /\ s + 1 <= r
               /\ r < match later with [] => last_row + 1 | n :: _ => n end)
              \/ (k' <> s /\ covers last_row later k' r)).
    { intros k' (e & He & Hrange). simpl in He.
      destruct (Z.eqb_spec s k') as [->|Hne].
      - left. inversion He; subst. repeat split; lia.
      - right. split; [congruence|]. exists e. auto. }
    destruct later as [|n later'].
    + destruct Hbelow as (s' & Hin & Hlt).
      apply list_elem_of_singleton in Hin. subst s'.
      exists s. split.
      * exists (last_row + 1). simpl. rewrite Z.eqb_refl. split; [reflexivity|lia].
      * intros k' Hk'. destruct (Hcov k' Hk') as [[-> _]|[_ (e & He & _)]];
          [reflexivity|discriminate].
    + destruct (Z_lt_le_dec r n) as [Hrn|Hrn].
      * assert (Hsr : s < r).
        { destruct Hbelow as (s' & Hin & Hlt).
          apply elem_of_cons in Hin as [->|Hin]; [assumption|].
          assert (n <= s').
          { apply elem_of_cons in Hin as [->|Hin]; [lia|].
            apply StronglySorted_inv in Hlater as [_ Hall'].
            rewrite Forall_forall in Hall'. specialize (Hall' s' Hin). lia. }
          lia. }
        exists s. split.
        -- exists n. simpl. rewrite Z.eqb_refl. split; [reflexivity|lia].
        -- intros k' Hk'.
           destruct (Hcov k' Hk') as [[-> _]|[_ (e & He & Hrange)]];
             [reflexivity|].
           apply scope_end_Some in He.
           assert (n <= k').
           { apply elem_of_cons in He as [->|He]; [lia|].
             apply StronglySorted_inv in Hlater as [_ Hall'].
             rewrite Forall_forall in Hall'. specialize (Hall' k' He). lia. }
           lia.
      * assert (Hnr : n < r).
        { destruct (decide (r = n)) as [->|Hne]; [|lia].
          exfalso. apply Hr. left. }
        destruct (IH Hlater Hr Hlast) as (k & Hk & Huniq).
        { exists n. split; [left|assumption]. }
        exists k. split.
        -- destruct Hk as (e & He & Hrange). exists e. split; [|assumption].
           simpl. destruct (Z.eqb_spec s k) as [->|Hne]; [|exact He].
           apply scope_end_Some in He. contradiction.
        -- intros k' Hk'.
           destruct (Hcov k' Hk') as [(-> & _ & Hlt)|[_ Hc]]; [lia|].
           now apply Huniq.
Qed.

Example sample_scopes :
  assign_scopes 12 [7; 11] ∅ !! 7 = Some (ScopeRows [8; 9; 10])
  /\ assign_scopes 12 [7; 11] ∅ !! 11 = Some (ScopeRows [12]).
Proof. split; reflexivity. Qed.

Lemma close_current_scope n_rows t :
  subheader_scope (Extract.close_current n_rows t) = subheader_scope t.
Proof.
  unfold Extract.close_current.
  destruct (data_end t <? n_rows - 1); cbn [footnotes set_footnotes];
    match goal with |- context [last ?l] => destruct (last l) end; reflexivity.
Qed.

Lemma close_current_data n_rows t :
  data_start (Extract.close_current n_rows t) = data_start t
  /\ data_end (Extract.close_current n_rows t) = data_end t.
Proof.
  unfold Extract.close_current.
  destruct (data_end t <? n_rows - 1); cbn [footnotes set_footnotes];
    match goal with |- context [last ?l] => destruct (last l) end;
    split; reflexivity.
Qed.

Lemma sample_merged_scope k :
  subheader_scope (merge_tables sample_head sample_tail) !! k
  = if decide (k = 4) then Some EmptyDict else None.
Proof.
  cbn [merge_tables subheader_scope]. rewrite lookup_mark_rows.
  destruct (decide (k ∈ rows_above_data sample_tail)) as [Hin|Hin];
    destruct (decide (k = 4)) as [->|Hne]; try reflexivity.
  - apply elem_of_rows_above_data in Hin. simpl in Hin. lia.
  - exfalso. apply Hin, elem_of_rows_above_data. simpl.
    split; [lia|apply not_elem_of_nil].
Qed.

Lemma merge_tables_scope (table_head table_tail : table) (k : Z) :
  subheader_scope (merge_tables table_head table_tail) !! k
  = if decide (k ∈ rows_above_data table_tail) then Some EmptyDict
    else match subheader_scope table_tail !! k with
         | Some s => Some s
         | None => subheader_scope table_head !! k
         end.
Proof.
  simpl. rewrite lookup_mark_rows.
  destruct (decide (k ∈ rows_above_data table_tail)); [reflexivity|].
  rewrite lookup_union.
  destruct (subheader_scope table_tail !! k), (subheader_scope table_head !! k);
    reflexivity.
Qed.

(** C9 (code).  [merge_tables] makes every non-header row [p] between the
    tail record's [top_boundary] and [data_start] a key of [subheader_scope]
    with the empty scope [dict()], and it puts no row into a scope.  So a
    data row [r] of the tail record that was in no scope before the merge is
    in the merged record a row inside [[data_start, data_end]], below the
    key [p], not a key itself, and in the scope of no key, where the claim
    asks for exactly one. *)
Theorem merge_leaves_rows_unscoped (table_head table_tail : table) (p r : Z) :
  p ∈ rows_above_data table_tail ->
  data_start table_head <= top_boundary table_tail ->
  data_start table_tail <= r <= data_end table_tail ->
  subheader_scope table_head !! r = None ->
  subheader_scope table_tail !! r = None ->
  (forall k, ~ in_scope_of (subheader_scope table_head) k r) ->
  (forall k, ~ in_scope_of (subheader_scope table_tail) k r) ->
  let merged := merge_tables table_head table_tail in
  subheader_scope merged !! p = Some EmptyDict
  /\ data_start merged <= p < r
  /\ r <= data_end merged
  /\ subheader_scope merged !! r = None
  /\ forall k, ~ in_scope_of (subheader_scope merged) k r.
Proof.
  intros Hp Horder Hr Hhead Htail Hno_head Hno_tail merged. subst merged.
  pose proof (proj1 (elem_of_rows_above_data _ _) Hp) as [Hrange Hheader].
  split; [|split; [|split; [|split]]].
  - rewrite merge_tables_scope. now rewrite decide_True by assumption.
  - simpl. lia.
  - simpl. lia.
  - rewrite merge_tables_scope. rewrite decide_False.
    + now rewrite Htail.
    + rewrite elem_of_rows_above_data. lia.
  - intros k (s & Hs & Hin). rewrite merge_tables_scope in Hs.
    destruct (decide (k ∈ rows_above_data table_tail)).
    + inversion Hs; subst. inversion Hin.
    + destruct (subheader_scope table_tail !! k) as [s'|] eqn:Et.
      * inversion Hs; subst. apply (Hno_tail k). exists s. auto.
      * apply (Hno_head k). exists s. auto.
Qed.

Lemma merge_leaves_rows_unscoped_witness :
  subheader_scope (merge_tables sample_head sample_tail) !! 4 = Some EmptyDict
  /\ data_start (merge_tables sample_head sample_tail) <= 4 < 5
  /\ 5 <= data_end (merge_tables sample_head sample_tail)
  /\ subheader_scope (merge_tables sample_head sample_tail) !! 5 = None
  /\ forall k,
       ~ in_scope_of (subheader_scope (merge_tables sample_head sample_tail)) k 5.
Proof.
  apply (merge_leaves_rows_unscoped sample_head sample_tail 4 5).
  - apply elem_of_rows_above_data. simpl. split; [lia|apply not_elem_of_nil].
  - simpl. lia.
  - simpl. lia.
  - reflexivity.
  - reflexivity.
  - intros k (s & Hs & _). simpl in Hs. rewrite lookup_empty in Hs. discriminate.
  - intros k (s & Hs & _). simpl in Hs. rewrite lookup_empty in Hs. discriminate.
Defined.

(** The failing input: the two sample tables, the second found right below
    the first with one non-header row above its data.  [extract_tables]
    merges them, and in the record it keeps row 4 is a key with an empty
    scope while the rows 5 to 7 below it are in no scope. *)
Lemma merged_scopes_do_not_partition :
  (Extract.iteration sample_discover (fun _ => "") 8 [] sample_extract_state
     sample_head).2
  = Some (Extract.close_current 8 (merge_tables sample_head sample_tail))
  /\ subheader_scope
       (Extract.close_current 8 (merge_tables sample_head sample_tail)) !! 4
     = Some EmptyDict
  /\ forall r, 5 <= r <= 7 ->
       data_start (Extract.close_current 8 (merge_tables sample_head sample_tail))
         <= 4 < r
       /\ r <= data_end
                (Extract.close_current 8 (merge_tables sample_head sample_tail))
       /\ subheader_scope
            (Extract.close_current 8 (merge_tables sample_head sample_tail)) !! r
          = None
       /\ forall k,
            ~ in_scope_of
                (subheader_scope
                   (Extract.close_current 8
                      (merge_tables sample_head sample_tail))) k r.
Proof.
  destruct (close_current_data 8 (merge_tables sample_head sample_tail))
    as [Hstart Hend].
  rewrite close_current_scope, Hstart, Hend.
  split; [reflexivity|]. split; [now rewrite sample_merged_scope|].
  intros r Hr. split; [simpl; lia|]. split; [simpl; lia|]. split.
  - rewrite sample_merged_scope. rewrite decide_False by lia. reflexivity.
  - intros k (s & Hs & Hin). rewrite sample_merged_scope in Hs.
    destruct (decide (k = 4)); [|discriminate].
    inversion Hs; subst. inversion Hin.
Qed.

(** ** Evidence scores stay in the range of the weights *)

Ltac qc_to_q :=
  unfold Qcle, Qclt in *; cbn [this Qcmult Qcplus Qcminus Qcopp Q2Qc] in *;
  rewrite ?Qred_correct in *.

Lemma product_at_most_one (s w : Qc) :
  (s <= 1)%Qc -> (0 <= w)%Qc -> (w <= 1)%Qc -> (s * w <= 1)%Qc.
Proof. intros Hs H0 H1. qc_to_q. nra. Qed.

Lemma power_in_unit_interval (x : Qc) (n : nat) :
  (0 <= x)%Qc -> (x <= 1)%Qc -> (0 <= x ^ n)%Qc /\ (x ^ n <= 1)%Qc.
Proof.
  intros H0 H1. induction n as [|n [IH0 IH1]]; simpl.
  - split; qc_to_q; lra.
  - split; [now apply Qcmult_nonneg_nonneg|now apply product_at_most_one].
Qed.

Lemma population_weight_range params strength :
  (0 <= p params)%Qc -> (p params <= 1)%Qc ->
  (0 <= population_weight params strength)%Qc
  /\ (population_weight params strength <= 1)%Qc.
Proof.
  intros H0 H1. unfold population_weight.
  destruct (power_in_unit_interval (1 - p params) (2 * strength)) as [Hp0 Hp1].
  - qc_to_q. lra.
  - qc_to_q. lra.
  - revert Hp0 Hp1. generalize ((1 - p params) ^ (2 * strength))%Qc.
    intros q Hq0 Hq1. qc_to_q. split; lra.
Qed.

Lemma cell_score_at_most_one params score strength :
  (0 <= p params)%Qc -> (p params <= 1)%Qc -> (score <= 1)%Qc ->
  (cell_score params score strength <= 1)%Qc.
Proof.
  intros H0 H1 Hs. unfold cell_score.
  destruct (summary_population_factor params); [|assumption].
  destruct (population_weight_range params strength H0 H1).
  now apply product_at_most_one.
Qed.

Lemma max_score_at_most_one E R lb s :
  weights_at_most_one R -> max_score E R lb = Some s -> (s <= 1)%Qc.
Proof.
  intros HR. rewrite max_score_unfold.
  destruct (event_scores E R lb) as [l|] eqn:Hl; [|discriminate].
  destruct (sort_desc l) as [|[e w] rest] eqn:Hs; intros H; inversion H; subst.
  - qc_to_q. lra.
  - assert (Hin : (e, s) ∈ l) by (apply sort_desc_elem; rewrite Hs; left).
    destruct (event_scores_sound _ _ _ _ _ _ Hl Hin) as [_ (r & Hr & Hw & _)].
    exact (HR e r s Hr Hw).
Qed.

Lemma cell_evidence_at_most_one params rules drf ndrf dlc ndlc row_index
    column_indexes agr dis agr' dis' :
  (0 <= p params)%Qc -> (p params <= 1)%Qc ->
  weights_at_most_one (cell_data rules) ->
  weights_at_most_one (cell_not_data rules) ->
  at_most_one agr -> at_most_one dis ->
  cell_evidence params rules drf ndrf dlc ndlc row_index column_indexes agr dis
    = Some (agr', dis') ->
  at_most_one agr' /\ at_most_one dis'.
Proof.
  intros H0 H1 Hd Hnd. revert agr dis.
  induction column_indexes as [|column_index rest IH]; intros agr dis Ha Hb; simpl.
  - intros H. inversion H; subst. auto.
  - destruct (imputed_agreements _ _ _ _ _ _) as [[value_agreements strength]|];
      simpl; [|discriminate].
    destruct (max_score value_agreements _ _) as [ds|] eqn:Hds;
      simpl; [|discriminate].
    destruct (ndrf !! row_index) as [nd_row|]; simpl; [|discriminate].
    destruct (not_data_cells nd_row !! column_index) as [nd_cell|];
      simpl; [|discriminate].
    destruct (max_score (disagreements nd_cell) _ _) as [nds|] eqn:Hnds;
      simpl; [|discriminate].
    apply IH; apply Forall_app; (split; [assumption|]);
      apply Forall_singleton, cell_score_at_most_one; try assumption.
    + exact (max_score_at_most_one _ _ _ _ Hd Hds).
    + exact (max_score_at_most_one _ _ _ _ Hnd Hnds).
Qed.

Lemma for_events_data_at_most_one R lb fired acc acc' :
  weights_at_most_one R -> at_most_one acc ->
  for_events (data_line_step R lb) fired acc = Some acc' -> at_most_one acc'.
Proof.
  intros HR. revert acc. induction fired as [|e fired IH]; intros acc Hacc; simpl.
  - intros H. inversion H; subst. assumption.
  - unfold data_line_step at 1.
    destruct (R !! e) as [r|] eqn:Hr; [|discriminate].
    destruct (weight r) as [w|] eqn:Hw; [|now apply IH].
    destruct (Qcltb lb w); [|now apply IH].
    apply IH, Forall_app. split; [assumption|].
    apply Forall_singleton. exact (HR e r w Hr Hw).
Qed.

(** The data evidence of a row, as [get_class_confidences] builds it from a
    catalogue with weights at most [1] and a damping base in [[0, 1]], holds
    scores at most [1]; so one more positive score never lowers the row's
    data confidence. *)
Lemma row_confidence_monotone params rules drf ndrf dlc ndlc row_index
    column_indexes agr dis fired evidence s :
  (0 <= p params)%Qc -> (p params <= 1)%Qc ->
  weights_at_most_one (cell_data rules) ->
  weights_at_most_one (cell_not_data rules) ->
  weights_at_most_one (line_data rules) ->
  cell_evidence params rules drf ndrf dlc ndlc row_index column_indexes [] []
    = Some (agr, dis) ->
  line_is_data_evidence params rules agr fired = Some evidence ->
  (0 < s)%Qc ->
  (probabilistic_sum evidence <= probabilistic_sum (evidence ++ [s]))%Qc.
Proof.
  intros H0 H1 Hd Hnd Hl Hcells Hline Hs.
  apply probabilistic_sum_append; [|assumption].
  destruct (cell_evidence_at_most_one _ _ _ _ _ _ _ _ _ _ _ _
              H0 H1 Hd Hnd (Forall_nil_2 _) (Forall_nil_2 _) Hcells) as [Ha _].
  unfold line_is_data_evidence in Hline.
  destruct (String.eqb (weight_input params) "values_and_lines").
  - exact (for_events_data_at_most_one _ _ _ _ _ Hl Ha Hline).
  - inversion Hline; subst. assumption.
Qed.

(** ** Scores, confidences and training *)

Lemma max_score_top_weight E R lb s :
  max_score E R lb = Some s -> top_weight E R lb s.
Proof.
  rewrite max_score_unfold.
  destruct (event_scores E R lb) as [l|] eqn:Hl; [|discriminate].
  pose proof (sort_desc_head l) as Hd.
  destruct (sort_desc l) as [|[e0 w0] rest] eqn:Hs; intros H; inversion H; subst.
  - right. split; [reflexivity|]. intros e w He Hq.
    pose proof (event_scores_complete _ _ _ _ _ _ Hl He Hq) as Hin.
    apply sort_desc_elem in Hin. rewrite Hs in Hin. inversion Hin.
  - left. split.
    + assert (Hin : (e0, s) ∈ l) by (apply sort_desc_elem; rewrite Hs; left).
      destruct (event_scores_sound _ _ _ _ _ _ Hl Hin). eauto.
    + intros e w He Hq.
      pose proof (event_scores_complete _ _ _ _ _ _ Hl He Hq) as Hin.
      apply sort_desc_elem in Hin. rewrite Hs in Hin.
      apply (Hd (e, w) Hin).
Qed.

Lemma top_weight_unique E E' R lb s s' :
  (forall e, e ∈ E <-> e ∈ E') ->
  top_weight E R lb s -> top_weight E' R lb s' -> s = s'.
Proof.
  intros HE [[(e & He & Hq) Hmax]|[-> Hnone]] [[(e' & He' & Hq') Hmax']|[-> Hnone']].
  - apply Qcle_antisym.
    + apply (Hmax' e s); [now apply HE|assumption].
    + apply (Hmax e' s'); [now apply HE|assumption].
  - exfalso. apply (Hnone' e s); [now apply HE|assumption].
  - exfalso. apply (Hnone e' s'); [now apply HE|assumption].
  - reflexivity.
Qed.

Lemma max_score_None E R lb :
  max_score E R lb = None <-> exists e, e ∈ E /\ R !! e = None.
Proof.
  rewrite max_score_unfold. split.
  - intros H. induction E as [|e0 E IH]; simpl in H.
    + discriminate.
    + destruct (R !! e0) as [r|] eqn:Hr.
      * destruct (event_scores E R lb) as [tl|] eqn:Htl.
        -- exfalso. destruct (weight r) as [w|]; [destruct (Qcleb lb w)|];
             destruct (sort_desc _); discriminate.
        -- destruct IH as (e & He & Hn); [reflexivity|].
           exists e. split; [now right|assumption].
      * exists e0. split; [left|assumption].
  - intros (e & He & Hn). induction E as [|e0 E IH]; [inversion He|].
    simpl. apply elem_of_cons in He as [<-|He].
    + now rewrite Hn.
    + destruct (R !! e0) as [r|]; [|reflexivity].
      specialize (IH He).
      destruct (event_scores E R lb) as [tl|]; [|reflexivity].
      destruct (sort_desc tl); discriminate.
Qed.

(** X1.  [max_score] raises [KeyError] exactly when a fired event is missing
    from the catalogue; in every other case it returns a score. *)
Theorem max_score_key_error (E : list string) (R : catalogue) (lb : Qc) :
  (max_score E R lb = None <-> exists e, e ∈ E /\ R !! e = None)
  /\ ((forall e, e ∈ E -> is_Some (R !! e)) <->
      exists s, max_score E R lb = Some s).
Proof.
  split; [apply max_score_None|]. split.
  - intros HE. destruct (max_score E R lb) as [s|] eqn:H; [eauto|].
    apply max_score_None in H as (e & He & Hn).
    destruct (HE e He) as [r Hr]. congruence.
  - intros [s Hs] e He. destruct (R !! e) as [r|] eqn:Hr; [eauto|].
    assert (max_score E R lb = None) by (apply max_score_None; eauto).
    congruence.
Qed.

(** X2.  The score of a firing set depends on which events fired, not on
    their order or multiplicity. *)
Theorem max_score_order_independent (E E' : list string) (R : catalogue) (lb : Qc) :
  (forall e, e ∈ E <-> e ∈ E') ->
  max_score E R lb = max_score E' R lb.
Proof.
  intros HE.
  destruct (max_score E R lb) as [s|] eqn:H1;
    destruct (max_score E' R lb) as [s'|] eqn:H2.
  - f_equal.
    exact (top_weight_unique E E' R lb s s' HE
             (max_score_top_weight _ _ _ _ H1) (max_score_top_weight _ _ _ _ H2)).
  - apply max_score_None in H2 as (e & He & Hn).
    assert (max_score E R lb = None) by (apply max_score_None; exists e; split; [now apply HE|assumption]).
    congruence.
  - apply max_score_None in H1 as (e & He & Hn).
    assert (max_score E' R lb = None) by (apply max_score_None; exists e; split; [now apply HE|assumption]).
    congruence.
  - reflexivity.
Qed.

Lemma max_score_order_independent_witness :
  max_score ["D4"; "FW_D1"; "LENGTH_4PLUS"] sample_catalogue (Q2Qc (2 # 5))
  = max_score ["FW_D1"; "LENGTH_4PLUS"; "D4"; "FW_D1"] sample_catalogue (Q2Qc (2 # 5)).
Proof.
  apply (max_score_order_independent ["D4"; "FW_D1"; "LENGTH_4PLUS"]
           ["FW_D1"; "LENGTH_4PLUS"; "D4"; "FW_D1"]).
  intros e. rewrite !elem_of_cons, !elem_of_nil. tauto.
Defined.

(** X3.  With a non-negative lower bound the score is never negative and
    more fired events never lower it. *)
Theorem max_score_monotone (E E' : list string) (R : catalogue) (lb s s' : Qc) :
  (0 <= lb)%Qc ->
  (forall e, e ∈ E -> e ∈ E') ->
  max_score E R lb = Some s -> max_score E' R lb = Some s' ->
  (0 <= s)%Qc /\ (s <= s')%Qc.
Proof.
  intros Hlb HE H1 H2.
  apply max_score_top_weight in H1. apply max_score_top_weight in H2.
  assert (Hpos : forall F t, top_weight F R lb t -> (0 <= t)%Qc).
  { intros F t [[(e & _ & r & _ & _ & Hle) _]|[-> _]].
    - eapply Qcle_trans; eassumption.
    - apply Qcle_refl. }
  split; [eapply Hpos; eassumption|].
  destruct H1 as [[(e & He & Hq) _]|[-> _]].
  - destruct H2 as [[_ Hmax']|[-> Hnone']].
    + apply (Hmax' e s); auto.
    + exfalso. apply (Hnone' e s); auto.
  - eapply Hpos; eassumption.
Qed.

Lemma max_score_monotone_witness :
  (0 <= Q2Qc (3 # 10))%Qc /\ (Q2Qc (3 # 10) <= Q2Qc (1 # 2))%Qc.
Proof.
  apply (max_score_monotone ["D4"] ["D4"; "FW_D1"] sample_catalogue (Q2Qc (1 # 5))).
  - unfold Qcle. vm_compute. discriminate.
  - intros e. rewrite !elem_of_cons, !elem_of_nil. tauto.
  - vm_compute. reflexivity.
  - vm_compute. reflexivity.
Defined.




Lemma complement_product_range l :
  in_unit_interval l ->
  (0 <= complement_product l)%Qc /\ (complement_product l <= 1)%Qc.
Proof.
  induction 1 as [|x l [Hx0 Hx1] _ [IH0 IH1]]; simpl.
  - split; qc_to_q; lra.
  - revert IH0 IH1. generalize (complement_product l). intros c IH0 IH1.
    qc_to_q. split; nra.
Qed.


Lemma probabilistic_sum_unit l :
  in_unit_interval l ->
  (0 <= probabilistic_sum l)%Qc /\ (probabilistic_sum l <= 1)%Qc.
Proof.
  intros Hl. rewrite probabilistic_sum_closed_form. unfold probabilistic_or.
  destruct (complement_product_range l Hl) as [Hc0 Hc1].
  revert Hc0 Hc1. generalize (complement_product l). intros c Hc0 Hc1.
  qc_to_q. split; lra.
Qed.






(** ** [non_empty_values] *)

Lemma last_valid_position_app l1 l2 pos found :
  last_valid_position (l1 ++ l2) pos found
  = last_valid_position l2 (pos + length l1)%nat
      (last_valid_position l1 pos found).
Proof.
  revert pos found. induction l1 as [|c l1 IH]; intros pos found; simpl.
  - now rewrite Nat.add_0_r.
  - rewrite IH. f_equal. lia.
Qed.

Lemma last_valid_position_nulls n pos found :
  last_valid_position (replicate n NaN) pos found = found.
Proof.
  revert pos. induction n as [|n IH]; intros pos; simpl; [reflexivity|apply IH].
Qed.

(** X7.  The width of a row is the position of its last valid cell: trailing
    nulls are not counted, nulls before a valid cell are; a row without any
    valid cell has the width of the whole row. *)
Theorem non_empty_values_trailing_nulls (before : list cell) (s : string) (n : nat) :
  non_empty_values (before ++ Str s :: replicate n NaN) = S (length before)
  /\ non_empty_values (replicate n NaN) = n.
Proof.
  unfold non_empty_values. split.
  - rewrite last_valid_position_app. simpl.
    now rewrite last_valid_position_nulls.
  - rewrite last_valid_position_nulls. apply length_replicate.
Qed.


Lemma max_score_range E R lb s :
  weights_at_most_one R -> (0 <= lb)%Qc -> max_score E R lb = Some s ->
  (0 <= s)%Qc /\ (s <= 1)%Qc.
Proof.
  intros HR Hlb H. split; [|exact (max_score_at_most_one _ _ _ _ HR H)].
  apply max_score_top_weight in H as [[(e & _ & r & _ & _ & Hle) _]|[-> _]].
  - eapply Qcle_trans; eassumption.
  - apply Qcle_refl.
Qed.

Lemma cell_score_range params score strength :
  (0 <= p params)%Qc -> (p params <= 1)%Qc ->
  (0 <= score)%Qc /\ (score <= 1)%Qc ->
  (0 <= cell_score params score strength)%Qc
  /\ (cell_score params score strength <= 1)%Qc.
Proof.
  intros H0 H1 [Hs0 Hs1]. unfold cell_score.
  destruct (summary_population_factor params); [|auto].
  destruct (population_weight_range params strength H0 H1) as [Hw0 Hw1].
  revert Hw0 Hw1. generalize (population_weight params strength).
  intros w Hw0 Hw1. qc_to_q. split; nra.
Qed.

Lemma in_unit_interval_snoc l x :
  in_unit_interval l -> (0 <= x)%Qc /\ (x <= 1)%Qc -> in_unit_interval (l ++ [x]).
Proof.
  intros Hl Hx. apply Forall_app. split; [assumption|].
  now apply Forall_singleton.
Qed.

Lemma cell_evidence_range params rules drf ndrf dlc ndlc row_index
    column_indexes agr dis agr' dis' :
  scoring_in_range params rules ->
  in_unit_interval agr -> in_unit_interval dis ->
  cell_evidence params rules drf ndrf dlc ndlc row_index column_indexes agr dis
    = Some (agr', dis') ->
  in_unit_interval agr' /\ in_unit_interval dis'.
Proof.
  intros (H0 & H1 & Hlb & Hnlb & Hd & Hnd & _ & _). revert agr dis.
  induction column_indexes as [|column_index rest IH]; intros agr dis Ha Hb; simpl.
  - intros H. inversion H; subst. auto.
  - destruct (imputed_agreements _ _ _ _ _ _) as [[value_agreements strength]|];
      simpl; [|discriminate].
    destruct (max_score value_agreements _ _) as [ds|] eqn:Hds;
      simpl; [|discriminate].
    destruct (ndrf !! row_index) as [nd_row|]; simpl; [|discriminate].
    destruct (not_data_cells nd_row !! column_index) as [nd_cell|];
      simpl; [|discriminate].
    destruct (max_score (disagreements nd_cell) _ _) as [nds|] eqn:Hnds;
      simpl; [|discriminate].
    apply IH; apply in_unit_interval_snoc; try assumption;
      apply cell_score_range; try assumption.
    + exact (max_score_range _ _ _ _ Hd Hlb Hds).
    + exact (max_score_range _ _ _ _ Hnd Hnlb Hnds).
Qed.

Lemma for_events_data_range R lb fired acc acc' :
  weights_at_most_one R -> (0 <= lb)%Qc -> in_unit_interval acc ->
  for_events (data_line_step R lb) fired acc = Some acc' ->
  in_unit_interval acc'.
Proof.
  intros HR Hlb. revert acc. induction fired as [|e fired IH]; intros acc Hacc; simpl.
  - intros H. inversion H; subst. assumption.
  - unfold data_line_step at 1.
    destruct (R !! e) as [r|] eqn:Hr; [|discriminate].
    destruct (weight r) as [w|] eqn:Hw; [|now apply IH].
    destruct (Qcltb lb w) eqn:Hlt; [|now apply IH].
    apply IH, in_unit_interval_snoc; [assumption|]. split.
    + apply Qcltb_lt in Hlt. apply Qclt_le_weak.
      eapply Qcle_lt_trans; eassumption.
    + exact (HR e r w Hr Hw).
Qed.

Lemma for_events_not_data_range R lb before fired acc acc' :
  weights_at_most_one R -> (0 <= lb)%Qc -> in_unit_interval acc ->
  for_events (not_data_line_step R lb before) fired acc = Some acc' ->
  in_unit_interval acc'.
Proof.
  intros HR Hlb. revert acc. induction fired as [|e fired IH]; intros acc Hacc; simpl.
  - intros H. inversion H; subst. assumption.
  - unfold not_data_line_step at 1.
    destruct (String.eqb e _ && negb before); [now apply IH|].
    destruct (scored_event R e) as [e'|]; [|discriminate].
    destruct (R !! e') as [r|] eqn:Hr; [|now apply IH].
    destruct (weight r) as [w|] eqn:Hw; [|now apply IH].
    destruct (Qcltb lb w) eqn:Hlt; [|now apply IH].
    apply IH, in_unit_interval_snoc; [assumption|]. split.
    + apply Qcltb_lt in Hlt. apply Qclt_le_weak.
      eapply Qcle_lt_trans; eassumption.
    + exact (HR e' r w Hr Hw).
Qed.

Lemma score_row_range params rules drf ndrf column_indexes st row_index st' :
  scoring_in_range params rules ->
  probabilities (data_line_confidences st) ->
  probabilities (not_data_line_confidences st) ->
  score_row params rules drf ndrf column_indexes st row_index = Some st' ->
  probabilities (data_line_confidences st')
  /\ probabilities (not_data_line_confidences st').
Proof.
  intros Hrange Hd Hnd. unfold score_row.
  destruct (cell_evidence _ _ _ _ _ _ _ _ _ _) as [[agr dis]|] eqn:Hcells;
    simpl; [|discriminate].
  destruct (cell_evidence_range _ _ _ _ _ _ _ _ _ _ _ _ Hrange
              (Forall_nil_2 _) (Forall_nil_2 _) Hcells) as [Ha Hb].
  destruct Hrange as (H0 & H1 & Hlb & Hnlb & _ & _ & Hld & Hlnd).
  match goal with |- context [mbind _ ?m] => destruct m as [before|] end;
    simpl; [|discriminate].
  match goal with |- context [mbind _ ?m] => destruct m as [nd_fired|] end;
    simpl; [|discriminate].
  destruct (line_not_data_evidence _ _ _ _ _ _) as [nd_evidence|] eqn:Hnde;
    simpl; [|discriminate].
  match goal with |- context [mbind _ ?m] => destruct m as [d_fired|] end;
    simpl; [|discriminate].
  destruct (line_is_data_evidence _ _ _ _) as [d_evidence|] eqn:Hde;
    simpl; [|discriminate].
  intros H. inversion H; subst; simpl. clear H.
  assert (Hde' : in_unit_interval d_evidence).
  { unfold line_is_data_evidence in Hde.
    destruct (String.eqb _ _).
    - exact (for_events_data_range _ _ _ _ _ Hld Hlb Ha Hde).
    - inversion Hde; subst. assumption. }
  assert (Hnde' : in_unit_interval nd_evidence).
  { unfold line_not_data_evidence in Hnde.
    destruct (String.eqb _ _); [destruct (_ <? _)%nat|].
    - exact (for_events_not_data_range _ _ _ _ _ _ Hlnd Hnlb Hb Hnde).
    - inversion Hnde; subst. assumption.
    - inversion Hnde; subst. assumption. }
  split; intros k c; rewrite lookup_insert; case_decide; subst.
  - intros Hc. inversion Hc; subst.
    exact (probabilistic_sum_unit d_evidence Hde').
  - apply Hd.
  - intros Hc. inversion Hc; subst.
    exact (probabilistic_sum_unit nd_evidence Hnde').
  - apply Hnd.
Qed.

Lemma score_rows_range params rules drf ndrf column_indexes index st st' :
  scoring_in_range params rules ->
  probabilities (data_line_confidences st) ->
  probabilities (not_data_line_confidences st) ->
  score_rows params rules drf ndrf column_indexes index st = Some st' ->
  probabilities (data_line_confidences st')
  /\ probabilities (not_data_line_confidences st').
Proof.
  intros Hrange. revert st.
  induction index as [|row_index rest IH]; intros st Hd Hnd; simpl.
  - intros H. inversion H; subst. auto.
  - destruct (score_row _ _ _ _ _ st row_index) as [st1|] eqn:Hrow; [|discriminate].
    destruct (score_row_range _ _ _ _ _ _ _ _ Hrange Hd Hnd Hrow).
    now apply IH.
Qed.

Lemma score_row_keys params rules drf ndrf column_indexes st row_index st' :
  score_row params rules drf ndrf column_indexes st row_index = Some st' ->
  (forall k, is_Some (data_line_confidences st' !! k)
             <-> k = row_index \/ is_Some (data_line_confidences st !! k))
  /\ (forall k, is_Some (not_data_line_confidences st' !! k)
               <-> k = row_index \/ is_Some (not_data_line_confidences st !! k))
  /\ (forall k, k <> row_index ->
        data_line_confidences st' !! k = data_line_confidences st !! k
        /\ not_data_line_confidences st' !! k = not_data_line_confidences st !! k).
Proof.
  unfold score_row.
  destruct (cell_evidence _ _ _ _ _ _ _ _ _ _) as [[agr dis]|];
    simpl; [|discriminate].
  match goal with |- context [mbind _ ?m] => destruct m as [before|] end;
    simpl; [|discriminate].
  match goal with |- context [mbind _ ?m] => destruct m as [nd_fired|] end;
    simpl; [|discriminate].
  destruct (line_not_data_evidence _ _ _ _ _ _) as [nd_evidence|];
    simpl; [|discriminate].
  match goal with |- context [mbind _ ?m] => destruct m as [d_fired|] end;
    simpl; [|discriminate].
  destruct (line_is_data_evidence _ _ _ _) as [d_evidence|];
    simpl; [|discriminate].
  intros H. inversion H; subst; simpl. clear H.
  split; [|split]; intros k.
  - rewrite lookup_insert. case_decide; subst.
    + split; [auto|]. intros _. eauto.
    + split; [auto|]. intros [?|?]; [congruence|assumption].
  - rewrite lookup_insert. case_decide; subst.
    + split; [auto|]. intros _. eauto.
    + split; [auto|]. intros [?|?]; [congruence|assumption].
  - intros Hk. now rewrite !lookup_insert_ne by congruence.
Qed.

Lemma score_rows_keys params rules drf ndrf column_indexes index st st' :
  score_rows params rules drf ndrf column_indexes index st = Some st' ->
  (forall k, is_Some (data_line_confidences st' !! k)
             <-> k ∈ index \/ is_Some (data_line_confidences st !! k))
  /\ (forall k, is_Some (not_data_line_confidences st' !! k)
               <-> k ∈ index \/ is_Some (not_data_line_confidences st !! k))
  /\ (forall k, k ∉ index ->
        data_line_confidences st' !! k = data_line_confidences st !! k
        /\ not_data_line_confidences st' !! k = not_data_line_confidences st !! k).
Proof.
  revert st. induction index as [|row_index rest IH]; intros st; simpl.
  - intros H. inversion H; subst. split; [|split]; intros k.
    + rewrite elem_of_nil. tauto.
    + rewrite elem_of_nil. tauto.
    + auto.
  - destruct (score_row _ _ _ _ _ st row_index) as [st1|] eqn:Hrow; [|discriminate].
    intros Hrest.
    destruct (score_row_keys _ _ _ _ _ _ _ _ Hrow) as (Hd1 & Hnd1 & Hk1).
    destruct (IH _ Hrest) as (Hd & Hnd & Hk).
    split; [|split]; intros k.
    + rewrite Hd, Hd1, elem_of_cons. tauto.
    + rewrite Hnd, Hnd1, elem_of_cons. tauto.
    + intros Hn. apply not_elem_of_cons in Hn as [Hne Hn].
      destruct (Hk k Hn) as [-> ->]. now apply Hk1.
Qed.

Lemma score_rows_app params rules drf ndrf column_indexes index rest st :
  score_rows params rules drf ndrf column_indexes (index ++ rest) st
  = score_rows params rules drf ndrf column_indexes index st
      ≫= score_rows params rules drf ndrf column_indexes rest.
Proof.
  revert st. induction index as [|row_index index IH]; intros st; simpl.
  - reflexivity.
  - destruct (score_row _ _ _ _ _ st row_index) as [st1|]; [apply IH|reflexivity].
Qed.

(** X8.  [get_class_confidences] scores exactly the rows of the frame: both
    returned maps have the rows of the index as their keys. *)
Theorem get_class_confidences_keys (index column_indexes : list Z)
    (drf : gmap Z data_row_rules) (ndrf : gmap Z not_data_row_rules)
    (rules : fuzzy_rules) (params : parameters) (d nd : gmap Z Qc) :
  get_class_confidences index column_indexes drf ndrf rules params = Some (d, nd) ->
  forall k, (is_Some (d !! k) <-> k ∈ index) /\ (is_Some (nd !! k) <-> k ∈ index).
Proof.
  unfold get_class_confidences. destruct index as [|r0 index]; [discriminate|].
  destruct (score_rows _ _ _ _ _ _ _) as [st|] eqn:Hrows; simpl; [|discriminate].
  intros H k. inversion H; subst.
  destruct (score_rows_keys _ _ _ _ _ _ _ _ Hrows) as (Hd & Hnd & _).
  rewrite Hd, Hnd. simpl. rewrite !lookup_empty.
  split; (split; [intros [?|[? ?]]; [assumption|discriminate]|auto]).
Qed.

Lemma get_class_confidences_keys_witness :
  exists d nd,
    get_class_confidences [4; 5] [0] (sample_data_rules 1)
      sample_not_data_rules sample_rules sample_parameters = Some (d, nd)
    /\ forall k, (is_Some (d !! k) <-> k ∈ [4; 5])
                 /\ (is_Some (nd !! k) <-> k ∈ [4; 5]).
Proof.
  destruct (get_class_confidences [4; 5] [0] (sample_data_rules 1)
              sample_not_data_rules sample_rules sample_parameters)
    as [[d nd]|] eqn:H.
  - exists d, nd. split; [reflexivity|].
    exact (get_class_confidences_keys _ _ _ _ _ _ d nd H).
  - vm_compute in H. discriminate.
Defined.

Lemma sample_scoring_in_range : scoring_in_range sample_parameters sample_rules.
Proof.
  assert (Hc : weights_at_most_one sample_catalogue).
  { intros e r w Hr Hw. unfold sample_catalogue in Hr.
    repeat (rewrite lookup_insert in Hr; case_decide; subst;
            [inversion Hr; subst; simpl in Hw; inversion Hw; subst;
             unfold Qcle; vm_compute; discriminate|]).
    rewrite lookup_empty in Hr. discriminate. }
  assert (Hl : weights_at_most_one sample_line_catalogue).
  { intros e r w Hr Hw. unfold sample_line_catalogue in Hr.
    repeat (rewrite lookup_insert in Hr; case_decide; subst;
            [inversion Hr; subst; simpl in Hw; inversion Hw; subst;
             unfold Qcle; vm_compute; discriminate|]).
    rewrite lookup_empty in Hr. discriminate. }
  repeat split; try assumption; unfold Qcle; vm_compute; discriminate.
Qed.

(** X9.  With weights at most [1], non-negative lower bounds and a damping
    base [p] in [[0, 1]], every confidence [get_class_confidences] returns is
    a probability. *)
Theorem get_class_confidences_probabilities (index column_indexes : list Z)
    (drf : gmap Z data_row_rules) (ndrf : gmap Z not_data_row_rules)
    (rules : fuzzy_rules) (params : parameters) (d nd : gmap Z Qc) :
  scoring_in_range params rules ->
  get_class_confidences index column_indexes drf ndrf rules params = Some (d, nd) ->
  probabilities d /\ probabilities nd.
Proof.
  intros Hrange. unfold get_class_confidences.
  destruct index as [|r0 index]; [discriminate|].
  destruct (score_rows _ _ _ _ _ _ _) as [st|] eqn:Hrows; simpl; [|discriminate].
  intros H. inversion H; subst.
  apply (score_rows_range _ _ _ _ _ _ _ _ Hrange) in Hrows; [assumption| |];
    intros k c; simpl; rewrite lookup_empty; discriminate.
Qed.

Lemma get_class_confidences_probabilities_witness :
  exists d nd,
    get_class_confidences [4; 5] [0] (sample_data_rules 1)
      sample_not_data_rules sample_rules sample_parameters = Some (d, nd)
    /\ probabilities d /\ probabilities nd.
Proof.
  destruct (get_class_confidences [4; 5] [0] (sample_data_rules 1)
              sample_not_data_rules sample_rules sample_parameters)
    as [[d nd]|] eqn:H.
  - exists d, nd. split; [reflexivity|].
    exact (get_class_confidences_probabilities _ _ _ _ _ _ d nd
             sample_scoring_in_range H).
  - vm_compute in H. discriminate.
Defined.

(** X10.  The scan is top-down: the confidences of the leading rows of a frame
    are those the leading rows get on their own, whatever rows follow, and
    an error on the leading rows is an error on the whole frame. *)
Theorem get_class_confidences_top_down (index rest column_indexes : list Z)
    (drf : gmap Z data_row_rules) (ndrf : gmap Z not_data_row_rules)
    (rules : fuzzy_rules) (params : parameters) (d nd : gmap Z Qc) :
  index <> [] ->
  get_class_confidences (index ++ rest) column_indexes drf ndrf rules params
    = Some (d, nd) ->
  exists d0 nd0,
    get_class_confidences index column_indexes drf ndrf rules params
      = Some (d0, nd0)
    /\ forall k, k ∉ rest -> d !! k = d0 !! k /\ nd !! k = nd0 !! k.
Proof.
  intros Hne. unfold get_class_confidences.
  destruct index as [|r0 index]; [congruence|]. simpl app. cbv iota.
  change (r0 :: index ++ rest) with ((r0 :: index) ++ rest).
  rewrite score_rows_app.
  destruct (score_rows _ _ _ _ _ (r0 :: index) _) as [st0|]; simpl; [|discriminate].
  destruct (score_rows _ _ _ _ _ rest st0) as [st|] eqn:Hrest; simpl; [|discriminate].
  intros H. inversion H; subst. exists (data_line_confidences st0),
    (not_data_line_confidences st0). split; [reflexivity|].
  intros k Hk. destruct (score_rows_keys _ _ _ _ _ _ _ _ Hrest) as (_ & _ & Hsame).
  exact (Hsame k Hk).
Qed.

Lemma get_class_confidences_top_down_witness :
  exists d nd d0 nd0,
    get_class_confidences ([4] ++ [5]) [0] (sample_data_rules 1)
      sample_not_data_rules sample_rules sample_parameters = Some (d, nd)
    /\ get_class_confidences [4] [0] (sample_data_rules 1)
         sample_not_data_rules sample_rules sample_parameters = Some (d0, nd0)
    /\ forall k, k ∉ [5] -> d !! k = d0 !! k /\ nd !! k = nd0 !! k.
Proof.
  destruct (get_class_confidences ([4] ++ [5]) [0] (sample_data_rules 1)
              sample_not_data_rules sample_rules sample_parameters)
    as [[d nd]|] eqn:H.
  - destruct (get_class_confidences_top_down [4] [5] [0] _ _ _ _ d nd
                ltac:(discriminate) H) as (d0 & nd0 & H0 & Hk).
    exists d, nd, d0, nd0. auto.
  - vm_compute in H. discriminate.
Defined.


Lemma train_catalogue_spec data_class df total R :
  match train_catalogue data_class df total R with
  | Some R' =>
      forall rule,
        match R !! rule with
        | Some r => exists r', train_rule data_class df total rule r = Some r'
                               /\ R' !! rule = Some r'
        | None => R' !! rule = None
        end
  | None => exists rule r, R !! rule = Some r
                           /\ train_rule data_class df total rule r = None
  end.
Proof.
  unfold train_catalogue.
  set (f := fun rule r trained =>
              trained ← trained;
              r' ← train_rule data_class df total rule r;
              Some (<[rule := r']> trained)).
  assert (H : forall base,
    match map_fold f (Some base) R with
    | Some R' =>
        forall rule,
          match R !! rule with
          | Some r => exists r', train_rule data_class df total rule r = Some r'
                                 /\ R' !! rule = Some r'
          | None => R' !! rule = base !! rule
          end
    | None => exists rule r, R !! rule = Some r
                             /\ train_rule data_class df total rule r = None
    end).
  { intros base.
    apply (map_fold_weak_ind
      (fun (acc : option catalogue) (m : catalogue) =>
         match acc with
         | Some R' =>
             forall rule,
               match m !! rule with
               | Some r => exists r', train_rule data_class df total rule r = Some r'
                                      /\ R' !! rule = Some r'
               | None => R' !! rule = base !! rule
               end
         | None => exists rule r, m !! rule = Some r
                                  /\ train_rule data_class df total rule r = None
         end)).
    - intros rule. now rewrite lookup_empty.
    - intros i x m acc Hi IH. unfold f. destruct acc as [R'|]; simpl.
      + destruct (train_rule data_class df total i x) as [r'|] eqn:Hr'; simpl.
        * intros rule. rewrite !lookup_insert. case_decide; subst.
          -- eauto.
          -- apply IH.
        * exists i, x. split; [apply lookup_insert_eq|assumption].
      + destruct IH as (rule & r & Hm & Hn). exists rule, r. split; [|assumption].
        rewrite lookup_insert_ne; [assumption|]. intros ->. congruence. }
  specialize (H R). destruct (map_fold f (Some R) R) as [R'|]; [|exact H].
  intros rule. specialize (H rule). destruct (R !! rule) eqn:E; assumption.
Qed.

Lemma Qc_of_nat_plus a b : Qc_of_nat (a + b) = (Qc_of_nat a + Qc_of_nat b)%Qc.
Proof.
  unfold Qc_of_nat. apply Qc_is_canon. simpl.
  rewrite !Qred_correct, Nat2Z.inj_add, inject_Z_plus. reflexivity.
Qed.

Lemma Qc_of_nat_le a b : (a <= b)%nat -> (Qc_of_nat a <= Qc_of_nat b)%Qc.
Proof.
  intros H. unfold Qc_of_nat, Qcle. simpl. rewrite !Qred_correct.
  rewrite <- Zle_Qle. lia.
Qed.

Lemma Qc_of_nat_pos a : (0 < a)%nat -> (0 < Qc_of_nat a)%Qc.
Proof.
  intros H. unfold Qc_of_nat, Qclt. simpl. rewrite !Qred_correct.
  change 0%Q with (inject_Z 0). rewrite <- Zlt_Qlt. lia.
Qed.

Lemma Qc_fraction_range (n d : Qc) :
  (0 < d)%Qc -> (0 <= n)%Qc -> (n <= d)%Qc ->
  (0 <= n / d)%Qc /\ (n / d <= 1)%Qc.
Proof.
  intros Hd H0 H1. unfold Qcdiv.
  assert (Hinv : (0 <= / d)%Qc).
  { apply Qclt_le_weak. unfold Qclt. cbn [Qcinv this Q2Qc].
    rewrite !Qred_correct. apply Qinv_lt_0_compat.
    unfold Qclt in Hd. cbn [this Q2Qc] in Hd. now rewrite Qred_correct in Hd. }
  split.
  - now apply Qcmult_nonneg_nonneg.
  - replace 1%Qc with (d * / d)%Qc.
    + now apply Qcmult_le_compat_r.
    + apply Qcmult_inv_r. intros E. rewrite E in Hd.
      apply Qclt_not_le in Hd. apply Hd, Qcle_refl.
Qed.

Lemma count_rows_split test positive df :
  count_rows test df
  = (count_rows (fun row => test row && positive row) df
     + count_rows (fun row => test row && negb (positive row)) df)%nat.
Proof.
  unfold count_rows. induction (frame_rows df) as [|row rows IH]; simpl.
  - reflexivity.
  - destruct (test row), (positive row); simpl; lia.
Qed.

Lemma count_rows_bound test df : (count_rows test df <= length (frame_rows df))%nat.
Proof. unfold count_rows. apply List.filter_length_le. Qed.

Lemma count_rows_zero test df :
  count_rows test df = 0%nat <-> forall row, row ∈ frame_rows df -> test row = false.
Proof.
  unfold count_rows. induction (frame_rows df) as [|row rows IH]; simpl.
  - split; [|reflexivity]. intros _ row Hrow. inversion Hrow.
  - destruct (test row) eqn:Ht; simpl.
    + split; [discriminate|]. intros H. specialize (H row). rewrite Ht in H.
      discriminate H. left.
    + rewrite IH. split.
      * intros H row' Hrow'. apply elem_of_cons in Hrow' as [->|Hrow']; auto.
      * intros H row' Hrow'. apply H. now right.
Qed.

Lemma train_rule_scalars data_class df total rule r r' :
  train_rule data_class df total rule r = Some r' -> trained_scalars r'.
Proof.
  unfold train_rule.
  set (column := lower rule).
  destruct (total =? 0)%nat; [discriminate|].
  intros H. inversion H; subst; clear H. unfold trained_scalars. simpl.
  destruct (bool_decide (column ∈ frame_columns df)); [|exact I].
  pose proof (count_rows_split (column_true column)
                (fun row => Bool.eqb (labelled_data row) data_class) df) as Hsplit.
  cbv beta in Hsplit.
  set (tp := count_rows (fun row => column_true column row
                           && Bool.eqb (labelled_data row) data_class) df) in *.
  set (fp := count_rows (fun row => column_true column row
                           && negb (Bool.eqb (labelled_data row) data_class)) df) in *.
  set (pp := count_rows (column_true column) df) in *.
  destruct (pp =? 0)%nat eqn:Hpp; [exact I|].
  apply Nat.eqb_neq in Hpp.
  assert (Hpos : (0 < Qc_of_nat pp)%Qc) by (apply Qc_of_nat_pos; lia).
  assert (Hne : Qc_of_nat pp <> 0%Qc).
  { intros E. rewrite E in Hpos. now apply Qclt_not_le in Hpos; apply Hpos, Qcle_refl. }
  split; [|apply Qc_fraction_range].
  - assert (E : Qc_of_nat fp = (Qc_of_nat pp - Qc_of_nat tp)%Qc).
    { rewrite Hsplit, Qc_of_nat_plus. ring. }
    rewrite E. field. exact Hne.
  - assumption.
  - change 0%Qc with (Qc_of_nat 0). apply Qc_of_nat_le. lia.
  - apply Qc_of_nat_le. lia.
Qed.

Lemma train_catalogue_entry data_class df total R R' e r' :
  train_catalogue data_class df total R = Some R' -> R' !! e = Some r' ->
  exists r, R !! e = Some r /\ train_rule data_class df total e r = Some r'.
Proof.
  intros H Hr'. pose proof (train_catalogue_spec data_class df total R) as Hs.
  rewrite H in Hs. specialize (Hs e).
  destruct (R !! e) as [r|]; [|congruence].
  destruct Hs as (r0 & Ht & Hl). exists r. split; [reflexivity|]. congruence.
Qed.

Lemma train_catalogue_error data_class df total R :
  train_catalogue data_class df total R = None <-> total = 0%nat /\ R <> ∅.
Proof.
  pose proof (train_catalogue_spec data_class df total R) as Hs. split.
  - intros H. rewrite H in Hs. destruct Hs as (rule & r & Hr & Hn).
    unfold train_rule in Hn. destruct (total =? 0)%nat eqn:Ht; [|discriminate].
    apply Nat.eqb_eq in Ht. split; [assumption|].
    intros ->. rewrite lookup_empty in Hr. discriminate.
  - intros [-> HR]. destruct (train_catalogue _ _ _ _) as [R'|]; [|reflexivity].
    exfalso. apply HR. apply map_eq. intros rule. rewrite lookup_empty.
    destruct (R !! rule) as [r|] eqn:Hr; [|reflexivity].
    specialize (Hs rule). rewrite Hr in Hs. destruct Hs as (r' & Ht & _).
    unfold train_rule in Ht. simpl in Ht. discriminate.
Qed.

Lemma train_rules_catalogues rules f1 f2 f3 f4 rules' :
  train_rules rules f1 f2 f3 f4 = Some rules' ->
  train_catalogue true f1 (length (frame_rows f1)) (cell_data rules)
    = Some (cell_data rules')
  /\ train_catalogue false f2 (length (frame_rows f1)) (cell_not_data rules)
      = Some (cell_not_data rules')
  /\ train_catalogue true f3 (length (frame_rows f3)) (line_data rules)
      = Some (line_data rules')
  /\ train_catalogue false f4 (length (frame_rows f3)) (line_not_data rules)
      = Some (line_not_data rules').
Proof.
  unfold train_rules.
  destruct (train_catalogue true f1 _ _) as [a|]; simpl; [|discriminate].
  destruct (train_catalogue false f2 _ _) as [b|]; simpl; [|discriminate].
  destruct (train_catalogue true f3 _ _) as [c|]; simpl; [|discriminate].
  destruct (train_catalogue false f4 _ _) as [d|]; simpl; [|discriminate].
  intros H. inversion H; subst. simpl. auto.
Qed.

Lemma train_rules_entry rules f1 f2 f3 f4 rules' R' e r' :
  train_rules rules f1 f2 f3 f4 = Some rules' ->
  R' ∈ catalogues rules' -> R' !! e = Some r' ->
  exists data_class df total r,
    train_rule data_class df total e r = Some r'.
Proof.
  intros H HR Hr'.
  destruct (train_rules_catalogues _ _ _ _ _ _ H) as (H1 & H2 & H3 & H4).
  unfold catalogues in HR.
  repeat (apply elem_of_cons in HR as [->|HR]); [| | | |inversion HR].
  - destruct (train_catalogue_entry _ _ _ _ _ _ _ H1 Hr') as (r & _ & Ht). eauto 6.
  - destruct (train_catalogue_entry _ _ _ _ _ _ _ H2 Hr') as (r & _ & Ht). eauto 6.
  - destruct (train_catalogue_entry _ _ _ _ _ _ _ H3 Hr') as (r & _ & Ht). eauto 6.
  - destruct (train_catalogue_entry _ _ _ _ _ _ _ H4 Hr') as (r & _ & Ht). eauto 6.
Qed.

Lemma trained_scalars_weight r w :
  trained_scalars r -> weight r = Some w -> (-1 <= w)%Qc /\ (w <= 1)%Qc.
Proof.
  unfold trained_scalars. intros H Hw. rewrite Hw in H.
  destruct (confidence r) as [c|]; [|contradiction].
  destruct H as (-> & H0 & H1). qc_to_q. split; lra.
Qed.



Lemma train_rule_null data_class df total rule r r' :
  train_rule data_class df total rule r = Some r' ->
  (weight r' = None <-> never_fired df rule).
Proof.
  unfold train_rule, never_fired.
  destruct (total =? 0)%nat; [discriminate|].
  intros H. inversion H; subst; clear H. simpl.
  destruct (bool_decide (lower rule ∈ frame_columns df)) eqn:Hk.
  - apply bool_decide_eq_true in Hk.
    destruct (count_rows (column_true (lower rule)) df =? 0)%nat eqn:Hpp.
    + apply Nat.eqb_eq in Hpp.
      pose proof (proj1 (count_rows_zero _ _) Hpp) as Hzero. clear Hpp.
      rename Hzero into Hpp. split; [|reflexivity].
      intros _. right. intros row Hrow Hv. specialize (Hpp row Hrow).
      unfold column_true in Hpp. apply bool_decide_eq_false in Hpp. contradiction.
    + apply Nat.eqb_neq in Hpp. split; [discriminate|].
      intros [Hc|Hrows]; [contradiction|]. exfalso. apply Hpp.
      apply (proj2 (count_rows_zero _ _)). intros row Hrow. unfold column_true.
      apply bool_decide_eq_false. now apply Hrows.
  - apply bool_decide_eq_false in Hk. simpl. split; [auto|reflexivity].
Qed.

(** X12.  After training, a rule has a null weight exactly when it never fired
    on the frame its catalogue is trained on: the frame has no column for
    it, or no row where the column is true. *)
Theorem train_rules_null_weight (rules rules' : fuzzy_rules)
    (f1 f2 f3 f4 : training_frame) :
  train_rules rules f1 f2 f3 f4 = Some rules' ->
  forall R' df data_class e r,
    (R', df, data_class) ∈ trained_on rules' f1 f2 f3 f4 ->
    R' !! e = Some r ->
    (weight r = None <-> never_fired df e).
Proof.
  intros H R' df data_class e r HR Hr.
  destruct (train_rules_catalogues _ _ _ _ _ _ H) as (H1 & H2 & H3 & H4).
  unfold trained_on in HR.
  repeat (apply elem_of_cons in HR as [HR|HR]); [| | | |inversion HR];
    inversion HR; subst; clear HR.
  - destruct (train_catalogue_entry _ _ _ _ _ _ _ H1 Hr) as (r0 & _ & Ht).
    exact (train_rule_null _ _ _ _ _ _ Ht).
  - destruct (train_catalogue_entry _ _ _ _ _ _ _ H2 Hr) as (r0 & _ & Ht).
    exact (train_rule_null _ _ _ _ _ _ Ht).
  - destruct (train_catalogue_entry _ _ _ _ _ _ _ H3 Hr) as (r0 & _ & Ht).
    exact (train_rule_null _ _ _ _ _ _ Ht).
  - destruct (train_catalogue_entry _ _ _ _ _ _ _ H4 Hr) as (r0 & _ & Ht).
    exact (train_rule_null _ _ _ _ _ _ Ht).
Qed.

Lemma train_rules_null_weight_witness :
  exists rules',
    train_rules sample_rules sample_cell_frame sample_cell_frame
      sample_line_frame sample_line_frame = Some rules'
    /\ forall R' df data_class e r,
         (R', df, data_class)
           ∈ trained_on rules' sample_cell_frame sample_cell_frame
               sample_line_frame sample_line_frame ->
         R' !! e = Some r ->
         (weight r = None <-> never_fired df e).
Proof.
  destruct (train_rules sample_rules sample_cell_frame sample_cell_frame
              sample_line_frame sample_line_frame) as [rules'|] eqn:H.
  - exists rules'. split; [reflexivity|].
    exact (train_rules_null_weight _ _ _ _ _ _ H).
  - vm_compute in H. discriminate.
Defined.

(** X13.  On frames that have a [label] column, [train_rules] fails, with a
    division by zero in the coverage, exactly when the cell data frame is
    empty and a cell catalogue has a rule, or the line data frame is empty
    and a line catalogue has a rule.  The divisor of both catalogues of a
    unit is the size of the data frame of that unit. *)
Theorem train_rules_division_by_zero (rules : fuzzy_rules)
    (f1 f2 f3 f4 : training_frame) :
  train_rules rules f1 f2 f3 f4 = None
  <-> (frame_rows f1 = [] /\ (cell_data rules <> ∅ \/ cell_not_data rules <> ∅))
      \/ (frame_rows f3 = [] /\ (line_data rules <> ∅ \/ line_not_data rules <> ∅)).
Proof.
  unfold train_rules.
  pose proof (train_catalogue_error true f1 (length (frame_rows f1)) (cell_data rules)) as E1.
  pose proof (train_catalogue_error false f2 (length (frame_rows f1)) (cell_not_data rules)) as E2.
  pose proof (train_catalogue_error true f3 (length (frame_rows f3)) (line_data rules)) as E3.
  pose proof (train_catalogue_error false f4 (length (frame_rows f3)) (line_not_data rules)) as E4.
  rewrite !length_zero_iff_nil in *.
  destruct (train_catalogue true f1 _ _) as [a|]; simpl.
  - destruct (train_catalogue false f2 _ _) as [b|]; simpl.
    + destruct (train_catalogue true f3 _ _) as [c|]; simpl.
      * destruct (train_catalogue false f4 _ _) as [d|]; simpl.
        -- split; [discriminate|]. intros [[Hf [Hc|Hc]]|[Hf [Hc|Hc]]].
           ++ assert (Some a = @None catalogue) by (apply E1; auto). discriminate.
           ++ assert (Some b = @None catalogue) by (apply E2; auto). discriminate.
           ++ assert (Some c = @None catalogue) by (apply E3; auto). discriminate.
           ++ assert (Some d = @None catalogue) by (apply E4; auto). discriminate.
        -- split; [|reflexivity]. intros _. right.
           destruct (proj1 E4 eq_refl). auto.
      * split; [|reflexivity]. intros _. right.
        destruct (proj1 E3 eq_refl). auto.
    + split; [|reflexivity]. intros _. left.
      destruct (proj1 E2 eq_refl). auto.
  - split; [|reflexivity]. intros _. left.
    destruct (proj1 E1 eq_refl). auto.
Qed.

Lemma train_rule_coverage data_class df total rule r r' :
  (length (frame_rows df) <= total)%nat ->
  train_rule data_class df total rule r = Some r' ->
  (0 <= coverage r')%Qc /\ (coverage r' <= 1)%Qc.
Proof.
  intros Hlen. unfold train_rule.
  destruct (total =? 0)%nat eqn:Ht; [discriminate|]. apply Nat.eqb_neq in Ht.
  intros H. inversion H; subst; clear H. simpl.
  apply Qc_fraction_range.
  - apply Qc_of_nat_pos. lia.
  - change 0%Qc with (Qc_of_nat 0). apply Qc_of_nat_le. lia.
  - apply Qc_of_nat_le. destruct (bool_decide _); [|lia].
    pose proof (count_rows_bound (column_true (lower rule)) df). lia.
Qed.

(** X14.  When the not-data frame of each unit has no more rows than the
    data frame of that unit, whose size is the divisor, every coverage
    after training is a fraction in [[0, 1]]. *)
Theorem train_rules_coverage (rules rules' : fuzzy_rules)
    (f1 f2 f3 f4 : training_frame) :
  (length (frame_rows f2) <= length (frame_rows f1))%nat ->
  (length (frame_rows f4) <= length (frame_rows f3))%nat ->
  train_rules rules f1 f2 f3 f4 = Some rules' ->
  forall R' e r, R' ∈ catalogues rules' -> R' !! e = Some r ->
    (0 <= coverage r)%Qc /\ (coverage r <= 1)%Qc.
Proof.
  intros Hc Hl H R' e r HR Hr.
  destruct (train_rules_catalogues _ _ _ _ _ _ H) as (H1 & H2 & H3 & H4).
  unfold catalogues in HR.
  repeat (apply elem_of_cons in HR as [->|HR]); [| | | |inversion HR].
  - destruct (train_catalogue_entry _ _ _ _ _ _ _ H1 Hr) as (r0 & _ & Ht).
    exact (train_rule_coverage _ _ _ _ _ _ (Nat.le_refl _) Ht).
  - destruct (train_catalogue_entry _ _ _ _ _ _ _ H2 Hr) as (r0 & _ & Ht).
    exact (train_rule_coverage _ _ _ _ _ _ Hc Ht).
  - destruct (train_catalogue_entry _ _ _ _ _ _ _ H3 Hr) as (r0 & _ & Ht).
    exact (train_rule_coverage _ _ _ _ _ _ (Nat.le_refl _) Ht).
  - destruct (train_catalogue_entry _ _ _ _ _ _ _ H4 Hr) as (r0 & _ & Ht).
    exact (train_rule_coverage _ _ _ _ _ _ Hl Ht).
Qed.

Lemma train_rules_coverage_witness :
  exists rules',
    train_rules sample_rules sample_cell_frame sample_cell_frame
      sample_line_frame sample_line_frame = Some rules'
    /\ forall R' e r, R' ∈ catalogues rules' -> R' !! e = Some r ->
         (0 <= coverage r)%Qc /\ (coverage r <= 1)%Qc.
Proof.
  destruct (train_rules sample_rules sample_cell_frame sample_cell_frame
              sample_line_frame sample_line_frame) as [rules'|] eqn:H.
  - exists rules'. split; [reflexivity|].
    exact (train_rules_coverage _ _ _ _ _ _ (Nat.le_refl _) (Nat.le_refl _) H).
  - vm_compute in H. discriminate.
Defined.

Lemma train_rules_weights_at_most_one rules f1 f2 f3 f4 rules' R' :
  train_rules rules f1 f2 f3 f4 = Some rules' ->
  R' ∈ catalogues rules' -> weights_at_most_one R'.
Proof.
  intros H HR e r w Hr Hw.
  destruct (train_rules_entry _ _ _ _ _ _ _ _ _ H HR Hr)
    as (data_class & df & total & r0 & Ht).
  apply (trained_scalars_weight r w); [|assumption].
  exact (train_rule_scalars _ _ _ _ _ _ Ht).
Qed.

(** X15.  Training and scoring compose: with the rules [train_rules] returns,
    non-negative lower bounds and [p] in [[0, 1]], every confidence
    [get_class_confidences] computes is a probability. *)
Theorem trained_confidences_are_probabilities (rules rules' : fuzzy_rules)
    (f1 f2 f3 f4 : training_frame) (params : parameters)
    (index column_indexes : list Z)
    (drf : gmap Z data_row_rules) (ndrf : gmap Z not_data_row_rules)
    (d nd : gmap Z Qc) :
  train_rules rules f1 f2 f3 f4 = Some rules' ->
  (0 <= p params)%Qc -> (p params <= 1)%Qc ->
  (0 <= weight_lower_bound params)%Qc ->
  (0 <= not_data_weight_lower_bound params)%Qc ->
  get_class_confidences index column_indexes drf ndrf rules' params = Some (d, nd) ->
  probabilities d /\ probabilities nd.
Proof.
  intros H H0 H1 Hlb Hnlb Hgcc.
  assert (Hrange : scoring_in_range params rules').
  { unfold scoring_in_range. repeat split; try assumption;
      apply (train_rules_weights_at_most_one _ _ _ _ _ _ _ H);
      unfold catalogues; rewrite !elem_of_cons; auto. }
  revert Hgcc. unfold get_class_confidences.
  destruct index as [|r0 index]; [discriminate|].
  destruct (score_rows _ _ _ _ _ _ _) as [st|] eqn:Hrows; simpl; [|discriminate].
  intros Hst. inversion Hst; subst.
  apply (score_rows_range _ _ _ _ _ _ _ _ Hrange) in Hrows; [assumption| |];
    intros k c; simpl; rewrite lookup_empty; discriminate.
Qed.

Lemma sample_trained :
  train_rules sample_rules sample_cell_frame sample_cell_frame
    sample_line_frame sample_line_frame = Some sample_trained_rules.
Proof.
  unfold sample_trained_rules.
  destruct (train_rules sample_rules sample_cell_frame sample_cell_frame
              sample_line_frame sample_line_frame) eqn:H;
    [reflexivity|vm_compute in H; discriminate].
Qed.

Lemma trained_confidences_are_probabilities_witness :
  exists d nd,
    get_class_confidences [4; 5] [0] (sample_data_rules 1)
      sample_not_data_rules sample_trained_rules sample_parameters
    = Some (d, nd)
    /\ probabilities d /\ probabilities nd.
Proof.
  destruct (get_class_confidences [4; 5] [0] (sample_data_rules 1)
              sample_not_data_rules sample_trained_rules sample_parameters)
    as [[d nd]|] eqn:G.
  - exists d, nd. split; [reflexivity|].
    apply (trained_confidences_are_probabilities sample_rules
             sample_trained_rules sample_cell_frame sample_cell_frame
             sample_line_frame sample_line_frame sample_parameters [4; 5] [0]
             (sample_data_rules 1) sample_not_data_rules d nd sample_trained);
      try exact G; unfold Qcle; vm_compute; discriminate.
  - vm_compute in G. discriminate.
Defined.

(** ** Scopes, table numbering and the end of the walk *)

Lemma scope_end_adjacent last_row pre k rest :
  StronglySorted Z.lt (pre ++ k :: rest) ->
  scope_end last_row (pre ++ k :: rest) k
  = Some (match rest with [] => last_row + 1 | next_subh :: _ => next_subh end).
Proof.
  induction pre as [|a pre IH]; intros Hs; simpl.
  - now rewrite Z.eqb_refl.
  - pose proof (sorted_head_fresh a (pre ++ k :: rest) Hs) as Ha.
    apply StronglySorted_inv in Hs as [Hs _].
    destruct (Z.eqb_spec a k) as [->|Hne]; [|now apply IH].
    exfalso. apply Ha, elem_of_app. right. left.
Qed.

Lemma in_scope_covers last_row subheaders (m : gmap Z scope) k r :
  StronglySorted Z.lt subheaders ->
  (forall s, s ∈ subheaders -> m !! s = None) ->
  k ∈ subheaders ->
  in_scope_of (assign_scopes last_row subheaders m) k r
  <-> covers last_row subheaders k r.
Proof.
  intros Hs Hfresh Hk. unfold in_scope_of, covers.
  rewrite (assign_scopes_lookup last_row subheaders m k Hs Hfresh).
  destruct (scope_end_elem last_row subheaders k Hk) as [e He]. rewrite He.
  split.
  - intros (s & Hscope & Hr). inversion Hscope; subst. simpl in Hr.
    apply elem_of_range in Hr. eauto.
  - intros (e' & He' & Hr). inversion He'; subst.
    eexists. split; [reflexivity|]. simpl. now apply elem_of_range.
Qed.

(** X16.  The scope loop of [predict_subheaders] on an increasing list of
    subheaders none of which has a scope yet: a subheader followed by
    another gets the rows strictly between the two, the last subheader the
    rows down to the last row of the candidate data, no other key is
    touched, and every row below the first subheader that is not a
    subheader itself lies in the scope of exactly one subheader. *)
Theorem assign_scopes_partition (last_row : Z) (subheaders : list Z)
    (m : gmap Z scope) :
  StronglySorted Z.lt subheaders ->
  (forall s, s ∈ subheaders -> m !! s = None) ->
  let result := assign_scopes last_row subheaders m in
  (forall pre k next_subh post, subheaders = pre ++ k :: next_subh :: post ->
     result !! k = Some (ScopeRows (range (k + 1) next_subh)))
  /\ (forall pre k, subheaders = pre ++ [k] ->
        result !! k = Some (ScopeRows (range (k + 1) (last_row + 1))))
  /\ (forall k, k ∉ subheaders -> result !! k = m !! k)
  /\ (forall r, r ∉ subheaders -> r <= last_row ->
        (exists s, s ∈ subheaders /\ s < r) ->
        exists k, k ∈ subheaders /\ in_scope_of result k r
                  /\ forall k', k' ∈ subheaders -> in_scope_of result k' r ->
                       k' = k).
Proof.
  intros Hs Hfresh result. subst result.
  split; [|split; [|split]].
  - intros pre k next_subh post ->.
    rewrite (assign_scopes_lookup _ _ _ k Hs Hfresh).
    now rewrite (scope_end_adjacent _ _ _ _ Hs).
  - intros pre k ->.
    rewrite (assign_scopes_lookup _ _ _ k Hs Hfresh).
    now rewrite (scope_end_adjacent _ _ _ _ Hs).
  - intros k Hk. rewrite (assign_scopes_lookup _ _ _ k Hs Hfresh).
    now rewrite scope_end_fresh.
  - intros r Hr Hlast Hbelow.
    destruct (covers_partition last_row subheaders r Hs Hr Hlast Hbelow)
      as (k & Hk & Huniq).
    assert (Hin : k ∈ subheaders).
    { destruct Hk as (e & He & _). eapply scope_end_Some, He. }
    exists k. split; [assumption|]. split.
    + now apply in_scope_covers.
    + intros k' Hk' Hscope. apply Huniq.
      now apply (in_scope_covers last_row subheaders m k' r Hs Hfresh Hk').
Qed.

Lemma assign_scopes_partition_witness :
  let result := assign_scopes 12 [7; 11] ∅ in
  (forall pre k next_subh post, [7; 11] = pre ++ k :: next_subh :: post ->
     result !! k = Some (ScopeRows (range (k + 1) next_subh)))
  /\ (forall pre k, [7; 11] = pre ++ [k] ->
        result !! k = Some (ScopeRows (range (k + 1) (12 + 1))))
  /\ (forall k, k ∉ [7; 11] -> result !! k = (∅ : gmap Z scope) !! k)
  /\ (forall r, r ∉ [7; 11] -> r <= 12 ->
        (exists s, s ∈ [7; 11] /\ s < r) ->
        exists k, k ∈ [7; 11] /\ in_scope_of result k r
                  /\ forall k', k' ∈ [7; 11] -> in_scope_of result k' r ->
                       k' = k).
Proof.
  apply (assign_scopes_partition 12 [7; 11] ∅).
  - repeat constructor; lia.
  - intros s _. apply lookup_empty.
Defined.

Lemma next_unscoped_elem (m : gmap Z scope) later next_subh :
  next_unscoped m later = Some next_subh -> next_subh ∈ later.
Proof.
  induction later as [|s later IH]; simpl; [discriminate|].
  destruct (m !! s).
  - intros H. right. now apply IH.
  - intros H. inversion H; subst. left.
Qed.

(** X17.  The scope loop only adds scopes: a key that has a scope keeps it,
    whatever the list of subheaders, and every key the loop adds is one of
    the subheaders. *)
Theorem assign_scopes_only_adds (last_row : Z) (subheaders : list Z)
    (m : gmap Z scope) (k : Z) :
  (forall s, m !! k = Some s ->
     assign_scopes last_row subheaders m !! k = Some s)
  /\ (is_Some (assign_scopes last_row subheaders m !! k) ->
      is_Some (m !! k) \/ k ∈ subheaders).
Proof.
  revert m. induction subheaders as [|subheader later IH]; intros m.
  - simpl. split; [auto|]. intros H. now left.
  - cbn [assign_scopes].
    set (m' := match m !! subheader with
               | Some _ => m
               | None => _
               end).
    assert (Hkeep : forall s, m !! k = Some s -> m' !! k = Some s).
    { intros s Hs. subst m'.
      destruct (m !! subheader) as [s0|] eqn:Hsub; [assumption|].
      assert (Hne : subheader <> k) by congruence.
      destruct later as [|n later'].
      - now rewrite lookup_insert_ne.
      - destruct (next_unscoped m (n :: later')); [|assumption].
        now rewrite lookup_insert_ne. }
    assert (Hnew : is_Some (m' !! k) -> is_Some (m !! k) \/ k = subheader).
    { subst m'. destruct (m !! subheader) as [s0|] eqn:Hsub; [auto|].
      destruct (decide (subheader = k)) as [->|Hne]; [auto|].
      destruct later as [|n later'].
      - rewrite lookup_insert_ne by assumption. auto.
      - destruct (next_unscoped m (n :: later')); [|auto].
        rewrite lookup_insert_ne by assumption. auto. }
    destruct (IH m') as [IHkeep IHnew]. split.
    + intros s Hs. apply IHkeep, Hkeep, Hs.
    + intros H. destruct (IHnew H) as [H'|H'].
      * destruct (Hnew H') as [Hm|Hk]; [now left|right; subst; left].
      * right. now right.
Qed.


Lemma Sorted_seqZ (m : Z) (n : nat) : Sorted Z.le (seqZ m (Z.of_nat n)).
Proof.
  revert m. induction n as [|n IH]; intros m.
  - simpl. constructor.
  - rewrite seqZ_cons by lia.
    replace (Z.pred (Z.of_nat (S n))) with (Z.of_nat n) by lia.
    constructor; [apply IH|].
    destruct n as [|n]; [constructor|].
    rewrite seqZ_cons by lia. constructor. lia.
Qed.

Lemma sorted_keys_numbered (predictions : gmap Z table) (n : Z) :
  0 <= n ->
  (forall k, is_Some (predictions !! k) <-> 1 <= k <= n) ->
  sorted_keys predictions = seqZ 1 n.
Proof.
  intros Hn Hkeys. unfold sorted_keys.
  apply (Sorted_unique Z.le).
  - apply (Sorted_merge_sort Z.le).
  - rewrite <- (Z2Nat.id n) by assumption. apply Sorted_seqZ.
  - rewrite merge_sort_Permutation. apply NoDup_Permutation.
    + apply (NoDup_fst_map_to_list predictions).
    + apply NoDup_seqZ.
    + intros k. rewrite elem_of_seqZ. rewrite list_elem_of_fmap. split.
      * intros ([k' t] & -> & Hin). apply elem_of_map_to_list in Hin.
        simpl. assert (is_Some (predictions !! k')) by eauto.
        apply Hkeys in H. lia.
      * intros Hk. destruct (proj2 (Hkeys k)) as [t Ht]; [lia|].
        exists (k, t). split; [reflexivity|]. now apply elem_of_map_to_list.
Qed.

Lemma convert_predictions_counters (predictions : gmap Z table) keys :
  (forall k, k ∈ keys -> is_Some (predictions !! k)) ->
  map reported_counter
    (omap (fun key => convert_table key <$> predictions !! key) keys) = keys.
Proof.
  induction keys as [|k keys IH]; intros Hkeys; [reflexivity|].
  simpl. destruct (Hkeys k) as [t Ht]; [left|]. rewrite Ht. simpl.
  f_equal. apply IH. intros k' Hk'. apply Hkeys. now right.
Qed.

Section ExtractProperties.

Context (discover_next_table : Z -> Z -> gmap Z string -> option table)
        (row_text : Z -> string) (n_rows : Z) (blank_lines : list Z).

Local Abbreviation iteration :=
  (Extract.iteration discover_next_table row_text n_rows blank_lines).
Local Abbreviation loop :=
  (Extract.loop discover_next_table row_text n_rows blank_lines).

Lemma close_previous_keys (tables : gmap Z table) counter current k :
  is_Some (Extract.close_previous tables counter current !! k)
  <-> is_Some (tables !! k).
Proof.
  unfold Extract.close_previous.
  destruct (tables !! (counter - 1)) as [previous|] eqn:Hp; [|reflexivity].
  rewrite lookup_insert. case_decide; [subst k|reflexivity].
  rewrite Hp. split; eauto.
Qed.

(** The numbering of the stored tables during the loop: the keys are the
    numbers below the counter, and the counter itself while a merged table
    waits to be stored again. *)
Lemma iteration_numbering st t :
  1 <= Extract.table_counter st ->
  (forall k, 1 <= k < Extract.table_counter st ->
     is_Some (Extract.discovered_tables st !! k)) ->
  (forall k, is_Some (Extract.discovered_tables st !! k) ->
     1 <= k <= Extract.table_counter st) ->
  let st' := (iteration st t).1 in
  1 <= Extract.table_counter st'
  /\ (forall k, 1 <= k < Extract.table_counter st' ->
        is_Some (Extract.discovered_tables st' !! k))
  /\ (forall k, is_Some (Extract.discovered_tables st' !! k) ->
        1 <= k <= Extract.table_counter st')
  /\ ((iteration st t).2 = None ->
      Extract.discovered_tables st' !! Extract.table_counter st' = None).
Proof.
  intros Hc Hlow Hup. unfold Extract.iteration. cbv zeta.
  set (c := Extract.table_counter st) in *.
  set (tables := <[c := t]> (Extract.discovered_tables st)).
  assert (Hkeys : forall k, is_Some (tables !! k) <-> 1 <= k <= c).
  { intros k. subst tables. rewrite lookup_insert. case_decide.
    - subst k. split; [lia|eauto].
    - split.
      + intros H'. specialize (Hup k H'). lia.
      + intros H'. apply Hlow. lia. }
  destruct (discover_next_table _ _ _) as [found|]; simpl.
  - destruct (merge_condition blank_lines t found); simpl.
    + assert (Hkeys' : forall k,
        is_Some (<[c + 1 - 1 := Extract.close_current n_rows
                                  (merge_tables t found)]> tables !! k)
        <-> 1 <= k <= c).
      { intros k. rewrite lookup_insert. case_decide.
        - split; [lia|eauto].
        - apply Hkeys. }
      split; [lia|]. split; [|split].
      * intros k Hk. apply close_previous_keys, Hkeys'. lia.
      * intros k Hk. apply close_previous_keys, Hkeys' in Hk. lia.
      * discriminate.
    + split; [lia|]. split; [|split].
      * intros k Hk. apply close_previous_keys, Hkeys. lia.
      * intros k Hk. apply close_previous_keys, Hkeys in Hk. lia.
      * discriminate.
  - split; [lia|]. split; [|split].
    + intros k Hk. apply Hkeys. lia.
    + intros k Hk. apply Hkeys in Hk. lia.
    + intros _. apply eq_None_not_Some. intros Hk. apply Hkeys in Hk. lia.
Qed.

Lemma loop_numbering fuel st pending st' :
  1 <= Extract.table_counter st ->
  (forall k, 1 <= k < Extract.table_counter st ->
     is_Some (Extract.discovered_tables st !! k)) ->
  (forall k, is_Some (Extract.discovered_tables st !! k) ->
     1 <= k <= Extract.table_counter st) ->
  (pending = None ->
   Extract.discovered_tables st !! Extract.table_counter st = None) ->
  loop fuel st pending = Some st' ->
  1 <= Extract.table_counter st'
  /\ forall k, is_Some (Extract.discovered_tables st' !! k)
               <-> 1 <= k < Extract.table_counter st'.
Proof.
  revert st pending. induction fuel as [|fuel IH]; intros st pending Hc Hlow Hup Hnone.
  - destruct pending as [t|]; simpl; [discriminate|].
    intros H. inversion H; subst. split; [assumption|].
    intros k. split; [|apply Hlow].
    intros Hk. pose proof (Hup k Hk).
    destruct (decide (k = Extract.table_counter st')) as [->|Hne]; [|lia].
    rewrite (Hnone eq_refl) in Hk. destruct Hk; discriminate.
  - destruct pending as [t|]; simpl.
    + destruct (iteration_numbering st t Hc Hlow Hup) as (H1 & H2 & H3 & H4).
      apply IH; assumption.
    + intros H. inversion H; subst. split; [assumption|].
      intros k. split; [|apply Hlow].
      intros Hk. pose proof (Hup k Hk).
      destruct (decide (k = Extract.table_counter st')) as [->|Hne]; [|lia].
      rewrite (Hnone eq_refl) in Hk. destruct Hk; discriminate.
Qed.

(** X18.  The tables [extract_tables] returns are numbered from [1] without
    a gap, also when discovered tables were merged into the table before
    them, and [convert_predictions] reports them in that order, each under
    its number. *)
Theorem extract_tables_numbering (fuel : nat) (tables : gmap Z table) :
  Extract.extract_tables discover_next_table row_text n_rows blank_lines fuel
    = Some tables ->
  exists n, 0 <= n
    /\ (forall k, is_Some (tables !! k) <-> 1 <= k <= n)
    /\ map reported_counter (convert_predictions tables) = seqZ 1 n.
Proof.
  intros H.
  assert (Hnum : exists n, 0 <= n
                  /\ forall k, is_Some (tables !! k) <-> 1 <= k <= n).
  { revert H. unfold Extract.extract_tables.
    destruct (loop fuel _ _) as [st|] eqn:Hloop; simpl; [|discriminate].
    apply loop_numbering in Hloop as [Hc Hkeys]; simpl.
    - intros H. exists (Extract.table_counter st - 1). split; [lia|].
      assert (Hk : forall k, is_Some (Extract.discovered_tables st !! k)
                             <-> 1 <= k <= Extract.table_counter st - 1).
      { intros k. rewrite Hkeys. lia. }
      destruct (Extract.discovered_tables st !! (Extract.table_counter st - 1))
        as [last_table|] eqn:Hlast.
      + destruct (bool_decide (data_end last_table = n_rows)).
        * inversion H; subst. exact Hk.
        * inversion H; subst. intros k. rewrite lookup_insert. case_decide.
          -- subst k. rewrite <- Hk, Hlast. split; eauto.
          -- apply Hk.
      + inversion H; subst. exact Hk.
    - lia.
    - intros k Hk. lia.
    - intros k Hk. rewrite lookup_empty in Hk. destruct Hk; discriminate.
    - intros _. apply lookup_empty. }
  destruct Hnum as (n & Hn & Hkeys). exists n. split; [assumption|].
  split; [assumption|]. unfold convert_predictions.
  rewrite (sorted_keys_numbered tables n Hn Hkeys).
  apply convert_predictions_counters. intros k Hk.
  apply elem_of_seqZ in Hk. apply Hkeys. lia.
Qed.

Lemma loop_terminates fuel st t :
  (forall o c h found, discover_next_table o c h = Some found ->
     o <= data_end found) ->
  (forall o c h, n_rows <= o -> discover_next_table o c h = None) ->
  (1 <= fuel)%nat -> n_rows - data_end t <= Z.of_nat fuel ->
  is_Some (loop fuel st (Some t)).
Proof.
  intros Hdown Hend. revert st t.
  induction fuel as [|fuel IH]; intros st t Hfuel Hrest; [lia|].
  simpl. unfold Extract.iteration. cbv zeta.
  destruct (discover_next_table (data_end t + 1) _ _) as [found|] eqn:Hfound.
  - pose proof (Hdown _ _ _ _ Hfound) as Hlower.
    assert (Hinside : data_end t + 1 < n_rows).
    { destruct (Z_lt_le_dec (data_end t + 1) n_rows) as [?|Hge]; [assumption|].
      rewrite (Hend _ _ _ Hge) in Hfound. discriminate. }
    destruct (merge_condition blank_lines t found); simpl.
    + apply IH; [lia|].
      rewrite (proj2 (close_current_data n_rows (merge_tables t found))).
      simpl. lia.
    + apply IH; [lia|].
      rewrite (proj2 (close_current_data n_rows found)). lia.
  - simpl. destruct fuel; simpl; eauto.
Qed.

(** X19.  [extract_tables] terminates: when every table [discover_next_table]
    finds ends at or below the offset it was asked to search from, and it
    finds nothing from an offset past the last row, the loop ends within
    [n_rows + 1] passes. *)
Theorem extract_tables_terminates :
  (forall o c h found, discover_next_table o c h = Some found ->
     o <= data_end found) ->
  (forall o c h, n_rows <= o -> discover_next_table o c h = None) ->
  is_Some (Extract.extract_tables discover_next_table row_text n_rows
             blank_lines (Z.to_nat n_rows + 1)).
Proof.
  intros Hdown Hend. unfold Extract.extract_tables.
  assert (Hloop : is_Some (loop (Z.to_nat n_rows + 1) (Extract.State ∅ 1 ∅)
                             (discover_next_table 0 1 ∅))).
  { destruct (discover_next_table 0 1 ∅) as [t|] eqn:Hfirst.
    - apply loop_terminates; [assumption|assumption|lia|].
      pose proof (Hdown _ _ _ _ Hfirst). lia.
    - destruct (Z.to_nat n_rows + 1)%nat; simpl; eauto. }
  destruct Hloop as [st ->]. simpl.
  destruct (Extract.discovered_tables st !! _) as [last_table|]; [|eauto].
  destruct (bool_decide _); eauto.
Qed.

End ExtractProperties.

Lemma extract_tables_numbering_witness :
  exists tables n,
    Extract.extract_tables sample_discover_all (fun _ => "") 8 [] 9
      = Some tables
    /\ 0 <= n
    /\ (forall k, is_Some (tables !! k) <-> 1 <= k <= n)
    /\ map reported_counter (convert_predictions tables) = seqZ 1 n.
Proof.
  destruct (Extract.extract_tables sample_discover_all (fun _ => "") 8 [] 9)
    as [tables|] eqn:H.
  - destruct (extract_tables_numbering sample_discover_all (fun _ => "") 8 []
                9 tables H) as (n & Hn & Hk & Hc).
    exists tables, n. auto.
  - vm_compute in H. discriminate.
Defined.

Lemma extract_tables_terminates_witness :
  is_Some (Extract.extract_tables sample_discover_all (fun _ => "") 8 []
             (Z.to_nat 8 + 1)).
Proof.
  apply (extract_tables_terminates sample_discover_all (fun _ => "") 8 []).
  - intros o c h found. unfold sample_discover_all.
    destruct (Z.eqb_spec o 0) as [->|_].
    + intros H. inversion H; subst. simpl. lia.
    + destruct (Z.eqb_spec o 4) as [->|_]; [|discriminate].
      intros H. inversion H; subst. simpl. lia.
  - intros o c h Ho. unfold sample_discover_all.
    destruct (Z.eqb_spec o 0) as [->|_]; [lia|].
    destruct (Z.eqb_spec o 4) as [->|_]; [lia|reflexivity].
Defined.

Section WalkResult.

Context (footnote_keywords : list string) {prediction : Type}
        (predict_line_label : Qc -> Qc -> prediction)
        (label : prediction -> string) {patterns : Type}
        (collect_line_rules :
           patterns -> Z -> Z -> nat ->
           option (gmap Z data_cell * gmap Z not_data_cell * patterns))
        (ctx : walk_context).

Local Abbreviation run :=
  (walk footnote_keywords predict_line_label label collect_line_rules ctx).

(** The last data line after the walk is the one before it or a row of the
    walk that is not blank. *)
Lemma walk_result (candidate_rows : list (Z * list cell))
    (st st' : walk_state prediction patterns) :
  run candidate_rows st = Some st' ->
  predicted_ldl st' = predicted_ldl st
  \/ (predicted_ldl st' ∈ map fst candidate_rows
      /\ predicted_ldl st' ∉ blank_lines ctx).
Proof.
  revert st. induction candidate_rows as [|row rest IH]; intros st; simpl.
  - intros H. inversion H; subst. now left.
  - destruct (walk_step _ _ _ _ _ st row) as [c|] eqn:Hstep; [|discriminate].
    pose proof (walk_step_effect footnote_keywords predict_line_label label
                  collect_line_rules ctx st row c Hstep) as Heff.
    assert (Hstate : predicted_ldl (state_of c) = predicted_ldl st
                     \/ (predicted_ldl (state_of c) = row.1
                         /\ row.1 ∉ blank_lines ctx)).
    { destruct Heff as [[H _]|(H & _ & Hb)]; [now left|now right]. }
    destruct c as [st1|st1]; simpl in Hstate.
    + intros Hrest. destruct (IH st1 Hrest) as [Hsame|[Hin Hb]].
      * rewrite Hsame. destruct Hstate as [?|[-> Hb]]; [now left|].
        right. split; [left|assumption].
      * right. split; [now right|assumption].
    + intros H. inversion H; subst.
      destruct Hstate as [?|[-> Hb]]; [now left|].
      right. split; [left|assumption].
Qed.

End WalkResult.

(** X20.  The last data line of the top-down walk is never above the
    predicted first data line: it is that line itself, or a row of the
    frame at or below it that is not a blank row. *)
Theorem last_data_line_bounds
    (footnote_keywords : list string) {prediction : Type}
    (predict_line_label : Qc -> Qc -> prediction)
    (label : prediction -> string) {patterns : Type}
    (collect_line_rules :
       patterns -> Z -> Z -> nat ->
       option (gmap Z data_cell * gmap Z not_data_cell * patterns))
    (ctx : walk_context) (new_patterns : patterns)
    {boundary_confidence : Type}
    (last_data_line_confidence : gmap Z prediction -> Z -> boundary_confidence)
    (ldl : Z) (conf : boundary_confidence) :
  predict_last_data_line_top_down footnote_keywords predict_line_label label
    collect_line_rules ctx new_patterns last_data_line_confidence
    = Some (ldl, conf) ->
  predicted_fdl ctx <= ldl
  /\ (ldl = predicted_fdl ctx
      \/ (ldl ∈ map fst (rows (dataframe ctx)) /\ ldl ∉ blank_lines ctx)).
Proof.
  unfold predict_last_data_line_top_down.
  destruct (walk _ _ _ _ _ (rows (candidate_data ctx)) _) as [st'|] eqn:Hwalk;
    simpl; [|discriminate].
  intros H. inversion H; subst ldl conf. clear H.
  apply walk_result in Hwalk. simpl in Hwalk.
  destruct Hwalk as [->|[Hin Hb]]; [split; [lia|now left]|].
  rewrite candidate_labels in Hin. apply list_elem_of_filter in Hin as [Hge Hin].
  split; [assumption|]. right. split; assumption.
Qed.

Lemma last_data_line_bounds_witness :
  predicted_fdl (sample_walk_context 0) <= 3
  /\ (3 = predicted_fdl (sample_walk_context 0)
      \/ (3 ∈ map fst (rows (dataframe (sample_walk_context 0)))
          /\ 3 ∉ blank_lines (sample_walk_context 0))).
Proof.
  refine (last_data_line_bounds sample_footnote_keywords
            sample_predict_line_label id sample_collect_line_rules
            (sample_walk_context 0) tt (fun _ _ => tt) 3 tt _).
  vm_compute. reflexivity.
Defined.

